(** * Terrier execution engine: semantic analyzer, pipeline, output checkers,
      catalog handles and the online index build coordinator.

    Shallow embedding of the C++ sources and the properties proved or
    refuted about them.  Every definition names the source function it
    embeds; external collaborators that are only declared (headers that are
    not part of the sources at hand) are modelled from the specification and
    say so in their doc comment. *)

From Stdlib Require Import ZArith Lia.
From stdpp Require Import base option list strings gmap.

Set Default Proof Using "Type".

(* ===================================================================== *)
(** * The type universe of the DSL (execution/ast/type.h)                 *)
(* ===================================================================== *)

Module Ast.

(** Modelled from the spec: [ast::BuiltinType::Kind], the closed enumeration
    of primitive and opaque engine kinds of section 3.  The header
    execution/ast/type.h is not among the sources; the constructor names are
    the ones sema_builtin.cpp uses. *)
Inductive Kind : Set :=
  | Nil | Bool
  | Int8 | Int16 | Int32 | Int64
  | Uint8 | Uint16 | Uint32 | Uint64
  | Float32 | Float64
  (* SQL value types *)
  | Boolean | Integer | Real | StringVal | Date
  (* aggregators *)
  | CountAggregate | CountStarAggregate | IntegerSumAggregate
  | IntegerMinAggregate | IntegerMaxAggregate | IntegerAvgAggregate
  (* opaque engine kinds *)
  | ProjectedColumnsIterator | TableVectorIterator | IndexIterator
  | JoinHashTable | JoinHashTableIterator
  | AggregationHashTable | AggregationHashTableIterator | AggOverflowPartIter
  | Sorter | SorterIterator | FilterManager | MemoryPool
  | ThreadStateContainer | ExecutionContext.

#[global] Instance Kind_eq_dec : EqDecision Kind.
Proof. solve_decision. Defined.

(** Modelled from the spec: [ast::Type] with its derived forms
    [PointerTo(T)], [FunctionType(params, return)], [ArrayOf(T)] and the
    string type. *)
#[warnings="-register-all"]
Inductive Type_ : Set :=
  | BuiltinType (kind : Kind)
  | StringType
  | PointerType (base : Type_)
  | ArrayType (len : N) (elem : Type_)
  | FunctionType (params : list Type_) (ret : Type_).

Definition GetBuiltinType (kind : Kind) : Type_ := BuiltinType kind.
Definition PointerTo (t : Type_) : Type_ := PointerType t.

Definition IsSpecificBuiltin (t : Type_) (kind : Kind) : bool :=
  match t with
  | BuiltinType k => bool_decide (k = kind)
  | _ => false
  end.

Definition GetPointeeType (t : Type_) : option Type_ :=
  match t with
  | PointerType base => Some base
  | _ => None
  end.

Definition IsPointerType (t : Type_) : bool :=
  match t with PointerType _ => true | _ => false end.

Definition IsFunctionType (t : Type_) : bool :=
  match t with FunctionType _ _ => true | _ => false end.

Definition IsStringType (t : Type_) : bool :=
  match t with StringType => true | _ => false end.

Definition IsBoolType (t : Type_) : bool := IsSpecificBuiltin t Bool.

Definition IsNilType (t : Type_) : bool := IsSpecificBuiltin t Nil.

(** The intrinsics whose checkers are embedded below ([ast::Builtin]). *)
Inductive Builtin : Set :=
  | AggHashTableInit | AggHashTableInsert | AggHashTableLookup
  | AggHashTableProcessBatch | AggHashTableMovePartitions
  | AggHashTableParallelPartitionedScan | AggHashTableFree
  | TableIterInit | TableIterAdvance | TableIterGetPCI | TableIterClose
  | IndexIteratorInit.

(** An argument expression after resolution: its type, and whether the
    expression is a string literal ([Expr::IsStringLiteral]). *)
Record Expr : Set := mkExpr { type : Type_; IsStringLiteral : bool }.

(** A call expression: the callee and the ordered argument list.  The
    resolved type of the call is mutable and lives in the analyzer state. *)
Record CallExpr : Set := mkCall { GetFuncName : string; arguments : list Expr }.

Definition num_args (call : CallExpr) : nat := length (arguments call).

End Ast.

(* ===================================================================== *)
(** * The semantic analyzer (execution/sema/sema_builtin.cpp)             *)
(* ===================================================================== *)

Module Sema.
Import Ast.

(** What a diagnostic expects at an argument position: a type, or the
    free-form text of the second [ReportIncorrectCallArg] overload. *)
Inductive Expected : Set :=
  | ExpectedType (t : Type_)
  | ExpectedText (s : string).

(** Modelled from the spec: the diagnostics of section 7 that the embedded
    checkers emit ([ErrorMessages::kMismatchedCallArgs] and
    [kIncorrectCallArgType]); each carries the callee name, and the
    argument index with the expected and the actual type. *)
Inductive Diagnostic : Set :=
  | MismatchedCallArgs (callee : string) (expected actual : nat)
  | IncorrectCallArgType (callee : string) (expected : Expected)
                         (index : nat) (actual : Type_).

(** The analyzer state touched by a checker: the shared error reporter and
    the type slot of the call under analysis (initially unset). *)
Record SemaState : Set := mkSema {
  error_reporter : list Diagnostic;
  call_type : option Type_
}.

(** A checker either runs on ([Next]), leaves through a [return] statement
    ([Return]), or has no defined behaviour ([Undefined]: an argument
    vector indexed out of range or an [UNREACHABLE] default). *)
Inductive step (A : Type) : Type :=
  | Next (a : A) (s : SemaState)
  | Return (s : SemaState)
  | Undefined.
Arguments Next {A} a s.
Arguments Return {A} s.
Arguments Undefined {A}.

Definition sema (A : Type) : Type := SemaState -> step A.

#[global] Instance sema_ret : MRet sema := fun A a s => Next a s.
#[global] Instance sema_bind : MBind sema := fun A B k m s =>
  match m s with
  | Next a s' => k a s'
  | Return s' => Return s'
  | Undefined => Undefined
  end.

(** [return;] *)
Definition return_ {A} : sema A := fun s => Return s.
(** [UNREACHABLE(...)] and out-of-range reads. *)
Definition undefined {A} : sema A := fun _ => Undefined.

(** [error_reporter()->Report(...)] *)
Definition Report (d : Diagnostic) : sema unit := fun s =>
  Next tt {| error_reporter := error_reporter s ++ [d]; call_type := call_type s |}.

(** [call->set_type(t)] *)
Definition set_type (t : Type_) : sema unit := fun s =>
  Next tt {| error_reporter := error_reporter s; call_type := Some t |}.

(** [call->arguments()[i]]: reading past the end is undefined. *)
Definition args (call : CallExpr) (i : nat) : sema Expr :=
  match arguments call !! i with
  | Some e => mret e
  | None => undefined
  end.

(** [if (cond) { body; return; }] *)
Definition bail_if (cond : bool) (body : sema unit) : sema unit :=
  if cond then body ;; return_ else mret tt.

(** Modelled from the spec: [Sema::CheckArgCount] (declared in sema.h,
    defined outside the sources at hand): reports a mismatched-argument-count
    diagnostic unless the call has exactly [expected] arguments. *)
Definition CheckArgCount (call : CallExpr) (expected : nat) : sema bool :=
  if bool_decide (num_args call = expected) then mret true
  else Report (MismatchedCallArgs (GetFuncName call) expected (num_args call)) ;;
       mret false.

(** Modelled from the spec: [Sema::CheckArgCountAtLeast], the sibling of
    [CheckArgCount] for a lower bound on the argument count. *)
Definition CheckArgCountAtLeast (call : CallExpr) (expected : nat) : sema bool :=
  if bool_decide (expected <= num_args call) then mret true
  else Report (MismatchedCallArgs (GetFuncName call) expected (num_args call)) ;;
       mret false.

(** Modelled from the spec: [Sema::ReportIncorrectCallArg], both overloads:
    one diagnostic naming the argument index, what was expected and the
    actual type of that argument. *)
Definition ReportIncorrectCallArg (call : CallExpr) (index : nat)
    (expected : Expected) : sema unit :=
  a ← args call index;
  Report (IncorrectCallArgType (GetFuncName call) expected index (type a)).

Definition IsPointerToSpecificBuiltin (t : Type_) (kind : Kind) : bool :=
  match GetPointeeType t with
  | Some pointee_type => IsSpecificBuiltin pointee_type kind
  | None => false
  end.

(** [AreAllFunctions(type...)]: the fold [(true && ... && IsFunctionType)]. *)
Definition AreAllFunctions (types : list Type_) : bool :=
  forallb IsFunctionType types.

(** [Sema::CheckBuiltinIndexIteratorInit], sema_builtin.cpp:1336. *)
Definition CheckBuiltinIndexIteratorInit (call : CallExpr) : sema unit :=
  ok ← CheckArgCount call 2;
  bail_if (negb ok) (mret tt) ;;
  (* First argument must be a pointer to a IndexIterator *)
  let index_kind := IndexIterator in
  a0 ← args call 0;
  bail_if (negb (IsPointerToSpecificBuiltin (type a0) index_kind))
    (ReportIncorrectCallArg call 0
       (ExpectedType (PointerTo (GetBuiltinType index_kind)))) ;;
  (* The second call argument must be a string *)
  a1 ← args call 1;
  bail_if (negb (IsStringType (type a1)))
    (ReportIncorrectCallArg call 1 (ExpectedType StringType)) ;;
  (* The third call argument must an execution context *)
  let exec_ctx_kind := ExecutionContext in
  a2 ← args call 2;
  bail_if (negb (IsPointerToSpecificBuiltin (type a2) exec_ctx_kind))
    (ReportIncorrectCallArg call 2
       (ExpectedType (PointerTo (GetBuiltinType exec_ctx_kind)))) ;;
  set_type (GetBuiltinType Nil) ;;
  (* Return nothing *)
  set_type (GetBuiltinType Nil).

(** [Sema::CheckBuiltinAggHashTableCall], sema_builtin.cpp:113. *)
Definition CheckBuiltinAggHashTableCall (call : CallExpr) (builtin : Builtin)
    : sema unit :=
  ok ← CheckArgCountAtLeast call 1;
  bail_if (negb ok) (mret tt) ;;
  let agg_ht_kind := AggregationHashTable in
  a0 ← args call 0;
  bail_if (negb (IsPointerToSpecificBuiltin (type a0) agg_ht_kind))
    (ReportIncorrectCallArg call 0
       (ExpectedType (PointerTo (GetBuiltinType agg_ht_kind)))) ;;
  match builtin with
  | AggHashTableInit =>
      ok ← CheckArgCount call 3;
      bail_if (negb ok) (mret tt) ;;
      (* Second argument is a memory pool pointer *)
      let mem_pool_kind := MemoryPool in
      a1 ← args call 1;
      bail_if (negb (IsPointerToSpecificBuiltin (type a1) mem_pool_kind))
        (ReportIncorrectCallArg call 1
           (ExpectedType (PointerTo (GetBuiltinType mem_pool_kind)))) ;;
      (* Third argument is the payload size, a 32-bit value *)
      let uint_kind := Uint32 in
      a2 ← args call 2;
      bail_if (negb (IsSpecificBuiltin (type a2) uint_kind))
        (ReportIncorrectCallArg call 2 (ExpectedType (GetBuiltinType uint_kind))) ;;
      (* Nil return *)
      set_type (GetBuiltinType Nil)
  | AggHashTableInsert =>
      ok ← CheckArgCount call 2;
      bail_if (negb ok) (mret tt) ;;
      (* Second argument is the hash value *)
      let hash_val_kind := Uint64 in
      a1 ← args call 1;
      bail_if (negb (IsSpecificBuiltin (type a1) hash_val_kind))
        (ReportIncorrectCallArg call 1
           (ExpectedType (GetBuiltinType hash_val_kind))) ;;
      (* Return a byte pointer *)
      set_type (PointerTo (GetBuiltinType Uint8))
  | AggHashTableLookup =>
      ok ← CheckArgCount call 4;
      bail_if (negb ok) (mret tt) ;;
      (* Second argument is the hash value *)
      let hash_val_kind := Uint64 in
      a1 ← args call 1;
      bail_if (negb (IsSpecificBuiltin (type a1) hash_val_kind))
        (ReportIncorrectCallArg call 1
           (ExpectedType (GetBuiltinType hash_val_kind))) ;;
      (* Third argument is the key equality function *)
      a2 ← args call 2;
      bail_if (negb (IsFunctionType (type a2)))
        (ReportIncorrectCallArg call 2
           (ExpectedType (GetBuiltinType hash_val_kind))) ;;
      (* Fourth argument is the probe tuple, but any pointer will do *)
      set_type (PointerTo (GetBuiltinType Uint8))
  | AggHashTableProcessBatch =>
      ok ← CheckArgCount call 7;
      bail_if (negb ok) (mret tt) ;;
      (* Second argument is the PCIs *)
      let pci_kind := Uint64 in
      a1 ← args call 1;
      bail_if (negb (IsPointerType (type a1)) ||
               match GetPointeeType (type a1) with
               | Some pointee => IsPointerToSpecificBuiltin pointee pci_kind
               | None => false (* not evaluated: [||] has short-circuited *)
               end)
        (ReportIncorrectCallArg call 1
           (ExpectedType (PointerTo (GetBuiltinType pci_kind)))) ;;
      (* Third, fourth, fifth, and sixth are all functions *)
      a2 ← args call 2; a3 ← args call 3; a4 ← args call 4; a5 ← args call 5;
      bail_if (negb (AreAllFunctions [type a2; type a3; type a4; type a5]))
        (ReportIncorrectCallArg call 2 (ExpectedText "function")) ;;
      (* Last arg must be a boolean *)
      a6 ← args call 6;
      bail_if (negb (IsBoolType (type a6)))
        (ReportIncorrectCallArg call 6 (ExpectedType (GetBuiltinType Bool))) ;;
      set_type (GetBuiltinType Nil)
  | AggHashTableMovePartitions =>
      ok ← CheckArgCount call 4;
      bail_if (negb ok) (mret tt) ;;
      (* Second argument is the thread state container pointer *)
      let tls_kind := ThreadStateContainer in
      a1 ← args call 1;
      bail_if (negb (IsPointerToSpecificBuiltin (type a1) tls_kind))
        (ReportIncorrectCallArg call 1
           (ExpectedType (PointerTo (GetBuiltinType tls_kind)))) ;;
      (* Third argument is the offset of the hash table in thread local state *)
      let uint32_kind := Uint32 in
      a2 ← args call 2;
      bail_if (negb (IsSpecificBuiltin (type a2) uint32_kind))
        (ReportIncorrectCallArg call 2
           (ExpectedType (GetBuiltinType uint32_kind))) ;;
      (* Fourth argument is the merging function *)
      a3 ← args call 3;
      bail_if (negb (IsFunctionType (type a3)))
        (ReportIncorrectCallArg call 3
           (ExpectedType (GetBuiltinType uint32_kind))) ;;
      set_type (GetBuiltinType Nil)
  | AggHashTableParallelPartitionedScan =>
      ok ← CheckArgCount call 4;
      bail_if (negb ok) (mret tt) ;;
      (* Second argument is an opaque context pointer *)
      a1 ← args call 1;
      bail_if (negb (IsPointerType (type a1)))
        (ReportIncorrectCallArg call 1
           (ExpectedType (GetBuiltinType agg_ht_kind))) ;;
      (* Third argument is the thread state container pointer *)
      let tls_kind := ThreadStateContainer in
      a2 ← args call 2;
      bail_if (negb (IsPointerToSpecificBuiltin (type a2) tls_kind))
        (ReportIncorrectCallArg call 2
           (ExpectedType (PointerTo (GetBuiltinType tls_kind)))) ;;
      (* Fourth argument is the scanning function *)
      a3 ← args call 3;
      bail_if (negb (IsFunctionType (type a3)))
        (ReportIncorrectCallArg call 3 (ExpectedType (GetBuiltinType tls_kind))) ;;
      set_type (GetBuiltinType Nil)
  | AggHashTableFree =>
      set_type (GetBuiltinType Nil)
  | _ => undefined (* UNREACHABLE("Impossible aggregation hash table call") *)
  end.

(** [Sema::CheckBuiltinTableIterCall], sema_builtin.cpp:771. *)
Definition CheckBuiltinTableIterCall (call : CallExpr) (builtin : Builtin)
    : sema unit :=
  let tvi_kind := TableVectorIterator in
  a0 ← args call 0;
  bail_if (negb (IsPointerToSpecificBuiltin (type a0) tvi_kind))
    (ReportIncorrectCallArg call 0
       (ExpectedType (PointerTo (GetBuiltinType tvi_kind)))) ;;
  match builtin with
  | TableIterInit =>
      ok ← CheckArgCount call 3;
      bail_if (negb ok) (mret tt) ;;
      (* The second argument is the table name as a literal string *)
      a1 ← args call 1;
      bail_if (negb (IsStringLiteral a1))
        (ReportIncorrectCallArg call 1 (ExpectedType StringType)) ;;
      (* The third argument is the execution context *)
      let exec_ctx_kind := ExecutionContext in
      a2 ← args call 2;
      bail_if (negb (IsPointerToSpecificBuiltin (type a2) exec_ctx_kind))
        (ReportIncorrectCallArg call 2
           (ExpectedType (PointerTo (GetBuiltinType exec_ctx_kind)))) ;;
      set_type (GetBuiltinType Nil)
  | TableIterAdvance =>
      (* A single-arg builtin returning a boolean *)
      set_type (GetBuiltinType Bool)
  | TableIterGetPCI =>
      (* A single-arg builtin return a pointer to the current PCI *)
      let pci_kind := ProjectedColumnsIterator in
      set_type (PointerTo (GetBuiltinType pci_kind))
  | TableIterClose =>
      (* A single-arg builtin returning void *)
      set_type (GetBuiltinType Nil)
  | _ => undefined (* UNREACHABLE("Impossible table iteration call") *)
  end.

(** Runs a checker on a fresh call: empty reporter, type unset.  [None]
    stands for undefined behaviour. *)
Definition analyze (check : sema unit) : option SemaState :=
  match check {| error_reporter := []; call_type := None |} with
  | Next _ s => Some s
  | Return s => Some s
  | Undefined => None
  end.

End Sema.

(* ===================================================================== *)
(** * Facts about the semantic analyzer                                   *)
(* ===================================================================== *)

Module SemaFacts.
Import Ast Sema.

(** Shorthands for the calls used as concrete inputs. *)
Definition arg_of (t : Type_) : Expr := {| type := t; IsStringLiteral := false |}.
Definition ptr (kind : Kind) : Type_ := PointerTo (GetBuiltinType kind).
Definition fn_type : Type_ := FunctionType [] (GetBuiltinType Nil).

Definition accepted (t : Type_) : option SemaState :=
  Some {| error_reporter := []; call_type := Some t |}.

Definition rejected (d : Diagnostic) : option SemaState :=
  Some {| error_reporter := [d]; call_type := None |}.

(** Unfolds the monadic plumbing of a checker applied to a call whose
    argument list has a known shape. *)
Ltac run_checker_pass :=
  cbv -[IsPointerToSpecificBuiltin IsStringType IsPointerType IsFunctionType
        IsBoolType type IsStringLiteral].
Ltac run_checker :=
  run_checker_pass; cbn [type IsStringLiteral]; run_checker_pass.

(** A checker that bails out on the argument count alone. *)
Lemma CheckArgCount_mismatch call expected (k : bool -> sema unit) s :
  num_args call <> expected ->
  (CheckArgCount call expected ≫= k) s =
  k false {| error_reporter :=
               error_reporter s ++
               [MismatchedCallArgs (GetFuncName call) expected (num_args call)];
             call_type := call_type s |}.
Proof.
  intros Hne. unfold CheckArgCount, mbind, sema_bind.
  rewrite bool_decide_eq_false_2 by done. reflexivity.
Qed.

(** [CheckBuiltinIndexIteratorInit] guards on an argument count of two, so
    every three-argument call is answered with one
    mismatched-argument-count diagnostic and its type stays unresolved. *)
Lemma IndexIteratorInit_three_args_rejected (name : string) (a0 a1 a2 : Expr) :
  analyze (CheckBuiltinIndexIteratorInit (mkCall name [a0; a1; a2]))
  = rejected (MismatchedCallArgs name 2 3).
Proof. reflexivity. Qed.

(** The call the contract table prescribes, evaluated. *)
Example IndexIteratorInit_contract_call :
  analyze (CheckBuiltinIndexIteratorInit
             (mkCall "indexIteratorInit"
                [arg_of (ptr IndexIterator); arg_of StringType;
                 arg_of (ptr ExecutionContext)]))
  = rejected (MismatchedCallArgs "indexIteratorInit" 2 3).
Proof. reflexivity. Qed.

(** With the two arguments the guard lets through, the checker goes on to
    read [arguments()[2]], past the end of the vector. *)
Lemma IndexIteratorInit_two_args (name : string) (a0 a1 : Expr) :
  IsPointerToSpecificBuiltin (type a0) IndexIterator = true ->
  IsStringType (type a1) = true ->
  analyze (CheckBuiltinIndexIteratorInit (mkCall name [a0; a1])) = None.
Proof.
  intros H0 H1. unfold CheckBuiltinIndexIteratorInit. run_checker.
  rewrite H0; cbn. rewrite H1. reflexivity.
Qed.

(** C5 (as the code has it).  [CheckBuiltinIndexIteratorInit] accepts no
    call at all: whenever it has a defined result the type of the call is
    left unresolved, and a call with three arguments, the well-typed call
    (pointer to IndexIterator, string, pointer to ExecutionContext)
    included, gets exactly the diagnostic that two arguments were expected. *)
Theorem IndexIteratorInit_accepts_nothing (call : CallExpr) (s : SemaState) :
  analyze (CheckBuiltinIndexIteratorInit call) = Some s ->
  call_type s = None
  /\ (num_args call = 3 ->
      error_reporter s = [MismatchedCallArgs (GetFuncName call) 2 3]).
Proof.
  destruct call as [name l]. unfold num_args; cbn [arguments GetFuncName].
  destruct (decide (length l = 2)) as [Hlen|Hlen].
  - destruct l as [|a0 [|a1 [|a2 l]]]; try discriminate Hlen.
    unfold CheckBuiltinIndexIteratorInit. run_checker.
    destruct (IsPointerToSpecificBuiltin (type a0) IndexIterator); cbn;
      [|intros [= <-]; split; [reflexivity|discriminate]].
    destruct (IsStringType (type a1)); cbn; [discriminate|].
    intros [= <-]; split; [reflexivity|discriminate].
  - unfold analyze, CheckBuiltinIndexIteratorInit.
    rewrite CheckArgCount_mismatch by exact Hlen. cbn.
    intros [= <-]. cbn. split; [reflexivity|]. unfold num_args; cbn.
    intros ->. reflexivity.
Qed.

Lemma IndexIteratorInit_accepts_nothing_witness :
  analyze (CheckBuiltinIndexIteratorInit
             (mkCall "indexIteratorInit"
                [arg_of (ptr IndexIterator); arg_of StringType;
                 arg_of (ptr ExecutionContext)]))
  = rejected (MismatchedCallArgs "indexIteratorInit" 2 3)
  /\ call_type {| error_reporter := [MismatchedCallArgs "indexIteratorInit" 2 3];
                  call_type := None |} = None
  /\ (num_args (mkCall "indexIteratorInit"
                  [arg_of (ptr IndexIterator); arg_of StringType;
                   arg_of (ptr ExecutionContext)]) = 3 ->
      error_reporter {| error_reporter := [MismatchedCallArgs "indexIteratorInit" 2 3];
                        call_type := None |}
      = [MismatchedCallArgs "indexIteratorInit" 2 3]).
Proof.
  split; [reflexivity|].
  apply (IndexIteratorInit_accepts_nothing
           (mkCall "indexIteratorInit"
              [arg_of (ptr IndexIterator); arg_of StringType;
               arg_of (ptr ExecutionContext)])).
  reflexivity.
Defined.

(** The seven-argument call of the contract table with an arbitrary second
    argument. *)
Definition process_batch_call (name : string) (second : Type_) : CallExpr :=
  mkCall name
    [arg_of (ptr AggregationHashTable); arg_of second;
     arg_of fn_type; arg_of fn_type; arg_of fn_type; arg_of fn_type;
     arg_of (GetBuiltinType Bool)].

(** C6 (as the code has it).  The second-argument test of
    [AggHashTableProcessBatch] rejects a non-pointer and a pointer to a
    pointer to [Uint64]; every other pointer passes, whatever it points to.
    So a call whose second argument is not a pointer to a pointer to
    ProjectedColumnsIterator is accepted and resolved to nil. *)
Theorem AggHashTableProcessBatch_accepts_any_pointer
    (name : string) (pointee : Type_) :
  IsPointerToSpecificBuiltin pointee Uint64 = false ->
  analyze (CheckBuiltinAggHashTableCall
             (process_batch_call name (PointerTo pointee))
             AggHashTableProcessBatch)
  = accepted (GetBuiltinType Nil).
Proof.
  intros Hp. unfold CheckBuiltinAggHashTableCall, process_batch_call.
  run_checker. rewrite Hp. reflexivity.
Qed.

Lemma AggHashTableProcessBatch_accepts_any_pointer_witness :
  IsPointerToSpecificBuiltin (GetBuiltinType Int32) Uint64 = false /\
  analyze (CheckBuiltinAggHashTableCall
             (process_batch_call "aggHTProcessBatch" (ptr Int32))
             AggHashTableProcessBatch)
  = accepted (GetBuiltinType Nil).
Proof.
  split; [reflexivity|].
  apply (AggHashTableProcessBatch_accepts_any_pointer
           "aggHTProcessBatch" (GetBuiltinType Int32)).
  reflexivity.
Defined.

(** The intended second argument passes too ... *)
Example AggHashTableProcessBatch_pci_pointer :
  analyze (CheckBuiltinAggHashTableCall
             (process_batch_call "aggHTProcessBatch"
                (PointerTo (ptr ProjectedColumnsIterator)))
             AggHashTableProcessBatch)
  = accepted (GetBuiltinType Nil).
Proof. reflexivity. Qed.

(** ... and the only pointer turned away is a pointer to a pointer to
    [Uint64], the kind the source binds to [pci_kind]. *)
Lemma AggHashTableProcessBatch_rejects_uint64_pointer (name : string) :
  analyze (CheckBuiltinAggHashTableCall
             (process_batch_call name (PointerTo (ptr Uint64)))
             AggHashTableProcessBatch)
  = rejected (IncorrectCallArgType name (ExpectedType (ptr Uint64)) 1
                (PointerTo (ptr Uint64))).
Proof. reflexivity. Qed.

Lemma AggHashTableProcessBatch_rejects_non_pointer (name : string) (t : Type_) :
  IsPointerType t = false ->
  analyze (CheckBuiltinAggHashTableCall (process_batch_call name t)
             AggHashTableProcessBatch)
  = rejected (IncorrectCallArgType name (ExpectedType (ptr Uint64)) 1 t).
Proof.
  intros Ht. unfold CheckBuiltinAggHashTableCall, process_batch_call.
  run_checker. rewrite Ht. reflexivity.
Qed.

(** What [AggHashTableProcessBatch] accepts among the seven-argument
    calls, argument by argument. *)
Lemma AggHashTableProcessBatch_accepts_iff (name : string)
    (a0 a1 a2 a3 a4 a5 a6 : Expr) :
  analyze (CheckBuiltinAggHashTableCall
             (mkCall name [a0; a1; a2; a3; a4; a5; a6]) AggHashTableProcessBatch)
  = accepted (GetBuiltinType Nil)
  <-> IsPointerToSpecificBuiltin (type a0) AggregationHashTable = true
      /\ (exists pointee, type a1 = PointerType pointee
                          /\ IsPointerToSpecificBuiltin pointee Uint64 = false)
      /\ AreAllFunctions [type a2; type a3; type a4; type a5] = true
      /\ IsBoolType (type a6) = true.
Proof.
  unfold CheckBuiltinAggHashTableCall, AreAllFunctions. run_checker.
  destruct (IsPointerToSpecificBuiltin (type a0) AggregationHashTable); cbn;
    [|split; [discriminate|intros (? & _); discriminate]].
  destruct (type a1) as [k| |pointee|n t|ps r]; cbn;
    try (split; [discriminate|intros (_ & (? & ? & _) & _); discriminate]).
  destruct (IsPointerToSpecificBuiltin pointee Uint64) eqn:Hp; cbn.
  { split; [discriminate|].
    intros (_ & (p & [= <-] & Hp') & _). congruence. }
  destruct (IsFunctionType (type a2)); cbn;
    [|split; [discriminate|intros (_ & _ & ? & _); discriminate]].
  destruct (IsFunctionType (type a3)); cbn;
    [|split; [discriminate|intros (_ & _ & ? & _); discriminate]].
  destruct (IsFunctionType (type a4)); cbn;
    [|split; [discriminate|intros (_ & _ & ? & _); discriminate]].
  destruct (IsFunctionType (type a5)); cbn;
    [|split; [discriminate|intros (_ & _ & ? & _); discriminate]].
  destruct (IsBoolType (type a6)); cbn;
    [|split; [discriminate|intros (_ & _ & _ & ?); discriminate]].
  split; [intros _|reflexivity]. split; [done|]. split; [by eexists|done].
Qed.

(** C7 (as the code has it).  [CheckBuiltinTableIterCall] never counts the
    arguments of [TableIterAdvance]: once the first argument is a pointer to
    TableVectorIterator the call resolves to bool without a diagnostic,
    whatever follows the first argument. *)
Theorem TableIterAdvance_extra_args_accepted
    (name : string) (a0 : Expr) (rest : list Expr) :
  IsPointerToSpecificBuiltin (type a0) TableVectorIterator = true ->
  analyze (CheckBuiltinTableIterCall (mkCall name (a0 :: rest)) TableIterAdvance)
  = accepted (GetBuiltinType Bool).
Proof.
  intros H0. unfold CheckBuiltinTableIterCall.
  run_checker. rewrite H0. reflexivity.
Qed.

Lemma TableIterAdvance_extra_args_accepted_witness :
  IsPointerToSpecificBuiltin (ptr TableVectorIterator) TableVectorIterator = true /\
  analyze (CheckBuiltinTableIterCall
             (mkCall "tableIterAdvance"
                [arg_of (ptr TableVectorIterator); arg_of (GetBuiltinType Int32)])
             TableIterAdvance)
  = accepted (GetBuiltinType Bool).
Proof.
  split; [reflexivity|].
  apply (TableIterAdvance_extra_args_accepted "tableIterAdvance"
           (arg_of (ptr TableVectorIterator)) [arg_of (GetBuiltinType Int32)]).
  reflexivity.
Defined.

(** A first argument of the wrong type is reported once. *)
Lemma TableIterAdvance_bad_first_arg (name : string) (a0 : Expr) (rest : list Expr) :
  IsPointerToSpecificBuiltin (type a0) TableVectorIterator = false ->
  analyze (CheckBuiltinTableIterCall (mkCall name (a0 :: rest)) TableIterAdvance)
  = rejected (IncorrectCallArgType name (ExpectedType (ptr TableVectorIterator))
                0 (type a0)).
Proof.
  intros H0. unfold CheckBuiltinTableIterCall.
  run_checker. rewrite H0. reflexivity.
Qed.

(** A call without arguments reads [call_args[0]] of an empty vector. *)
Lemma TableIterAdvance_no_args (name : string) :
  analyze (CheckBuiltinTableIterCall (mkCall name []) TableIterAdvance) = None.
Proof. reflexivity. Qed.

End SemaFacts.

(* ===================================================================== *)
(** * The pipeline composer (execution/compiler/pipeline.cpp)             *)
(* ===================================================================== *)

Module Pipeline.

Section Pipeline.
(** Translators are held by pointer; [Parallelism] is the enumeration the
    signature of [Add] names.  Both are declared in headers outside the
    sources at hand and nothing below looks inside them. *)
Context {OperatorTranslator Parallelism : Type}.

(** The two members pipeline.cpp touches: the vector [pipeline_] and the
    cursor [pipeline_index_]. *)
Record Pipeline : Type := mkPipeline {
  pipeline_ : list OperatorTranslator;
  pipeline_index_ : nat
}.

(** The constructor lives in pipeline.h, which is not available: the
    value [pipeline_index_] starts from is left as the parameter [start]. *)
Definition make (start : nat) : Pipeline :=
  {| pipeline_ := []; pipeline_index_ := start |}.

(** [Pipeline::Add]: [pipeline_.push_back(translator)] and nothing else. *)
Definition Add (translator : OperatorTranslator) (parallelism : Parallelism)
    (p : Pipeline) : Pipeline :=
  {| pipeline_ := pipeline_ p ++ [translator];
     pipeline_index_ := pipeline_index_ p |}.

(** What a call of [NextStep] hands back: a translator, [nullptr], or the
    result of indexing the vector out of range (undefined in C++). *)
Inductive step : Type :=
  | translator (t : OperatorTranslator)
  | nullptr
  | out_of_range.

(** [Pipeline::NextStep]: [pipeline_[--pipeline_index_]] when the cursor
    is positive, [nullptr] otherwise. *)
Definition NextStep (p : Pipeline) : step * Pipeline :=
  if decide (0 < pipeline_index_ p) then
    let i := pipeline_index_ p - 1 in
    (match pipeline_ p !! i with
     | Some t => translator t
     | None => out_of_range
     end,
     {| pipeline_ := pipeline_ p; pipeline_index_ := i |})
  else (nullptr, p).

(** The pipeline built by [Add(t1), ..., Add(tn)]. *)
Definition build (start : nat) (par : Parallelism)
    (ts : list OperatorTranslator) : Pipeline :=
  foldl (fun p t => Add t par p) (make start) ts.

(** The results of [k] successive calls of [NextStep]. *)
Fixpoint steps (k : nat) (p : Pipeline) : list step :=
  match k with
  | O => []
  | S k' => let '(r, p') := NextStep p in r :: steps k' p'
  end.

(** What the specification expects of [n + extra] calls on the pipeline
    of [ts]: the translators from the tail first, then [nullptr]. *)
Definition tail_first (ts : list OperatorTranslator) (extra : nat) : list step :=
  (translator <$> reverse ts) ++ replicate extra nullptr.

End Pipeline.

Arguments Pipeline : clear implicits.
Arguments step : clear implicits.

End Pipeline.

(* ===================================================================== *)
(** * Output checkers (test/include/execution/compiler/output_checker.h)  *)
(* ===================================================================== *)

Module OutputChecker.

(** [sql::Integer]: a null flag and a 64-bit payload.  The checker only
    compares payloads, so they are kept as integers. *)
Record Integer : Set := mkInteger { is_null : bool; val : Z }.

(** [SingleIntSortChecker]: its two members, and the number of failed
    [EXPECT_TRUE] assertions recorded so far (gtest state). *)
Record SingleIntSortChecker : Set := mkSortChecker {
  prev_val_ : Integer;
  col_idx_ : nat;
  failures : nat
}.

(** The constructor [SingleIntSortChecker(uint32_t col_idx) : col_idx_{0}]
    with the member initialiser [prev_val_{true, 0}]. *)
Definition make (col_idx : nat) : SingleIntSortChecker :=
  {| prev_val_ := {| is_null := true; val := 0 |};
     col_idx_ := 0;
     failures := 0 |}.

(** [EXPECT_TRUE(cond)]: a non-fatal assertion. *)
Definition EXPECT_TRUE (cond : bool) (c : SingleIntSortChecker)
    : SingleIntSortChecker :=
  {| prev_val_ := prev_val_ c;
     col_idx_ := col_idx_ c;
     failures := if cond then failures c else S (failures c) |}.

(** The body of the loop of [ProcessBatch] for one row; [None] when
    [vals[col_idx_]] is read past the end of the row. *)
Definition process_row (c : SingleIntSortChecker) (vals : list Integer)
    : option SingleIntSortChecker :=
  int_val ← vals !! col_idx_ c;
  let c1 :=
    if is_null int_val then EXPECT_TRUE (is_null (prev_val_ c)) c
    else EXPECT_TRUE (is_null (prev_val_ c) ||
                      bool_decide (val (prev_val_ c) <= val int_val)%Z) c in
  (* Copy the value since the pointer does not belong to this class. *)
  Some {| prev_val_ := int_val; col_idx_ := col_idx_ c1; failures := failures c1 |}.

(** [SingleIntSortChecker::ProcessBatch]. *)
Fixpoint ProcessBatch (c : SingleIntSortChecker) (output : list (list Integer))
    : option SingleIntSortChecker :=
  match output with
  | [] => Some c
  | vals :: output' => c' ← process_row c vals; ProcessBatch c' output'
  end.

(** The batches of a run, delivered in arrival order. *)
Fixpoint ProcessBatches (c : SingleIntSortChecker)
    (batches : list (list (list Integer))) : option SingleIntSortChecker :=
  match batches with
  | [] => Some c
  | output :: batches' => c' ← ProcessBatch c output; ProcessBatches c' batches'
  end.

(** The property of the specification, in its words: [cur] may follow
    [prev] when it is no smaller; a null is accepted only after a null (and
    anything is accepted after a null). *)
Definition may_follow (prev cur : Integer) : Prop :=
  if is_null cur then is_null prev = true
  else is_null prev = true \/ (val prev <= val cur)%Z.

(** A column is sorted when every value may follow its predecessor; the
    first value is compared with the initial null. *)
Fixpoint sorted_after (prev : Integer) (column : list Integer) : Prop :=
  match column with
  | [] => True
  | cur :: column' => may_follow prev cur /\ sorted_after cur column'
  end.

Definition sorted_column (column : list Integer) : Prop :=
  sorted_after {| is_null := true; val := 0 |} column.

(** Column [col] of a list of rows, in row order ([None] if a row is too
    short). *)
Definition column (col : nat) (rows : list (list Integer)) : option (list Integer) :=
  mapM (fun vals : list Integer => vals !! col) rows.

End OutputChecker.

(* ===================================================================== *)
(** * Facts about the pipeline composer                                   *)
(* ===================================================================== *)

Module PipelineFacts.
Import Pipeline.

Section Chain.
Context {OperatorTranslator Parallelism : Type}.
Implicit Types (p : Pipeline OperatorTranslator) (ts : list OperatorTranslator).
Implicit Types (par : Parallelism).

Lemma foldl_Add_chain par ts p :
  pipeline_ (foldl (fun q t => Add t par q) p ts) = pipeline_ p ++ ts.
Proof.
  revert p. induction ts as [|t ts IH]; intros p; cbn.
  - by rewrite app_nil_r.
  - rewrite IH. cbn. by rewrite <- app_assoc.
Qed.

Lemma foldl_Add_index par ts p :
  pipeline_index_ (foldl (fun q t => Add t par q) p ts) = pipeline_index_ p.
Proof. revert p. induction ts as [|t ts IH]; intros p; cbn; [done|by rewrite IH]. Qed.

(** [Add] appends and never moves the cursor. *)
Lemma build_chain start par ts : pipeline_ (build start par ts) = ts.
Proof. unfold build. by rewrite foldl_Add_chain. Qed.

Lemma build_index start par ts : pipeline_index_ (build start par ts) = start.
Proof. unfold build. by rewrite foldl_Add_index. Qed.

Lemma build_eq start par ts :
  build start par ts = {| pipeline_ := ts; pipeline_index_ := start |}.
Proof.
  pose proof (build_chain start par ts). pose proof (build_index start par ts).
  destruct (build start par ts); cbn in *; congruence.
Qed.

Lemma NextStep_zero ts :
  NextStep {| pipeline_ := ts; pipeline_index_ := 0 |}
  = (nullptr, {| pipeline_ := ts; pipeline_index_ := 0 |}).
Proof. reflexivity. Qed.

Lemma NextStep_succ ts i :
  NextStep {| pipeline_ := ts; pipeline_index_ := S i |}
  = (match ts !! i with Some t => translator t | None => out_of_range end,
     {| pipeline_ := ts; pipeline_index_ := i |}).
Proof.
  unfold NextStep; cbn [pipeline_index_ pipeline_].
  destruct (decide (0 < S i)) as [_|Hn]; [|lia].
  replace (S i - 1) with i by lia. reflexivity.
Qed.

(** With the cursor at zero every call answers [nullptr]. *)
Lemma steps_exhausted k ts :
  steps k {| pipeline_ := ts; pipeline_index_ := 0 |} = replicate k nullptr.
Proof.
  induction k as [|k IH]; cbn [steps replicate]; [done|].
  rewrite NextStep_zero. by rewrite IH.
Qed.

(** [NextStep] on its own walks the chain backwards from the cursor. *)
Lemma steps_from_cursor ts i extra :
  i <= length ts ->
  steps (i + extra) {| pipeline_ := ts; pipeline_index_ := i |}
  = tail_first (take i ts) extra.
Proof.
  unfold tail_first. induction i as [|i IH]; intros Hi.
  - cbn [Nat.add]. rewrite steps_exhausted. by rewrite take_0.
  - destruct (lookup_lt_is_Some_2 ts i) as [t Ht]; [lia|].
    cbn [Nat.add steps]. rewrite NextStep_succ, Ht. rewrite IH by lia.
    rewrite (take_S_r _ _ _ Ht), reverse_snoc. reflexivity.
Qed.

(** Had the cursor followed the vector, the walk would be the one the
    specification describes. *)
Lemma steps_cursor_at_end ts extra :
  steps (length ts + extra) {| pipeline_ := ts; pipeline_index_ := length ts |}
  = tail_first ts extra.
Proof. rewrite steps_from_cursor by done. by rewrite firstn_all. Qed.

(** A pipeline whose cursor starts at zero yields no translator at all,
    however many were added. *)
Lemma steps_build_zero par ts k :
  steps k (build 0 par ts) = replicate k nullptr.
Proof. rewrite build_eq. apply steps_exhausted. Qed.

End Chain.

(** C9 (as the code has it).  [Add] leaves [pipeline_index_] where the
    constructor put it, so whatever that starting value is, some sequence of
    [Add] calls is not replayed tail-first by [NextStep]: with a cursor at
    zero nothing is returned, with a cursor at one the head is returned
    first, and a larger cursor indexes a short chain out of range. *)
Theorem NextStep_not_tail_first {Parallelism : Type} (par : Parallelism) (start : nat) :
  exists ts : list nat,
    steps (length ts + 1) (build start par ts) <> tail_first ts 1.
Proof.
  destruct start as [|[|start]].
  - exists [7]. rewrite build_eq. cbn. discriminate.
  - exists [7; 9]. rewrite build_eq. cbn. discriminate.
  - exists [7]. rewrite build_eq. cbn [length Nat.add steps].
    rewrite NextStep_succ. cbn. discriminate.
Qed.

(** The run on a pipeline whose cursor starts at zero: [Add(7)], [Add(9)],
    then three calls of [NextStep]. *)
Example NextStep_after_two_adds :
  steps 3 (build 0 tt [7; 9]) = [nullptr; nullptr; nullptr]
  /\ tail_first [7; 9] 1 = [translator 9; translator 7; nullptr].
Proof. split; reflexivity. Qed.

End PipelineFacts.

(* ===================================================================== *)
(** * Facts about the output checkers                                     *)
(* ===================================================================== *)

Module OutputCheckerFacts.
Import OutputChecker.

Implicit Types (c : SingleIntSortChecker) (vals : list Integer).
Implicit Types (rows output : list (list Integer)).

(** The argument of the constructor is dropped. *)
Lemma make_ignores_col_idx (col_idx : nat) : make col_idx = make 0.
Proof. reflexivity. Qed.

Lemma may_follow_decide prev cur :
  may_follow prev cur <->
  (if is_null cur then is_null prev
   else is_null prev || bool_decide (val prev <= val cur)%Z) = true.
Proof.
  unfold may_follow. destruct (is_null cur); [done|].
  rewrite orb_true_iff, bool_decide_eq_true. done.
Qed.

(** One row: the checker reads column [col_idx_], remembers the value read
    and records a failure exactly when the value may not follow the
    previous one. *)
Lemma process_row_spec c vals c' :
  process_row c vals = Some c' ->
  exists v, vals !! col_idx_ c = Some v
    /\ prev_val_ c' = v
    /\ col_idx_ c' = col_idx_ c
    /\ failures c <= failures c'
    /\ (failures c' = failures c <-> may_follow (prev_val_ c) v).
Proof.
  unfold process_row. destruct (vals !! col_idx_ c) as [v|]; [|discriminate].
  cbn. intros [= <-]. exists v. cbn. rewrite may_follow_decide.
  repeat split; try done;
    destruct (is_null v), (is_null (prev_val_ c)); cbn;
    try case_bool_decide; cbn; try lia; try done.
Qed.

Lemma ProcessBatch_spec rows : forall c c',
  ProcessBatch c rows = Some c' ->
  exists col, column (col_idx_ c) rows = Some col
    /\ col_idx_ c' = col_idx_ c
    /\ failures c <= failures c'
    /\ (failures c' = failures c <-> sorted_after (prev_val_ c) col).
Proof.
  induction rows as [|vals rows IH]; intros c c'; cbn [ProcessBatch].
  - intros [= <-]. exists []. by repeat split.
  - destruct (process_row c vals) as [c1|] eqn:Hrow; [|discriminate]. cbn.
    intros Hrest.
    destruct (process_row_spec _ _ _ Hrow) as (v & Hv & Hprev & Hidx & Hle & Hok).
    destruct (IH _ _ Hrest) as (col & Hcol & Hidx' & Hle' & Hok').
    exists (v :: col). unfold column in *. cbn [mapM].
    rewrite Hv. cbn. rewrite <- Hidx, Hcol. cbn.
    split; [reflexivity|]. split; [congruence|]. split; [lia|].
    cbn [sorted_after]. subst v. split.
    + intros Heq. split; [apply Hok; lia|apply Hok'; lia].
    + intros [Hf Hs]. apply Hok in Hf. apply Hok' in Hs. lia.
Qed.

Lemma ProcessBatch_app rows1 rows2 c :
  ProcessBatch c (rows1 ++ rows2) = ProcessBatch c rows1 ≫= fun c' => ProcessBatch c' rows2.
Proof.
  revert c. induction rows1 as [|vals rows1 IH]; intros c; cbn; [done|].
  destruct (process_row c vals); cbn; [apply IH|done].
Qed.

(** Feeding the batches one after the other is feeding their rows in
    arrival order. *)
Lemma ProcessBatches_concat batches c :
  ProcessBatches c batches = ProcessBatch c (concat batches).
Proof.
  revert c. induction batches as [|b batches IH]; intros c; cbn; [done|].
  rewrite ProcessBatch_app. destruct (ProcessBatch c b); cbn; [apply IH|done].
Qed.

(** C8 (as the code has it).  Whatever column index the checker is
    constructed with, what it checks over the rows of all batches is that
    column 0 is sorted (nondecreasing, a null only after a null): no
    assertion fails exactly when column 0 is. *)
Theorem SingleIntSortChecker_checks_column_zero
    (col_idx : nat) (batches : list (list (list Integer))) c :
  ProcessBatches (make col_idx) batches = Some c ->
  exists column0, column 0 (concat batches) = Some column0
    /\ (failures c = 0 <-> sorted_column column0).
Proof.
  rewrite ProcessBatches_concat. intros Hrun.
  destruct (ProcessBatch_spec _ _ _ Hrun) as (col & Hcol & _ & _ & Hok).
  exists col. split; [exact Hcol|exact Hok].
Qed.

Definition int (z : Z) : Integer := {| is_null := false; val := z |}.

(** Two batches of one row each; column 0 is constant and column 1 goes
    down from 5 to 3. *)
Definition descending_column_one : list (list (list Integer)) :=
  [[[int 0; int 5]]; [[int 0; int 3]]].

Lemma SingleIntSortChecker_checks_column_zero_witness :
  ProcessBatches (make 1) descending_column_one
  = Some {| prev_val_ := int 0; col_idx_ := 0; failures := 0 |}
  /\ exists column0, column 0 (concat descending_column_one) = Some column0
       /\ (failures {| prev_val_ := int 0; col_idx_ := 0; failures := 0 |} = 0
           <-> sorted_column column0).
Proof.
  split; [reflexivity|].
  apply (SingleIntSortChecker_checks_column_zero 1 descending_column_one).
  reflexivity.
Defined.

(** The checker constructed for column 1 is satisfied by an output whose
    column 1 is not sorted. *)
Example SingleIntSortChecker_misses_column_one :
  (failures <$> ProcessBatches (make 1) descending_column_one) = Some 0
  /\ column 1 (concat descending_column_one) = Some [int 5; int 3]
  /\ ~ sorted_column [int 5; int 3].
Proof.
  split; [reflexivity|]. split; [reflexivity|].
  unfold sorted_column; cbn. unfold may_follow; cbn.
  intros (_ & [H|H] & _); [discriminate|lia].
Qed.

End OutputCheckerFacts.

(* ===================================================================== *)
(** * Catalog handles (catalog/namespace_handle.cpp)                      *)
(* ===================================================================== *)

Module Catalog.

(** Object identifiers are strong typedefs over unsigned integers; [!oid]
    in the source unwraps one. *)
Abbreviation namespace_oid_t := N (only parsing).

(** The value [FindRow] searches for: an integer for the lookup by oid, a
    C string for the lookup by name (the two overloads of the source). *)
Inductive SearchValue : Set :=
  | IntValue (n : N)
  | StringValue (s : string).

(** The interface of [SqlTableHelper] that namespace_handle.cpp calls
    through [pg_namespace_hrw_].  The class is declared in a header outside
    the sources at hand; its three operations are parameters here.
    [GetIntColInRow] is taken to return the stored integer in the
    representation of an oid. *)
Class SqlTableHelper (Helper TransactionContext ProjectedRow PRMap : Type) := {
  FindRow : Helper -> TransactionContext -> nat -> SearchValue -> option ProjectedRow;
  GetIntColInRow : Helper -> nat -> ProjectedRow -> N;
  GetPRMap : Helper -> PRMap
}.

Section NamespaceHandle.
Context `{SqlTableHelper Helper TransactionContext ProjectedRow PRMap}.

(** [NamespaceHandle::NamespaceEntry]: the constructor arguments. *)
Record NamespaceEntry : Type := mkNamespaceEntry {
  GetNamespaceOid : namespace_oid_t;
  entry_row : ProjectedRow;
  entry_map : PRMap;
  entry_table : Helper
}.

(** [NamespaceHandle]: the member [pg_namespace_hrw_]. *)
Record NamespaceHandle : Type := mkNamespaceHandle {
  pg_namespace_hrw_ : Helper
}.

(** [NamespaceHandle::GetNamespaceEntry(txn, oid)]; [None] is [nullptr]. *)
Definition GetNamespaceEntry_by_oid (h : NamespaceHandle)
    (txn : TransactionContext) (oid : namespace_oid_t) : option NamespaceEntry :=
  match FindRow (pg_namespace_hrw_ h) txn 0 (IntValue oid) with
  | None => None
  | Some p_row =>
      Some (mkNamespaceEntry oid p_row (GetPRMap (pg_namespace_hrw_ h))
              (pg_namespace_hrw_ h))
  end.

(** [NamespaceHandle::GetNamespaceEntry(txn, name)]. *)
Definition GetNamespaceEntry_by_name (h : NamespaceHandle)
    (txn : TransactionContext) (name : string) : option NamespaceEntry :=
  match FindRow (pg_namespace_hrw_ h) txn 1 (StringValue name) with
  | None => None
  | Some p_row =>
      (* now recover the oid *)
      let oid := GetIntColInRow (pg_namespace_hrw_ h) 0 p_row in
      Some (mkNamespaceEntry oid p_row (GetPRMap (pg_namespace_hrw_ h))
              (pg_namespace_hrw_ h))
  end.

End NamespaceHandle.

Arguments NamespaceEntry : clear implicits.
Arguments NamespaceHandle : clear implicits.

(** ** A list-backed catalog table to run the handle on *)

(** A stored cell: an integer or a string. *)
Inductive Cell : Set :=
  | IntCell (n : N)
  | StringCell (s : string).

Definition cell_matches (v : SearchValue) (c : Cell) : bool :=
  match v, c with
  | IntValue n, IntCell m => bool_decide (n = m)
  | StringValue s, StringCell t => bool_decide (s = t)
  | _, _ => false
  end.

(** Modelled from the spec: the lookup of section 4.5 over a table held as
    a list of rows: the first row whose column [col] holds the value. *)
Definition list_FindRow (rows : list (list Cell)) (txn : unit) (col : nat)
    (v : SearchValue) : option (list Cell) :=
  List.find (fun row => match row !! col with
                        | Some c => cell_matches v c
                        | None => false
                        end) rows.

Definition list_GetIntColInRow (rows : list (list Cell)) (col : nat)
    (row : list Cell) : N :=
  match row !! col with
  | Some (IntCell n) => n
  | _ => 0%N
  end.

#[global] Instance list_table : SqlTableHelper (list (list Cell)) unit (list Cell) unit := {
  FindRow := list_FindRow;
  GetIntColInRow := list_GetIntColInRow;
  GetPRMap := fun _ => tt
}.

(** pg_namespace as the bootstrap leaves it. *)
Definition pg_namespace : list (list Cell) :=
  [[IntCell 1012; StringCell "pg_catalog"]; [IntCell 1013; StringCell "public"]].

End Catalog.

Module CatalogFacts.
Import Catalog.

Section NamespaceHandle.
Context `{SqlTableHelper Helper TransactionContext ProjectedRow PRMap}.
Implicit Types (h : NamespaceHandle Helper) (txn : TransactionContext).

(** C10.  Both overloads of [GetNamespaceEntry] answer [nullptr] exactly
    when [FindRow] (on column 0 for an oid, on column 1 for a name) finds
    no row; an entry found by name wraps the row found and carries as oid
    the integer in column 0 of that row. *)
Theorem GetNamespaceEntry_null_iff_no_row h txn (oid : namespace_oid_t) (name : string) :
  (GetNamespaceEntry_by_oid h txn oid = None
     <-> FindRow (pg_namespace_hrw_ h) txn 0 (IntValue oid) = None)
  /\ (GetNamespaceEntry_by_name h txn name = None
     <-> FindRow (pg_namespace_hrw_ h) txn 1 (StringValue name) = None)
  /\ (forall entry, GetNamespaceEntry_by_name h txn name = Some entry ->
        exists p_row,
          FindRow (pg_namespace_hrw_ h) txn 1 (StringValue name) = Some p_row
          /\ entry_row entry = p_row
          /\ GetNamespaceOid entry = GetIntColInRow (pg_namespace_hrw_ h) 0 p_row).
Proof.
  unfold GetNamespaceEntry_by_oid, GetNamespaceEntry_by_name.
  split; [|split].
  - destruct (FindRow _ txn 0 _); split; intros; congruence.
  - destruct (FindRow _ txn 1 _); split; intros; congruence.
  - intros entry. destruct (FindRow _ txn 1 _) as [p_row|]; [|discriminate].
    intros [= <-]. exists p_row. by repeat split.
Qed.

(** An entry found by oid carries the oid that was asked for. *)
Lemma GetNamespaceEntry_by_oid_Some h txn (oid : namespace_oid_t) entry :
  GetNamespaceEntry_by_oid h txn oid = Some entry ->
  GetNamespaceOid entry = oid
  /\ FindRow (pg_namespace_hrw_ h) txn 0 (IntValue oid) = Some (entry_row entry).
Proof.
  unfold GetNamespaceEntry_by_oid.
  destruct (FindRow _ txn 0 _) as [p_row|]; [|discriminate].
  intros [= <-]. by split.
Qed.

End NamespaceHandle.

(** The handle on the list-backed pg_namespace. *)
Example GetNamespaceEntry_public :
  GetNamespaceOid <$> GetNamespaceEntry_by_name (mkNamespaceHandle pg_namespace) tt "public"
  = Some 1013%N
  /\ GetNamespaceEntry_by_name (mkNamespaceHandle pg_namespace) tt "missing" = None
  /\ GetNamespaceEntry_by_oid (mkNamespaceHandle pg_namespace) tt 7 = None
  /\ entry_row <$> GetNamespaceEntry_by_oid (mkNamespaceHandle pg_namespace) tt 1012
     = Some [IntCell 1012; StringCell "pg_catalog"].
Proof. repeat split; vm_compute; reflexivity. Qed.

End CatalogFacts.

(* ===================================================================== *)
(** * The online index build coordinator (storage/index/index_manager.cpp) *)
(* ===================================================================== *)

Module IndexManager.

(** Object identifiers, column ids, tuple slots, timestamps and heap
    addresses are unsigned machine integers that the coordinator only
    copies and compares. *)
Abbreviation db_oid_t := N (only parsing).
Abbreviation namespace_oid_t := N (only parsing).
Abbreviation table_oid_t := N (only parsing).
Abbreviation index_oid_t := N (only parsing).
Abbreviation indexkeycol_oid_t := N (only parsing).
Abbreviation col_oid_t := N (only parsing).
Abbreviation col_id_t := N (only parsing).
Abbreviation TupleSlot := N (only parsing).
Abbreviation timestamp_t := N (only parsing).
Abbreviation address := N (only parsing).
(** [index_id_t], the result of [make_index_id(db_oid, ns_oid, index_oid)]. *)
Abbreviation index_id_t := (N * N * N)%type (only parsing).

Definition make_index_id (db_oid : db_oid_t) (ns_oid : namespace_oid_t)
    (index_oid : index_oid_t) : index_id_t := (db_oid, ns_oid, index_oid).

(** [type::TypeId] *)
Inductive TypeId : Set :=
  | INVALID | BOOLEAN | TINYINT | SMALLINT | INTEGER | BIGINT | DECIMAL
  | TIMESTAMP | DATE | VARCHAR | VARBINARY.

Inductive ConstraintType : Set := DEFAULT | UNIQUE.

(** One column of an [IndexKeySchema]: the arguments of the two
    [emplace_back] calls of [GetEmptyIndex] (three or four of them). *)
Record IndexKeyColumn : Set := mkIndexKeyColumn {
  GetOid : indexkeycol_oid_t;
  GetType : TypeId;
  IsNullable : bool;
  fourth_argument : option Z
}.

Abbreviation IndexKeySchema := (list IndexKeyColumn) (only parsing).

(** A row of the attribute catalog, as far as [GetEmptyIndex] reads it:
    the integer columns "oid", "atttypid" (already cast to [TypeId]) and
    "attlen", and the null flag it asks for. *)
Record AttributeEntry : Set := mkAttributeEntry {
  att_oid : N;
  atttypid : TypeId;
  attlen : Z;
  ColumnIsNull : bool
}.

(** A row of the index catalog: the arguments of [IndexHandle::AddEntry]. *)
Record IndexEntry : Set := mkIndexEntry {
  indexptr : address;
  indexrelid : index_oid_t;
  indrelid : table_oid_t;
  indnatts : Z;
  indnkeyatts : Z;
  indisunique : bool;
  indisprimary : bool;
  indisvalid : bool;
  indisready : bool;
  indislive : bool
}.

(** [transaction::TransactionContext], as far as it is observed here. *)
Record TransactionContext : Set := mkTxn { StartTime : timestamp_t }.

(** What the coordinator asks of its collaborators, in call order. *)
Inductive Event : Set :=
  | BeginEv (txn : TransactionContext)
  | BeginWithActionEv (txn : TransactionContext)
  | CommitEv (txn : TransactionContext) (commit_time : timestamp_t)
  | AbortEv (txn : TransactionContext)
  | OldestEv (observed : timestamp_t)
  | AddEntryEv (db_oid : db_oid_t) (entry : IndexEntry)
  | SetEntryColumnEv (db_oid : db_oid_t) (index_oid : index_oid_t)
                     (col : string) (value : bool)
  | DeleteEntryEv (db_oid : db_oid_t) (index_oid : index_oid_t)
  | SetIndexBuildingFlagEv (index_id : index_id_t) (flag : bool).

Section Coordinator.

(** The storage layer is out of scope and consumed through its contract
    (section 6): a table can be iterated and selected from, the container
    behind an index can be inserted into.  [Value] is a cell of a
    projected row. *)
Context {Value SqlTable Container : Type}.
(** [parser::IndexType]; the coordinator receives it and never looks. *)
Context {IndexType : Type}.

(** A projected row: its column ids and the values under them. *)
Record ProjectedRow : Type := mkRow {
  ColumnIds : list col_id_t;
  Values : list Value
}.

Class StorageEngine := {
  (** the slots the table iterator visits, in order *)
  table_slots : SqlTable -> list TupleSlot;
  (** [SqlTable::InitializerForProjectedRow(col_oids).first], then
      [InitializeRow]: the column ids of the fresh row *)
  InitializerForProjectedRow : SqlTable -> list col_oid_t -> list col_id_t;
  (** [SqlTable::Select(txn, slot, out_row)]: the values of the requested
      columns when the tuple is visible to [txn] *)
  Select : SqlTable -> TransactionContext -> TupleSlot -> list col_id_t
           -> option (list Value);
  (** the column ids of a row made by the index's own initializer *)
  GetProjectedRowInitializer : IndexKeySchema -> list col_id_t;
  (** the container [IndexFactory::Build] starts from *)
  empty_container : Container;
  (** [Index::Insert] and [Index::InsertUnique] on the container *)
  Insert : Container -> TransactionContext -> ProjectedRow -> TupleSlot
           -> Container * bool;
  InsertUnique : Container -> TransactionContext -> ProjectedRow -> TupleSlot
                 -> Container * bool;
  (** [type::TypeUtil::GetTypeSize] and the constant it is compared with *)
  GetTypeSize : TypeId -> Z;
  VARLEN_COLUMN : Z
}.

Context `{StorageEngine}.

(** An index object: what [IndexFactory] was given, and the container. *)
Record Index : Type := mkIndex {
  index_oid_ : index_oid_t;
  constraint_ : ConstraintType;
  GetKeySchema : IndexKeySchema;
  container : Container
}.

(** Everything the coordinator reads or writes. *)
Record State : Type := mkState {
  (** the catalog: user tables by (db, namespace, table) *)
  user_tables : gmap (N * N * N) SqlTable;
  (** the attribute catalog by (db, table, attribute name) *)
  pg_attribute : gmap (N * N * string) AttributeEntry;
  (** the index catalog by (db, index oid) *)
  pg_index : gmap (N * N) IndexEntry;
  (** the oid counter behind [Catalog::GetNextOid] *)
  next_oid : N;
  (** index objects on the heap, by address *)
  heap : gmap N Index;
  (** [index_building_map_] of the index manager *)
  index_building_map_ : gmap (N * N * N) bool;
  (** the timestamp counter of the transaction manager *)
  time_ : timestamp_t;
  (** how often [OldestTransactionStartTime] has been asked *)
  polls : nat;
  (** the calls made so far *)
  history : list Event
}.

Definition record (e : Event) (s : State) : State :=
  mkState (user_tables s) (pg_attribute s) (pg_index s) (next_oid s) (heap s)
    (index_building_map_ s) (time_ s) (polls s) (history s ++ [e]).

Definition set_pg_index (m : gmap (N * N) IndexEntry) (s : State) : State :=
  mkState (user_tables s) (pg_attribute s) m (next_oid s) (heap s)
    (index_building_map_ s) (time_ s) (polls s) (history s).

Definition set_heap (m : gmap N Index) (s : State) : State :=
  mkState (user_tables s) (pg_attribute s) (pg_index s) (next_oid s) m
    (index_building_map_ s) (time_ s) (polls s) (history s).

(** ** The transaction manager *)

(** Modelled from the spec: [begin() -> txn].  The manager hands out
    timestamps from one counter. *)
Definition BeginTransaction (s : State) : TransactionContext * State :=
  let txn := mkTxn (time_ s) in
  (txn, record (BeginEv txn)
          (mkState (user_tables s) (pg_attribute s) (pg_index s) (next_oid s)
             (heap s) (index_building_map_ s) (time_ s + 1)%N (polls s)
             (history s))).

(** Modelled from the spec: [begin_with_action(fn) -> txn], the action
    being executed atomically at begin. *)
Definition BeginTransactionWithAction (action : State -> State) (s : State)
    : TransactionContext * State :=
  let txn := mkTxn (time_ s) in
  (txn, action
          (record (BeginWithActionEv txn)
             (mkState (user_tables s) (pg_attribute s) (pg_index s) (next_oid s)
                (heap s) (index_building_map_ s) (time_ s + 1)%N (polls s)
                (history s)))).

(** Modelled from the spec: [commit(txn) -> ts] with its optional
    post-commit callback ([None] is the [nullptr] the coordinator passes). *)
Definition Commit (txn : TransactionContext) (callback : option (State -> State))
    (s : State) : timestamp_t * State :=
  let commit_time := time_ s in
  let s' := record (CommitEv txn commit_time)
              (mkState (user_tables s) (pg_attribute s) (pg_index s) (next_oid s)
                 (heap s) (index_building_map_ s) (time_ s + 1)%N (polls s)
                 (history s)) in
  (commit_time, match callback with Some f => f s' | None => s' end).

(** Modelled from the spec: [abort(txn)].  An abort rolls the writes of
    the transaction back; the coordinator only ever aborts before its
    first write, so there is nothing to undo. *)
Definition Abort (txn : TransactionContext) (s : State) : State :=
  record (AbortEv txn) s.

(** Modelled from the spec: [oldest_active_start_ts() -> ts].  What it
    answers depends on the concurrent workload: [oldest k] is the answer
    to the [k]-th call. *)
Context (oldest : nat -> timestamp_t).

Definition OldestTransactionStartTime (s : State) : timestamp_t * State :=
  let observed := oldest (polls s) in
  (observed,
   record (OldestEv observed)
     (mkState (user_tables s) (pg_attribute s) (pg_index s) (next_oid s)
        (heap s) (index_building_map_ s) (time_ s) (S (polls s)) (history s))).

(** ** The catalog *)

(** Modelled from the spec: [Catalog::GetUserTable]; [None] is [nullptr]. *)
Definition GetUserTable (txn : TransactionContext) (db_oid : db_oid_t)
    (ns_oid : namespace_oid_t) (table_oid : table_oid_t) (s : State)
    : option SqlTable :=
  user_tables s !! (db_oid, ns_oid, table_oid).

(** Modelled from the spec: [Catalog::GetNextOid] allocates a fresh
    identifier. *)
Definition GetNextOid (s : State) : N * State :=
  (next_oid s,
   mkState (user_tables s) (pg_attribute s) (pg_index s) (next_oid s + 1)%N
     (heap s) (index_building_map_ s) (time_ s) (polls s) (history s)).

(** Modelled from the spec: [AttributeHandle::GetAttributeEntry]. *)
Definition GetAttributeEntry (txn : TransactionContext) (db_oid : db_oid_t)
    (table_oid : table_oid_t) (name : string) (s : State) : option AttributeEntry :=
  pg_attribute s !! (db_oid, table_oid, name).

(** Modelled from the spec: [IndexHandle::AddEntry] inserts the row. *)
Definition AddEntry (txn : TransactionContext) (db_oid : db_oid_t)
    (entry : IndexEntry) (s : State) : State :=
  record (AddEntryEv db_oid entry)
    (set_pg_index (<[(db_oid, indexrelid entry) := entry]> (pg_index s)) s).

(** Writes a boolean column of a row by name. *)
Definition set_column (col : string) (value : bool) (e : IndexEntry) : IndexEntry :=
  if bool_decide (col = "indisready") then
    mkIndexEntry (indexptr e) (indexrelid e) (indrelid e) (indnatts e)
      (indnkeyatts e) (indisunique e) (indisprimary e) (indisvalid e) value
      (indislive e)
  else if bool_decide (col = "indisvalid") then
    mkIndexEntry (indexptr e) (indexrelid e) (indrelid e) (indnatts e)
      (indnkeyatts e) (indisunique e) (indisprimary e) value (indisready e)
      (indislive e)
  else e.

(** Modelled from the spec: [IndexHandle::SetEntryColumn]. *)
Definition SetEntryColumn (txn : TransactionContext) (db_oid : db_oid_t)
    (index_oid : index_oid_t) (col : string) (value : bool) (s : State) : State :=
  record (SetEntryColumnEv db_oid index_oid col value)
    (set_pg_index (alter (set_column col value) (db_oid, index_oid) (pg_index s)) s).

(** Modelled from the spec: [IndexHandle::GetIndexEntry]. *)
Definition GetIndexEntry (txn : TransactionContext) (db_oid : db_oid_t)
    (index_oid : index_oid_t) (s : State) : option IndexEntry :=
  pg_index s !! (db_oid, index_oid).

(** Modelled from the spec: [IndexHandle::DeleteEntry]. *)
Definition DeleteEntry (txn : TransactionContext) (db_oid : db_oid_t)
    (entry : IndexEntry) (s : State) : State :=
  record (DeleteEntryEv db_oid (indexrelid entry))
    (set_pg_index (delete (db_oid, indexrelid entry) (pg_index s)) s).

(** Modelled from the spec: [IndexManager::SetIndexBuildingFlag]
    (index_manager.h) writes [index_building_map_]. *)
Definition SetIndexBuildingFlag (index_id : index_id_t) (flag : bool)
    (s : State) : State :=
  record (SetIndexBuildingFlagEv index_id flag)
    (mkState (user_tables s) (pg_attribute s) (pg_index s) (next_oid s) (heap s)
       (<[index_id := flag]> (index_building_map_ s)) (time_ s) (polls s)
       (history s)).

(** ** [IndexManager::GetEmptyIndex] *)

(** The loop over [key_attrs] that fills [key_schema]; [None] when an
    attribute has no catalog entry (the function then returns [nullptr]). *)
Fixpoint fill_key_schema (txn : TransactionContext) (db_oid : db_oid_t)
    (table_oid : table_oid_t) (key_attrs : list string)
    (key_schema : IndexKeySchema) (s : State) : option IndexKeySchema :=
  match key_attrs with
  | [] => Some key_schema
  | key_name :: key_attrs' =>
      match GetAttributeEntry txn db_oid table_oid key_name s with
      | None => None
      | Some entry =>
          let type_id := atttypid entry in
          let column :=
            if bool_decide (GetTypeSize type_id = VARLEN_COLUMN) then
              mkIndexKeyColumn (att_oid entry) type_id (ColumnIsNull entry) None
            else
              mkIndexKeyColumn (att_oid entry) type_id (ColumnIsNull entry)
                (Some (attlen entry)) in
          fill_key_schema txn db_oid table_oid key_attrs'
            (key_schema ++ [column]) s
      end
  end.

(** [GetEmptyIndex]: the address of the index [IndexFactory::Build]
    allocates, or [None] for [nullptr]. *)
Definition GetEmptyIndex (txn : TransactionContext) (db_oid : db_oid_t)
    (table_oid : table_oid_t) (index_oid : index_oid_t) (unique_index : bool)
    (key_attrs : list string) (s : State) : option (address * State) :=
  let constraint := if unique_index then UNIQUE else DEFAULT in
  match fill_key_schema txn db_oid table_oid key_attrs [] s with
  | None => None
  | Some key_schema =>
      let index := mkIndex index_oid constraint key_schema empty_container in
      let a := fresh (dom (heap s)) in
      Some (a, set_heap (<[a := index]> (heap s)) s)
  end.

(** ** [IndexManager::PopulateIndex] *)

(** One call of [Insert] or [InsertUnique] made by the scan, with its
    answer; kept to state what the scan did. *)
Record InsertCall : Type := mkInsertCall {
  key : ProjectedRow;
  slot : TupleSlot;
  succeeded : bool
}.

(** [for (i = 0; i < pr->NumColumns(); ++i) pr->ColumnIds()[i] = ids[i]].
    The source reads [ids] without a bound; the rows it is applied to have
    as many columns as [ids], and for a shorter [ids] the model leaves the
    remaining column ids alone. *)
Definition set_column_ids (ids : list col_id_t) (pr : ProjectedRow) : ProjectedRow :=
  mkRow (take (length (ColumnIds pr)) ids ++ drop (length ids) (ColumnIds pr))
    (Values pr).

(** The loop [for (const auto &it : sql_table)] with its two [break]s. *)
Fixpoint scan (txn : TransactionContext) (sql_table : SqlTable)
    (unique_index : bool) (indkey_ids sql_table_cols : list col_id_t)
    (slots : list TupleSlot) (select_pr : ProjectedRow) (c : Container)
    : Container * bool * list InsertCall :=
  match slots with
  | [] => (c, true, [])
  | it :: slots' =>
      match Select sql_table txn it (ColumnIds select_pr) with
      | Some values =>
          let select_pr :=
            set_column_ids indkey_ids (mkRow (ColumnIds select_pr) values) in
          (* Check whether the insertion successes *)
          let '(c', ok) :=
            if unique_index then InsertUnique c txn select_pr it
            else Insert c txn select_pr it in
          if ok then
            let '(c'', success, calls) :=
              scan txn sql_table unique_index indkey_ids sql_table_cols slots'
                (set_column_ids sql_table_cols select_pr) c' in
            (c'', success, mkInsertCall select_pr it true :: calls)
          else (c', false, [mkInsertCall select_pr it false])
      | None =>
          scan txn sql_table unique_index indkey_ids sql_table_cols slots'
            select_pr c
      end
  end.

(** [PopulateIndex]: the index after the scan, the value returned, and
    the insertions made. *)
Definition PopulateIndex (txn : TransactionContext) (sql_table : SqlTable)
    (index : Index) (unique_index : bool) : Index * bool * list InsertCall :=
  (* Create the projected row for the index *)
  let index_key_schema := GetKeySchema index in
  let indkey_pr := mkRow (GetProjectedRowInitializer index_key_schema) [] in
  (* Create the projected row for the sql table *)
  let col_oids := GetOid <$> index_key_schema in
  let select_pr := mkRow (InitializerForProjectedRow sql_table col_oids) [] in
  (* Record the col_id of each column *)
  let sql_table_cols := ColumnIds select_pr in
  let '(c, success, calls) :=
    scan txn sql_table unique_index (ColumnIds indkey_pr) sql_table_cols
      (table_slots sql_table) select_pr (container index) in
  (mkIndex (index_oid_ index) (constraint_ index) (GetKeySchema index) c,
   success, calls).

(** ** [IndexManager::CreateConcurrently] and [IndexManager::Drop] *)

(** A run of the coordinator either returns, is still in its busy-wait
    when the polls allowed are used up, or has no defined behaviour (a
    null entry or a dangling index pointer is dereferenced). *)
Inductive outcome : Type :=
  | Finished (s : State)
  | Spinning (s : State)
  | Undefined.

(** [while (txn_mgr->OldestTransactionStartTime() < commit_time) {}],
    allowed [fuel] polls: [inl] when the loop is left, [inr] when it is
    still spinning. *)
Fixpoint wait_for_oldest (fuel : nat) (commit_time : timestamp_t) (s : State)
    : State + State :=
  match fuel with
  | O => inr s
  | S fuel' =>
      let '(observed, s') := OldestTransactionStartTime s in
      if bool_decide (observed < commit_time)%N
      then wait_for_oldest fuel' commit_time s'
      else inl s'
  end.

(** [static_cast<int32_t>(v.size())] *)
Definition to_int32 (n : nat) : Z :=
  ((Z.of_nat n + 2 ^ 31) mod 2 ^ 32 - 2 ^ 31)%Z.

(** [PopulateIndex] through the index pointer. *)
Definition PopulateIndex_at (txn : TransactionContext) (sql_table : SqlTable)
    (index : address) (unique_index : bool) (s : State) : option (bool * State) :=
  match heap s !! index with
  | None => None
  | Some object =>
      let '(object', success, _) := PopulateIndex txn sql_table object unique_index in
      Some (success, set_heap (<[index := object']> (heap s)) s)
  end.

(** [IndexManager::CreateConcurrently], index_manager.cpp. *)
Definition CreateConcurrently (fuel : nat) (db_oid : db_oid_t)
    (ns_oid : namespace_oid_t) (table_oid : table_oid_t)
    (index_type : IndexType) (unique_index : bool)
    (index_name : string) (index_attrs key_attrs : list string) (s : State)
    : outcome :=
  (* First transaction to insert an entry for the index in the catalog *)
  let '(txn1, s) := BeginTransaction s in
  match GetUserTable txn1 db_oid ns_oid table_oid s with
  | None => (* user table does not exist *) Finished (Abort txn1 s)
  | Some sql_table =>
      let '(index_oid, s) := GetNextOid s in
      let indnatts := to_int32 (length index_attrs) in
      let indnkeyatts := to_int32 (length key_attrs) in
      let indisunique := unique_index in
      let indisprimary := false in
      let indisvalid := false in
      let indisready := true in
      let indislive := false in
      (* Intialize the index *)
      match GetEmptyIndex txn1 db_oid table_oid index_oid indisunique key_attrs s with
      | None => (* Initializing the index fails *) Finished (Abort txn1 s)
      | Some (index, s) =>
          (* Add IndexEntry *)
          let s := AddEntry txn1 db_oid
                     (mkIndexEntry index index_oid table_oid indnatts indnkeyatts
                        indisunique indisprimary indisvalid indisready indislive) s in
          (* initialize the building flag to false *)
          let index_id := make_index_id db_oid ns_oid index_oid in
          let s := SetIndexBuildingFlag index_id false s in
          (* Commit first transaction *)
          let '(commit_time, s) := Commit txn1 None s in
          (* Wait for all transactions older than the timestamp of previous
             transaction commit *)
          match wait_for_oldest fuel commit_time s with
          | inr s => Spinning s
          | inl s =>
              (* The second transaction set the building flag to true in
                 the critical section. *)
              let '(build_txn, s) :=
                BeginTransactionWithAction (SetIndexBuildingFlag index_id true) s in
              let s := SetEntryColumn build_txn db_oid index_oid "indisready" false s in
              match PopulateIndex_at build_txn sql_table index unique_index s with
              | None => Undefined
              | Some (populated, s) =>
                  let s := SetEntryColumn build_txn db_oid index_oid "indisvalid"
                             populated s in
                  (* Commit the transaction *)
                  let '(_, s) := Commit build_txn None s in
                  Finished s
              end
          end
      end
  end.

(** [IndexManager::Drop], index_manager.cpp. *)
Definition Drop (fuel : nat) (db_oid : db_oid_t) (ns_oid : namespace_oid_t)
    (table_oid : table_oid_t) (index_oid : index_oid_t) (index_name : string)
    (s : State) : outcome :=
  (* Start the transaction to delete the entry in the catalog *)
  let '(txn, s) := BeginTransaction s in
  match GetUserTable txn db_oid ns_oid table_oid s with
  | None => (* user table does not exist *) Finished (Abort txn s)
  | Some sql_table =>
      (* Get the index entry to be deleted *)
      match GetIndexEntry txn db_oid index_oid s with
      | None => Undefined (* the null entry is dereferenced further on *)
      | Some index_entry =>
          (* Delete the index entry from the index_handle *)
          let s := DeleteEntry txn db_oid index_entry s in
          (* Commit the transaction *)
          let '(commit_time, s) := Commit txn None s in
          match wait_for_oldest fuel commit_time s with
          | inr s => Spinning s
          | inl s =>
              (* Now we can safely destruct the index_entry *)
              let index := indexptr index_entry in
              Finished (set_heap (delete index (heap s)) s)
          end
      end
  end.

End Coordinator.

Arguments ProjectedRow : clear implicits.
Arguments InsertCall : clear implicits.
Arguments Index : clear implicits.
Arguments State : clear implicits.
Arguments outcome : clear implicits.
Arguments StorageEngine : clear implicits.

(** ** A small storage engine to run the coordinator on *)

(** A stored tuple: its slot, the timestamp from which it is visible, and
    its cells by column id. *)
Record Tuple : Set := mkTuple {
  tuple_slot : TupleSlot;
  visible_from : timestamp_t;
  cells : list Z
}.

Definition toy_Select (table : list Tuple) (txn : TransactionContext)
    (it : TupleSlot) (cols : list col_id_t) : option (list Z) :=
  match List.find (fun t => bool_decide (tuple_slot t = it)) table with
  | Some t =>
      if bool_decide (visible_from t <= StartTime txn)%N
      then Some ((fun col => default 0%Z (cells t !! N.to_nat col)) <$> cols)
      else None
  | None => None
  end.

(** The container of the toy index: the pairs inserted, oldest first. *)
Definition toy_Insert (c : list (list Z * TupleSlot)) (txn : TransactionContext)
    (k : ProjectedRow Z) (it : TupleSlot) : list (list Z * TupleSlot) * bool :=
  (c ++ [(Values k, it)], true).

Definition toy_InsertUnique (c : list (list Z * TupleSlot)) (txn : TransactionContext)
    (k : ProjectedRow Z) (it : TupleSlot) : list (list Z * TupleSlot) * bool :=
  if bool_decide (Values k ∈ c.*1) then (c, false)
  else (c ++ [(Values k, it)], true).

#[global] Instance toy_engine
    : StorageEngine Z (list Tuple) (list (list Z * TupleSlot)) := {
  table_slots := fun table => tuple_slot <$> table;
  InitializerForProjectedRow := fun _ col_oids => col_oids;
  Select := toy_Select;
  GetProjectedRowInitializer := fun schema => N.of_nat <$> seq 1 (length schema);
  empty_container := [];
  Insert := toy_Insert;
  InsertUnique := toy_InsertUnique;
  GetTypeSize := fun t => match t with
                          | VARCHAR | VARBINARY => (-1)%Z
                          | BOOLEAN | TINYINT => 1%Z
                          | SMALLINT => 2%Z
                          | INTEGER | DATE => 4%Z
                          | _ => 8%Z
                          end;
  VARLEN_COLUMN := (-1)%Z
}.

(** A table of three tuples over two columns; the third tuple repeats the
    value of the first in column 0. *)
Definition toy_table : list Tuple :=
  [mkTuple 100 0 [5; 1]; mkTuple 101 0 [6; 2]; mkTuple 102 0 [5; 3]]%Z.

(** A catalog with that table as (db 1, namespace 2, table 3), its two
    attributes, no index, an empty heap. *)
Definition toy_state : State (list Tuple) (list (list Z * TupleSlot)) :=
  {| user_tables := {[ (1, 2, 3)%N := toy_table ]};
     pg_attribute := {[ (1%N, 3%N, "a") := mkAttributeEntry 0 INTEGER 4 false;
                        (1%N, 3%N, "b") := mkAttributeEntry 1 INTEGER 4 false ]};
     pg_index := ∅;
     next_oid := 50;
     heap := ∅;
     index_building_map_ := ∅;
     time_ := 10;
     polls := 0;
     history := [] |}.

(** A workload whose oldest transaction started at 9 for the first two
    polls and at 12 from then on. *)
Definition toy_oldest (k : nat) : timestamp_t := if decide (k < 2) then 9%N else 12%N.

(** A workload that never lets the oldest start time advance. *)
Definition stuck_oldest (k : nat) : timestamp_t := 9%N.

End IndexManager.

(* ===================================================================== *)
(** * Facts about the online index build coordinator                      *)
(* ===================================================================== *)

Module IndexManagerFacts.
Import IndexManager.

Section Populate.
Context `{StorageEngine Value SqlTable Container}.
Implicit Types (c : Container) (calls : list (InsertCall Value)).
Implicit Types (txn : TransactionContext) (unique_index : bool).

(** The rows of the table that [txn] can see, as the keys handed to the
    index: the selected values under the column ids of the index row. *)
Definition visible_keys txn (sql_table : SqlTable) (index : Index Container)
    : list (ProjectedRow Value * TupleSlot) :=
  let ids := GetProjectedRowInitializer (GetKeySchema index) in
  let cols := InitializerForProjectedRow sql_table (GetOid <$> GetKeySchema index) in
  omap (fun it =>
          (fun values => (set_column_ids ids (mkRow cols values), it))
            <$> Select sql_table txn it cols)
       (table_slots sql_table).

(** [calls] is a sequence of insertions really made on the container,
    each with the answer the index gave, [InsertUnique] being the one
    called for a unique index; [c'] is the container they leave. *)
Inductive performed unique_index txn : Container -> list (InsertCall Value)
                                       -> Container -> Prop :=
  | performed_nil c : performed unique_index txn c [] c
  | performed_cons c c' c'' call calls :
      (if unique_index then InsertUnique c txn (key call) (slot call)
       else Insert c txn (key call) (slot call)) = (c', succeeded call) ->
      performed unique_index txn c' calls c'' ->
      performed unique_index txn c (call :: calls) c''.

Definition target (call : InsertCall Value) : ProjectedRow Value * TupleSlot :=
  (key call, slot call).

Definition accepted_call (k : ProjectedRow Value * TupleSlot) : InsertCall Value :=
  mkInsertCall k.1 k.2 true.

Definition refused_call (k : ProjectedRow Value * TupleSlot) : InsertCall Value :=
  mkInsertCall k.1 k.2 false.

Lemma set_column_ids_length ids (pr : ProjectedRow Value) :
  length (ColumnIds (set_column_ids ids pr)) = length (ColumnIds pr).
Proof. cbn. rewrite length_app, length_take, length_drop. lia. Qed.

(** Relabelling a row with the ids of the index and back gives the
    column ids of the table again. *)
Lemma set_column_ids_restore cols ids (values : list Value) :
  ColumnIds (set_column_ids cols (set_column_ids ids (mkRow cols values))) = cols.
Proof.
  unfold set_column_ids at 1. cbn [ColumnIds].
  rewrite set_column_ids_length. cbn [ColumnIds].
  rewrite firstn_all, drop_ge, app_nil_r; [done|].
  rewrite set_column_ids_length. done.
Qed.

(** The loop of [PopulateIndex], slot by slot. *)
Lemma scan_spec txn sql_table unique_index ids cols slots :
  forall select_pr c c' success calls,
  ColumnIds select_pr = cols ->
  scan txn sql_table unique_index ids cols slots select_pr c = (c', success, calls) ->
  let keys :=
    omap (fun it => (fun values => (set_column_ids ids (mkRow cols values), it))
                      <$> Select sql_table txn it cols) slots in
  performed unique_index txn c calls c'
  /\ (success = true ->
        target <$> calls = keys /\ Forall (fun call => succeeded call = true) calls)
  /\ (success = false ->
        exists done failing rest,
          keys = done ++ failing :: rest
          /\ calls = (accepted_call <$> done) ++ [refused_call failing]).
Proof.
  induction slots as [|it slots IH]; intros select_pr c c' success calls Hids; cbn.
  - intros [= <- <- <-]. split; [constructor|]. split; [done|discriminate].
  - rewrite Hids. destruct (Select sql_table txn it cols) as [values|]; cbn.
    2:{ intros Hscan. by apply (IH _ _ _ _ _ Hids Hscan). }
    set (k := set_column_ids ids (mkRow cols values)).
    destruct (if unique_index then InsertUnique c txn k it
              else Insert c txn k it) as [c1 ok] eqn:Hop.
    destruct ok.
    + destruct (scan txn sql_table unique_index ids cols slots
                  (set_column_ids cols k) c1) as [[c2 success2] calls2] eqn:Hrest.
      intros [= <- <- <-].
      destruct (IH _ _ _ _ _ (set_column_ids_restore cols ids values) Hrest)
        as (Hperf & Htrue & Hfalse).
      split; [by econstructor|]. split.
      * intros Hs. destruct (Htrue Hs) as [Hkeys Hall]. cbn.
        split; [by rewrite Hkeys|by constructor].
      * intros Hs. destruct (Hfalse Hs) as (done & failing & rest & Hkeys & Hcalls).
        exists ((k, it) :: done), failing, rest. cbn. by rewrite Hkeys, Hcalls.
    + intros [= <- <- <-]. split; [econstructor; [exact Hop|constructor]|].
      split; [discriminate|]. intros _.
      by exists [], (k, it), (omap (fun it => (fun values => (set_column_ids ids (mkRow cols values), it))
                      <$> Select sql_table txn it cols) slots).
Qed.

(** C3.  [PopulateIndex] walks the rows of the table visible to the
    transaction in scan order and inserts the key of each ([InsertUnique]
    for a unique index, [Insert] otherwise).  It returns true exactly when
    every insertion it made succeeded, and then it made one insertion per
    visible row.  It returns false at the first insertion the index
    refuses: the keys before it were inserted, the refused one is the last
    call, and no row after it is touched. *)
Theorem PopulateIndex_one_insert_per_visible_row
    txn (sql_table : SqlTable) (index index' : Index Container)
    unique_index success calls :
  PopulateIndex txn sql_table index unique_index = (index', success, calls) ->
  performed unique_index txn (container index) calls (container index')
  /\ (success = true ->
        target <$> calls = visible_keys txn sql_table index
        /\ length calls = length (visible_keys txn sql_table index)
        /\ Forall (fun call => succeeded call = true) calls)
  /\ (success = false ->
        exists done failing rest,
          visible_keys txn sql_table index = done ++ failing :: rest
          /\ calls = (accepted_call <$> done) ++ [refused_call failing])
  /\ (Forall (fun call => succeeded call = true) calls -> success = true).
Proof.
  unfold PopulateIndex.
  destruct (scan _ _ _ _ _ _ _ _) as [[c success0] calls0] eqn:Hscan.
  intros [= <- <- <-]. cbn [container].
  destruct (scan_spec _ _ _ _ _ _ _ _ _ _ _ eq_refl Hscan) as (Hperf & Htrue & Hfalse).
  split; [exact Hperf|]. split; [|split].
  - intros Hs. destruct (Htrue Hs) as [Hkeys Hall]. unfold visible_keys.
    cbn [ColumnIds] in *. rewrite <- Hkeys. by rewrite length_fmap.
  - exact Hfalse.
  - intros Hall. destruct success0; [done|].
    destruct (Hfalse eq_refl) as (done & failing & rest & _ & ->).
    apply Forall_app in Hall as [_ Hlast]. by inversion Hlast.
Qed.

End Populate.

Section Barrier.
Context `{StorageEngine Value SqlTable Container}.
Context (oldest : nat -> timestamp_t).
Implicit Types (s : State SqlTable Container).

(** The state after [n] more calls of [OldestTransactionStartTime]: only
    the poll counter and the history move. *)
Definition polled (n : nat) s : State SqlTable Container :=
  mkState (user_tables s) (pg_attribute s) (pg_index s) (next_oid s) (heap s)
    (index_building_map_ s) (time_ s) (polls s + n)
    (history s ++ ((fun k => OldestEv (oldest k)) <$> seq (polls s) n)).

Lemma polled_0 s : polled 0 s = s.
Proof.
  destruct s. unfold polled; cbn. f_equal; [lia|apply app_nil_r].
Qed.

Lemma polled_S n s :
  polled n (OldestTransactionStartTime oldest s).2 = polled (S n) s.
Proof.
  unfold polled, OldestTransactionStartTime, record; cbn.
  f_equal; [lia|]. by rewrite <- app_assoc.
Qed.

(** The busy-wait: it is left at the first poll that answers at least
    [commit_time]; every poll before answered less. *)
Lemma wait_for_oldest_spec fuel (commit_time : timestamp_t) : forall s,
  match wait_for_oldest oldest fuel commit_time s with
  | inl s' => exists n, n < fuel /\ s' = polled (S n) s
                /\ (forall k, k < n -> (oldest (polls s + k) < commit_time)%N)
                /\ (commit_time <= oldest (polls s + n))%N
  | inr s' => s' = polled fuel s
                /\ forall k, k < fuel -> (oldest (polls s + k) < commit_time)%N
  end.
Proof.
  induction fuel as [|fuel IH]; intros s; cbn [wait_for_oldest].
  - split; [by rewrite polled_0|lia].
  - destruct (OldestTransactionStartTime oldest s) as [observed s1] eqn:Hpoll.
    assert (s1 = (OldestTransactionStartTime oldest s).2) as Hs1 by by rewrite Hpoll.
    assert (observed = oldest (polls s)) as -> by by inversion Hpoll.
    assert (polls s1 = S (polls s)) as Hp by by inversion Hpoll.
    case_bool_decide as Hlt.
    + specialize (IH s1). destruct (wait_for_oldest oldest fuel commit_time s1) as [s'|s'].
      * destruct IH as (n & Hn & -> & Hearly & Hlast). exists (S n).
        split; [lia|]. split; [by rewrite Hs1, polled_S|]. split.
        -- intros [|k] Hk; [by rewrite Nat.add_0_r|].
           replace (polls s + S k) with (polls s1 + k) by lia. apply Hearly. lia.
        -- by replace (polls s + S n) with (polls s1 + n) by lia.
      * destruct IH as (-> & Hearly). split; [by rewrite Hs1, polled_S|].
        intros [|k] Hk; [by rewrite Nat.add_0_r|].
        replace (polls s + S k) with (polls s1 + k) by lia. apply Hearly. lia.
    + exists 0. split; [lia|].
      split; [rewrite <- polled_S, polled_0; exact Hs1|].
      split; [lia|]. rewrite Nat.add_0_r. lia.
Qed.

(** With enough polls allowed the loop is left, provided the workload
    ever lets the oldest start time reach [commit_time]. *)
Lemma wait_for_oldest_leaves (commit_time : timestamp_t) n : forall s,
  (commit_time <= oldest (polls s + n))%N ->
  exists s', wait_for_oldest oldest (S n) commit_time s = inl s'.
Proof.
  induction n as [|n IH]; intros s Hn; cbn [wait_for_oldest].
  - unfold OldestTransactionStartTime. rewrite Nat.add_0_r in Hn.
    rewrite bool_decide_eq_false_2 by lia. eauto.
  - destruct (OldestTransactionStartTime oldest s) as [observed s1] eqn:Hpoll.
    assert (polls s1 = S (polls s)) as Hp by by inversion Hpoll.
    case_bool_decide; [|eauto]. apply IH.
    by replace (polls s1 + n) with (polls s + S n) by lia.
Qed.

(** The answers of the polls in a history. *)
Lemma polled_history n s :
  history (polled n s)
  = history s ++ (OldestEv <$> (oldest <$> seq (polls s) n)).
Proof. unfold polled; cbn. by rewrite <- list_fmap_compose. Qed.

Lemma early_polls_lt (commit_time : timestamp_t) (start n : nat) :
  (forall k, k < n -> (oldest (start + k) < commit_time)%N) ->
  Forall (fun t => (t < commit_time)%N) (oldest <$> seq start n).
Proof.
  intros Hlt. apply Forall_fmap, Forall_seq. intros j Hj. cbn.
  replace j with (start + (j - start)) by lia. apply Hlt. lia.
Qed.

End Barrier.

Section Create.
Context `{StorageEngine Value SqlTable Container} {IndexType : Type}.
Context (oldest : nat -> timestamp_t).
Implicit Types (s : State SqlTable Container).
Implicit Types (db_oid ns_oid table_oid index_oid : N) (unique_index : bool).

Lemma fill_key_schema_ext txn db_oid table_oid key_attrs : forall acc s s',
  pg_attribute s = pg_attribute s' ->
  fill_key_schema txn db_oid table_oid key_attrs acc s
  = fill_key_schema txn db_oid table_oid key_attrs acc s'.
Proof.
  induction key_attrs as [|a key_attrs IH]; intros acc s s' Heq; cbn; [done|].
  unfold GetAttributeEntry. rewrite Heq.
  destruct (pg_attribute s' !! _); [|done]. by apply IH.
Qed.

(** [GetEmptyIndex] answers [nullptr] only for a key attribute that has no
    entry in the attribute catalog. *)
Lemma fill_key_schema_Some txn db_oid table_oid key_attrs s : forall acc,
  Forall (fun a => is_Some (pg_attribute s !! (db_oid, table_oid, a))) key_attrs ->
  is_Some (fill_key_schema txn db_oid table_oid key_attrs acc s).
Proof.
  induction key_attrs as [|a key_attrs IH]; intros acc Hall; cbn; [done|].
  inversion Hall as [|? ? [e He] Hrest]; subst. unfold GetAttributeEntry.
  rewrite He. by apply IH.
Qed.

(** The catalog row the first transaction inserts. *)
Definition first_entry table_oid unique_index (index_attrs key_attrs : list string) s
    : IndexEntry :=
  {| indexptr := fresh (dom (heap s));
     indexrelid := next_oid s;
     indrelid := table_oid;
     indnatts := to_int32 (length index_attrs);
     indnkeyatts := to_int32 (length key_attrs);
     indisunique := unique_index;
     indisprimary := false;
     indisvalid := false;
     indisready := true;
     indislive := false |}.

(** The index object the first transaction builds. *)
Definition first_index unique_index (key_schema : list IndexKeyColumn) s
    : Index Container :=
  mkIndex (next_oid s) (if unique_index then UNIQUE else DEFAULT) key_schema
    empty_container.

(** The calls of the first transaction. *)
Definition first_transaction_events db_oid ns_oid table_oid unique_index
    (index_attrs key_attrs : list string) s : list Event :=
  [BeginEv (mkTxn (time_ s));
   AddEntryEv db_oid (first_entry table_oid unique_index index_attrs key_attrs s);
   SetIndexBuildingFlagEv (make_index_id db_oid ns_oid (next_oid s)) false;
   CommitEv (mkTxn (time_ s)) (time_ s + 1)%N].

(** The state the first transaction commits. *)
Definition after_first_transaction db_oid ns_oid table_oid unique_index
    (index_attrs key_attrs : list string) (key_schema : list IndexKeyColumn) s
    : State SqlTable Container :=
  {| user_tables := user_tables s;
     pg_attribute := pg_attribute s;
     pg_index := <[(db_oid, next_oid s) :=
                     first_entry table_oid unique_index index_attrs key_attrs s]>
                   (pg_index s);
     next_oid := (next_oid s + 1)%N;
     heap := <[fresh (dom (heap s)) := first_index unique_index key_schema s]> (heap s);
     index_building_map_ :=
       <[make_index_id db_oid ns_oid (next_oid s) := false]> (index_building_map_ s);
     time_ := (time_ s + 1 + 1)%N;
     polls := polls s;
     history := history s ++
       first_transaction_events db_oid ns_oid table_oid unique_index
         index_attrs key_attrs s |}.

(** The second transaction, from [BeginTransactionWithAction] on. *)
Definition second_transaction db_oid ns_oid index_oid (sql_table : SqlTable)
    (index : address) unique_index s : outcome SqlTable Container :=
  let index_id := make_index_id db_oid ns_oid index_oid in
  let '(build_txn, s) :=
    BeginTransactionWithAction (SetIndexBuildingFlag index_id true) s in
  let s := SetEntryColumn build_txn db_oid index_oid "indisready" false s in
  match PopulateIndex_at build_txn sql_table index unique_index s with
  | None => Undefined
  | Some (populated, s) =>
      let s := SetEntryColumn build_txn db_oid index_oid "indisvalid" populated s in
      let '(_, s) := Commit build_txn None s in
      Finished s
  end.

(** [CreateConcurrently] on an existing table whose key attributes are in
    the catalog: first transaction, busy-wait, second transaction. *)
Lemma CreateConcurrently_unfold fuel db_oid ns_oid table_oid (index_type : IndexType)
    unique_index name index_attrs key_attrs s sql_table key_schema :
  user_tables s !! (db_oid, ns_oid, table_oid) = Some sql_table ->
  fill_key_schema (mkTxn (time_ s)) db_oid table_oid key_attrs [] s = Some key_schema ->
  CreateConcurrently oldest fuel db_oid ns_oid table_oid index_type unique_index
    name index_attrs key_attrs s
  = match wait_for_oldest oldest fuel (time_ s + 1)
            (after_first_transaction db_oid ns_oid table_oid unique_index
               index_attrs key_attrs key_schema s) with
    | inl s' => second_transaction db_oid ns_oid (next_oid s) sql_table
                  (fresh (dom (heap s))) unique_index s'
    | inr s' => Spinning s'
    end.
Proof.
  intros Htbl Hfill.
  unfold CreateConcurrently, BeginTransaction, GetUserTable, GetNextOid, GetEmptyIndex.
  cbn. rewrite Htbl.
  erewrite fill_key_schema_ext; [rewrite Hfill|reflexivity]. cbn.
  unfold after_first_transaction, first_transaction_events, record. cbn.
  rewrite <- !app_assoc. reflexivity.
Qed.

(** The state the second transaction commits, given the index object. *)
Lemma second_transaction_spec db_oid ns_oid index_oid sql_table index unique_index s object :
  heap s !! index = Some object ->
  let build_txn := mkTxn (time_ s) in
  let result := PopulateIndex build_txn sql_table object unique_index in
  second_transaction db_oid ns_oid index_oid sql_table index unique_index s
  = Finished
      {| user_tables := user_tables s;
         pg_attribute := pg_attribute s;
         pg_index :=
           alter (set_column "indisvalid" result.1.2) (db_oid, index_oid)
             (alter (set_column "indisready" false) (db_oid, index_oid) (pg_index s));
         next_oid := next_oid s;
         heap := <[index := result.1.1]> (heap s);
         index_building_map_ :=
           <[make_index_id db_oid ns_oid index_oid := true]> (index_building_map_ s);
         time_ := (time_ s + 1 + 1)%N;
         polls := polls s;
         history := history s ++
           [BeginWithActionEv build_txn;
            SetIndexBuildingFlagEv (make_index_id db_oid ns_oid index_oid) true;
            SetEntryColumnEv db_oid index_oid "indisready" false;
            SetEntryColumnEv db_oid index_oid "indisvalid" result.1.2;
            CommitEv build_txn (time_ s + 1)%N] |}.
Proof.
  intros Hobj build_txn result.
  unfold second_transaction, BeginTransactionWithAction, PopulateIndex_at. cbn.
  rewrite Hobj. subst result build_txn.
  destruct (PopulateIndex _ sql_table object unique_index) as [[object' success] calls].
  cbn. unfold record; cbn. rewrite <- !app_assoc. reflexivity.
Qed.


(** The busy-wait between the two transactions, started on the state the
    first one commits. *)
Lemma barrier_spec fuel db_oid ns_oid table_oid unique_index index_attrs key_attrs
    key_schema s :
  let s1 := after_first_transaction db_oid ns_oid table_oid unique_index
              index_attrs key_attrs key_schema s in
  match wait_for_oldest oldest fuel (time_ s + 1) s1 with
  | inl s' => exists early observed,
      s' = polled oldest (S (length early)) s1
      /\ oldest <$> seq (polls s) (S (length early)) = early ++ [observed]
      /\ Forall (fun t => (t < time_ s + 1)%N) early
      /\ (time_ s + 1 <= observed)%N
  | inr s' => exists early,
      s' = polled oldest fuel s1
      /\ oldest <$> seq (polls s) fuel = early
      /\ length early = fuel
      /\ Forall (fun t => (t < time_ s + 1)%N) early
  end.
Proof.
  intros s1. pose proof (wait_for_oldest_spec oldest fuel (time_ s + 1) s1) as Hw.
  destruct (wait_for_oldest oldest fuel (time_ s + 1) s1) as [s'|s'].
  - destruct Hw as (n & _ & -> & Hearly & Hlast).
    exists (oldest <$> seq (polls s) n), (oldest (polls s + n)).
    rewrite length_fmap, length_seq. split; [done|].
    split; [by rewrite seq_S, fmap_app|].
    split; [by apply early_polls_lt|done].
  - destruct Hw as (-> & Hearly). exists (oldest <$> seq (polls s) fuel).
    rewrite length_fmap, length_seq. repeat split; [by apply early_polls_lt].
Qed.

(** C1.  On an existing table whose key attributes are catalogued, the
    first transaction of [CreateConcurrently] inserts the index entry with
    indisready=true, indisvalid=false, indisprimary=false, indislive=false
    and indisunique as the caller asked, sets the building flag of the index
    to false and commits.  The coordinator then polls the oldest active
    start timestamp: every answer below the commit timestamp of the first
    transaction keeps it spinning, and the second transaction is begun only
    right after an answer that is at least that timestamp. *)
Theorem CreateConcurrently_first_transaction_then_barrier
    fuel db_oid ns_oid table_oid (index_type : IndexType) unique_index name
    index_attrs key_attrs s sql_table :
  user_tables s !! (db_oid, ns_oid, table_oid) = Some sql_table ->
  Forall (fun a => is_Some (pg_attribute s !! (db_oid, table_oid, a))) key_attrs ->
  let txn1 := {| StartTime := time_ s |} in
  let commit_time := (time_ s + 1)%N in
  let entry := {| indexptr := fresh (dom (heap s));
                  indexrelid := next_oid s;
                  indrelid := table_oid;
                  indnatts := to_int32 (length index_attrs);
                  indnkeyatts := to_int32 (length key_attrs);
                  indisunique := unique_index;
                  indisprimary := false;
                  indisvalid := false;
                  indisready := true;
                  indislive := false |} in
  let first := [BeginEv txn1;
                AddEntryEv db_oid entry;
                SetIndexBuildingFlagEv (make_index_id db_oid ns_oid (next_oid s)) false;
                CommitEv txn1 commit_time] in
  match CreateConcurrently oldest fuel db_oid ns_oid table_oid index_type
          unique_index name index_attrs key_attrs s with
  | Finished s' =>
      exists early observed rest,
        history s' = history s ++ first ++ (OldestEv <$> early)
                       ++ OldestEv observed :: BeginWithActionEv (mkTxn (commit_time + 1))
                       :: rest
        /\ Forall (fun t => (t < commit_time)%N) early
        /\ (commit_time <= observed)%N
  | Spinning s' =>
      exists early,
        history s' = history s ++ first ++ (OldestEv <$> early)
        /\ Forall (fun t => (t < commit_time)%N) early
        /\ length early = fuel
  | Undefined => False
  end.
Proof.
  intros Htbl Hattrs txn1 commit_time entry first.
  destruct (fill_key_schema_Some txn1 db_oid table_oid key_attrs s [] Hattrs)
    as [key_schema Hfill].
  rewrite (CreateConcurrently_unfold _ _ _ _ _ _ _ _ _ _ _ _ Htbl Hfill).
  pose proof (barrier_spec fuel db_oid ns_oid table_oid unique_index index_attrs
                key_attrs key_schema s) as Hw. cbn zeta in Hw.
  destruct (wait_for_oldest _ _ _ _) as [s'|s'].
  - destruct Hw as (early & observed & -> & Hseq & Hlt & Hge).
    erewrite second_transaction_spec; [|by apply lookup_insert_eq].
    exists early, observed. eexists. cbn [history].
    rewrite polled_history. cbn [history polls after_first_transaction].
    rewrite Hseq, fmap_app. cbn.
    split; [|by split].
    rewrite <- !app_assoc. reflexivity.
  - destruct Hw as (early & -> & Hseq & Hlen & Hlt). exists early.
    rewrite polled_history. cbn [history polls after_first_transaction].
    rewrite Hseq. by rewrite <- app_assoc.
Qed.

(** If the workload ever lets the oldest start time reach the commit
    timestamp of the first transaction, the procedure returns once it is
    allowed that many polls. *)
Lemma CreateConcurrently_returns n db_oid ns_oid table_oid (index_type : IndexType)
    unique_index name index_attrs key_attrs s sql_table :
  user_tables s !! (db_oid, ns_oid, table_oid) = Some sql_table ->
  Forall (fun a => is_Some (pg_attribute s !! (db_oid, table_oid, a))) key_attrs ->
  (time_ s + 1 <= oldest (polls s + n))%N ->
  exists s', CreateConcurrently oldest (S n) db_oid ns_oid table_oid index_type
               unique_index name index_attrs key_attrs s = Finished s'.
Proof.
  intros Htbl Hattrs Hn.
  destruct (fill_key_schema_Some (mkTxn (time_ s)) db_oid table_oid key_attrs s []
              Hattrs) as [key_schema Hfill].
  rewrite (CreateConcurrently_unfold _ _ _ _ _ _ _ _ _ _ _ _ Htbl Hfill).
  destruct (wait_for_oldest_leaves oldest (time_ s + 1) n
              (after_first_transaction db_oid ns_oid table_oid unique_index
                 index_attrs key_attrs key_schema s) Hn) as [s' Hw].
  rewrite Hw.
  pose proof (wait_for_oldest_spec oldest (S n) (time_ s + 1)
                (after_first_transaction db_oid ns_oid table_oid unique_index
                   index_attrs key_attrs key_schema s)) as Hspec.
  rewrite Hw in Hspec. destruct Hspec as (m & _ & -> & _).
  erewrite second_transaction_spec; [eauto|by apply lookup_insert_eq].
Qed.

(** While the oldest start time stays below that timestamp the second
    transaction is never begun, however long the coordinator polls. *)
Lemma CreateConcurrently_spins fuel db_oid ns_oid table_oid (index_type : IndexType)
    unique_index name index_attrs key_attrs s sql_table :
  user_tables s !! (db_oid, ns_oid, table_oid) = Some sql_table ->
  Forall (fun a => is_Some (pg_attribute s !! (db_oid, table_oid, a))) key_attrs ->
  (forall k, (oldest k < time_ s + 1)%N) ->
  exists s', CreateConcurrently oldest fuel db_oid ns_oid table_oid index_type
               unique_index name index_attrs key_attrs s = Spinning s'.
Proof.
  intros Htbl Hattrs Hlow.
  destruct (fill_key_schema_Some (mkTxn (time_ s)) db_oid table_oid key_attrs s []
              Hattrs) as [key_schema Hfill].
  rewrite (CreateConcurrently_unfold _ _ _ _ _ _ _ _ _ _ _ _ Htbl Hfill).
  pose proof (wait_for_oldest_spec oldest fuel (time_ s + 1)
                (after_first_transaction db_oid ns_oid table_oid unique_index
                   index_attrs key_attrs key_schema s)) as Hspec.
  destruct (wait_for_oldest _ _ _ _) as [s'|s']; [|eauto].
  destruct Hspec as (m & _ & _ & _ & Hge). specialize (Hlow (polls s + m)).
  cbn [polls after_first_transaction] in Hge. lia.
Qed.

Lemma set_column_indisready value (e : IndexEntry) :
  set_column "indisready" value e
  = mkIndexEntry (indexptr e) (indexrelid e) (indrelid e) (indnatts e)
      (indnkeyatts e) (indisunique e) (indisprimary e) (indisvalid e) value
      (indislive e).
Proof. reflexivity. Qed.

Lemma set_column_indisvalid value (e : IndexEntry) :
  set_column "indisvalid" value e
  = mkIndexEntry (indexptr e) (indexrelid e) (indrelid e) (indnatts e)
      (indnkeyatts e) (indisunique e) (indisprimary e) value (indisready e)
      (indislive e).
Proof. reflexivity. Qed.

(** Everything [CreateConcurrently] leaves behind when it returns after
    both transactions. *)
Lemma CreateConcurrently_Finished_inv fuel db_oid ns_oid table_oid
    (index_type : IndexType) unique_index name index_attrs key_attrs s s'
    sql_table key_schema :
  user_tables s !! (db_oid, ns_oid, table_oid) = Some sql_table ->
  fill_key_schema (mkTxn (time_ s)) db_oid table_oid key_attrs [] s = Some key_schema ->
  CreateConcurrently oldest fuel db_oid ns_oid table_oid index_type unique_index
    name index_attrs key_attrs s = Finished s' ->
  let result := PopulateIndex (mkTxn (time_ s + 1 + 1)) sql_table
                  (first_index unique_index key_schema s) unique_index in
  pg_index s' !! (db_oid, next_oid s)
  = Some (set_column "indisvalid" result.1.2
            (set_column "indisready" false
               (first_entry table_oid unique_index index_attrs key_attrs s)))
  /\ heap s' !! fresh (dom (heap s)) = Some result.1.1
  /\ index_building_map_ s' !! make_index_id db_oid ns_oid (next_oid s) = Some true.
Proof.
  intros Htbl Hfill.
  rewrite (CreateConcurrently_unfold _ _ _ _ _ _ _ _ _ _ _ _ Htbl Hfill).
  pose proof (wait_for_oldest_spec oldest fuel (time_ s + 1)
                (after_first_transaction db_oid ns_oid table_oid unique_index
                   index_attrs key_attrs key_schema s)) as Hspec.
  destruct (wait_for_oldest _ _ _ _) as [s0|s0]; [|discriminate].
  destruct Hspec as (m & _ & -> & _).
  erewrite second_transaction_spec; [|by apply lookup_insert_eq].
  intros [= <-]. cbn -[set_column].
  rewrite !lookup_alter_eq, !lookup_insert_eq. done.
Qed.

(** C2 (as the code has it).  Once the workload lets the busy-wait end,
    [CreateConcurrently] returns, and whenever it returns after its second
    transaction has committed, the entry of the index has indisready=false
    and indisvalid equal to what [PopulateIndex] returned for the scan of
    the base table by that transaction, and the building flag of the index
    is true: the begin action of the second transaction set it and both
    commits are given no callback. *)
Theorem CreateConcurrently_second_commit
    db_oid ns_oid table_oid (index_type : IndexType) unique_index name
    index_attrs key_attrs s sql_table :
  user_tables s !! (db_oid, ns_oid, table_oid) = Some sql_table ->
  Forall (fun a => is_Some (pg_attribute s !! (db_oid, table_oid, a))) key_attrs ->
  (forall n, (time_ s + 1 <= oldest (polls s + n))%N ->
     exists s', CreateConcurrently oldest (S n) db_oid ns_oid table_oid index_type
                  unique_index name index_attrs key_attrs s = Finished s')
  /\ (forall fuel s',
        CreateConcurrently oldest fuel db_oid ns_oid table_oid index_type
          unique_index name index_attrs key_attrs s = Finished s' ->
        exists key_schema entry,
          fill_key_schema (mkTxn (time_ s)) db_oid table_oid key_attrs [] s
          = Some key_schema
          /\ pg_index s' !! (db_oid, next_oid s) = Some entry
          /\ indisready entry = false
          /\ indisvalid entry
             = (PopulateIndex (mkTxn (time_ s + 2)) sql_table
                  (mkIndex (next_oid s) (if unique_index then UNIQUE else DEFAULT)
                     key_schema empty_container) unique_index).1.2
          /\ indisunique entry = unique_index
          /\ indisprimary entry = false
          /\ indislive entry = false
          /\ index_building_map_ s' !! make_index_id db_oid ns_oid (next_oid s)
             = Some true).
Proof.
  intros Htbl Hattrs. split.
  { intros n Hn. by eapply CreateConcurrently_returns. }
  intros fuel s' Hrun.
  destruct (fill_key_schema_Some (mkTxn (time_ s)) db_oid table_oid key_attrs s []
              Hattrs) as [key_schema Hfill].
  destruct (CreateConcurrently_Finished_inv _ _ _ _ _ _ _ _ _ _ _ _ _
              Htbl Hfill Hrun) as (Hentry & _ & Hflag).
  exists key_schema. eexists. split; [exact Hfill|]. split; [exact Hentry|].
  rewrite set_column_indisvalid, set_column_indisready. cbn.
  replace (time_ s + 2)%N with (time_ s + 1 + 1)%N by lia.
  by repeat split.
Qed.

(** What an aborted run leaves: the clock has ticked and the history has
    the begin and the abort. *)
Definition aborted s : State SqlTable Container :=
  {| user_tables := user_tables s;
     pg_attribute := pg_attribute s;
     pg_index := pg_index s;
     next_oid := next_oid s;
     heap := heap s;
     index_building_map_ := index_building_map_ s;
     time_ := (time_ s + 1)%N;
     polls := polls s;
     history := history s ++ [BeginEv (mkTxn (time_ s)); AbortEv (mkTxn (time_ s))] |}.

(** C4.  When the user table is not in the catalog, [CreateConcurrently]
    and [Drop] begin a transaction, abort it and return: the index catalog,
    the index objects on the heap, the building flags and the oid counter
    are what they were, and nothing but the begin and the abort was asked of
    the collaborators. *)
Theorem missing_user_table_aborts
    fuel db_oid ns_oid table_oid (index_type : IndexType) unique_index index_oid
    name index_attrs key_attrs s :
  user_tables s !! (db_oid, ns_oid, table_oid) = None ->
  exists s',
    CreateConcurrently oldest fuel db_oid ns_oid table_oid index_type unique_index
      name index_attrs key_attrs s = Finished s'
    /\ Drop oldest fuel db_oid ns_oid table_oid index_oid name s = Finished s'
    /\ pg_index s' = pg_index s
    /\ heap s' = heap s
    /\ index_building_map_ s' = index_building_map_ s
    /\ next_oid s' = next_oid s
    /\ user_tables s' = user_tables s
    /\ pg_attribute s' = pg_attribute s
    /\ history s' = history s ++ [BeginEv (mkTxn (time_ s)); AbortEv (mkTxn (time_ s))].
Proof.
  intros Hmissing. exists (aborted s).
  unfold CreateConcurrently, Drop, BeginTransaction, GetUserTable, Abort. cbn.
  rewrite Hmissing. unfold record, aborted; cbn. rewrite <- !app_assoc.
  by repeat split.
Qed.

End Create.

(** The unique index over column "a" of the toy table, still empty. *)
Definition toy_index : Index (list (list Z * TupleSlot)) :=
  mkIndex 50 UNIQUE [mkIndexKeyColumn 0 INTEGER false (Some 4%Z)] [].

Definition toy_key (v : Z) : ProjectedRow Z := mkRow [1%N] [v].

Lemma PopulateIndex_one_insert_per_visible_row_witness :
  let index' := mkIndex 50 UNIQUE [mkIndexKeyColumn 0 INTEGER false (Some 4%Z)]
                  [([5%Z], 100%N); ([6%Z], 101%N)] in
  let calls := [mkInsertCall (toy_key 5) 100%N true;
                mkInsertCall (toy_key 6) 101%N true;
                mkInsertCall (toy_key 5) 102%N false] in
  PopulateIndex (mkTxn 12) toy_table toy_index true = (index', false, calls)
  /\ performed true (mkTxn 12) (container toy_index) calls (container index')
  /\ (false = true ->
        target <$> calls = visible_keys (mkTxn 12) toy_table toy_index
        /\ length calls = length (visible_keys (mkTxn 12) toy_table toy_index)
        /\ Forall (fun call => succeeded call = true) calls)
  /\ (false = false ->
        exists done failing rest,
          visible_keys (mkTxn 12) toy_table toy_index = done ++ failing :: rest
          /\ calls = (accepted_call <$> done) ++ [refused_call failing])
  /\ (Forall (fun call => succeeded call = true) calls -> false = true).
Proof.
  intros index' calls. split; [vm_compute; reflexivity|].
  apply (PopulateIndex_one_insert_per_visible_row
           (mkTxn 12) toy_table toy_index index' true false calls).
  vm_compute; reflexivity.
Defined.

(** The same table under a plain index: every visible row is inserted. *)
Example PopulateIndex_plain_index :
  let '(index', success, calls) :=
    PopulateIndex (mkTxn 12) toy_table
      (mkIndex 50 DEFAULT [mkIndexKeyColumn 0 INTEGER false (Some 4%Z)] []) false in
  success = true
  /\ container index' = [([5%Z], 100%N); ([6%Z], 101%N); ([5%Z], 102%N)]
  /\ length calls = 3.
Proof. vm_compute. done. Qed.

(** A transaction that started before the tuples became visible inserts
    nothing and reports success. *)
Example PopulateIndex_nothing_visible :
  PopulateIndex (mkTxn 3)
    [mkTuple 100 5 [5; 1]; mkTuple 101 7 [6; 2]]%Z toy_index true
  = (toy_index, true, []).
Proof. vm_compute. reflexivity. Qed.

(** ** The coordinator on the toy catalog *)

Lemma toy_table_present : user_tables toy_state !! (1, 2, 3)%N = Some toy_table.
Proof. reflexivity. Qed.

Lemma toy_attribute_present :
  Forall (fun a => is_Some (pg_attribute toy_state !! (1%N, 3%N, a))) ["a"].
Proof. repeat constructor. by eexists. Qed.

Lemma toy_key_schema :
  fill_key_schema (mkTxn (time_ toy_state)) 1 3 ["a"] [] toy_state
  = Some [mkIndexKeyColumn 0 INTEGER false (Some 4%Z)].
Proof. reflexivity. Qed.

(** The entry CREATE UNIQUE INDEX on column "a" inserts first. *)
Definition toy_entry : IndexEntry :=
  {| indexptr := fresh (dom (heap toy_state));
     indexrelid := 50;
     indrelid := 3;
     indnatts := 1;
     indnkeyatts := 1;
     indisunique := true;
     indisprimary := false;
     indisvalid := false;
     indisready := true;
     indislive := false |}.

Lemma CreateConcurrently_first_transaction_then_barrier_witness :
  user_tables toy_state !! (1, 2, 3)%N = Some toy_table
  /\ Forall (fun a => is_Some (pg_attribute toy_state !! (1%N, 3%N, a))) ["a"]
  /\ let txn1 := {| StartTime := time_ toy_state |} in
     let commit_time := (time_ toy_state + 1)%N in
     let entry := {| indexptr := fresh (dom (heap toy_state));
                     indexrelid := next_oid toy_state;
                     indrelid := 3;
                     indnatts := to_int32 (length ["a"]);
                     indnkeyatts := to_int32 (length ["a"]);
                     indisunique := true;
                     indisprimary := false;
                     indisvalid := false;
                     indisready := true;
                     indislive := false |} in
     let first := [BeginEv txn1;
                   AddEntryEv 1 entry;
                   SetIndexBuildingFlagEv (make_index_id 1 2 (next_oid toy_state)) false;
                   CommitEv txn1 commit_time] in
     match CreateConcurrently toy_oldest 5 1 2 3 tt true "idx" ["a"] ["a"] toy_state with
     | Finished s' =>
         exists early observed rest,
           history s' = history toy_state ++ first ++ (OldestEv <$> early)
                          ++ OldestEv observed
                          :: BeginWithActionEv (mkTxn (commit_time + 1)) :: rest
           /\ Forall (fun t => (t < commit_time)%N) early
           /\ (commit_time <= observed)%N
     | Spinning s' =>
         exists early,
           history s' = history toy_state ++ first ++ (OldestEv <$> early)
           /\ Forall (fun t => (t < commit_time)%N) early
           /\ length early = 5
     | Undefined => False
     end.
Proof.
  split; [exact toy_table_present|]. split; [exact toy_attribute_present|].
  pose proof (CreateConcurrently_first_transaction_then_barrier toy_oldest
                5 1%N 2%N 3%N tt true "idx" ["a"] ["a"] toy_state toy_table
                toy_table_present toy_attribute_present) as Hrun.
  exact Hrun.
Defined.

(** The run itself: two polls answer 9, the third answers 12, and only
    then is the second transaction begun. *)
Example CreateConcurrently_toy_history :
  match CreateConcurrently toy_oldest 5 1 2 3 tt true "idx" ["a"] ["a"] toy_state with
  | Finished s' =>
      history s' =
        [BeginEv (mkTxn 10); AddEntryEv 1 toy_entry;
         SetIndexBuildingFlagEv (1, 2, 50)%N false; CommitEv (mkTxn 10) 11;
         OldestEv 9; OldestEv 9; OldestEv 12;
         BeginWithActionEv (mkTxn 12); SetIndexBuildingFlagEv (1, 2, 50)%N true;
         SetEntryColumnEv 1 50 "indisready" false;
         SetEntryColumnEv 1 50 "indisvalid" false;
         CommitEv (mkTxn 12) 13]
  | _ => False
  end.
Proof. vm_compute. reflexivity. Qed.

(** Under a workload that never advances, the coordinator is still in its
    busy-wait after any number of polls. *)
Example CreateConcurrently_toy_spins (fuel : nat) :
  exists s', CreateConcurrently stuck_oldest fuel 1 2 3 tt true "idx" ["a"] ["a"]
               toy_state = Spinning s'.
Proof.
  apply (CreateConcurrently_spins stuck_oldest fuel 1%N 2%N 3%N tt true "idx"
           ["a"] ["a"] toy_state toy_table toy_table_present toy_attribute_present).
  intros k. unfold stuck_oldest. cbn. lia.
Qed.

Lemma CreateConcurrently_second_commit_witness :
  user_tables toy_state !! (1, 2, 3)%N = Some toy_table
  /\ Forall (fun a => is_Some (pg_attribute toy_state !! (1%N, 3%N, a))) ["a"]
  /\ (forall n, (time_ toy_state + 1 <= toy_oldest (polls toy_state + n))%N ->
       exists s', CreateConcurrently toy_oldest (S n) 1 2 3 tt true "idx" ["a"] ["a"]
                    toy_state = Finished s')
  /\ (forall fuel s',
        CreateConcurrently toy_oldest fuel 1 2 3 tt true "idx" ["a"] ["a"] toy_state
        = Finished s' ->
        exists key_schema entry,
          fill_key_schema (mkTxn (time_ toy_state)) 1 3 ["a"] [] toy_state
          = Some key_schema
          /\ pg_index s' !! (1%N, next_oid toy_state) = Some entry
          /\ indisready entry = false
          /\ indisvalid entry
             = (PopulateIndex (mkTxn (time_ toy_state + 2)) toy_table
                  (mkIndex (next_oid toy_state) (if true then UNIQUE else DEFAULT)
                     key_schema empty_container) true).1.2
          /\ indisunique entry = true
          /\ indisprimary entry = false
          /\ indislive entry = false
          /\ index_building_map_ s' !! make_index_id 1 2 (next_oid toy_state)
             = Some true).
Proof.
  split; [exact toy_table_present|]. split; [exact toy_attribute_present|].
  pose proof (CreateConcurrently_second_commit toy_oldest 1%N 2%N 3%N tt true
                "idx" ["a"] ["a"] toy_state toy_table toy_table_present
                toy_attribute_present) as Hcommit.
  exact Hcommit.
Defined.

(** C2 as the specification states it fails: after the second commit of
    the run on the toy catalog the building flag of index 50 is not false. *)
Lemma building_flag_not_reset :
  ~ (forall s',
       CreateConcurrently toy_oldest 5 1 2 3 tt true "idx" ["a"] ["a"] toy_state
       = Finished s' ->
       index_building_map_ s' !! make_index_id 1 2 50 = Some false).
Proof.
  intros Hclaim.
  destruct (CreateConcurrently_returns toy_oldest 4 1%N 2%N 3%N tt true "idx"
              ["a"] ["a"] toy_state toy_table toy_table_present
              toy_attribute_present) as [s' Hrun]; [vm_compute; discriminate|].
  specialize (Hclaim s' Hrun).
  pose proof (CreateConcurrently_Finished_inv toy_oldest 5 1%N 2%N 3%N tt true
                "idx" ["a"] ["a"] toy_state s' toy_table _ toy_table_present
                toy_key_schema Hrun) as Hinv.
  destruct Hinv as (_ & _ & Hflag).
  change (next_oid toy_state) with 50%N in Hflag.
  rewrite Hflag in Hclaim. discriminate Hclaim.
Qed.

(** The final catalog row and flag of that run: the scan met the repeated
    key 5, so the index is left invalid. *)
Example CreateConcurrently_toy_final :
  match CreateConcurrently toy_oldest 5 1 2 3 tt true "idx" ["a"] ["a"] toy_state with
  | Finished s' =>
      (indisready <$> pg_index s' !! (1, 50)%N) = Some false
      /\ (indisvalid <$> pg_index s' !! (1, 50)%N) = Some false
      /\ index_building_map_ s' !! (1, 2, 50)%N = Some true
  | _ => False
  end.
Proof. vm_compute. done. Qed.

Lemma missing_user_table_aborts_witness :
  user_tables toy_state !! (1, 2, 4)%N = None
  /\ exists s',
       CreateConcurrently toy_oldest 5 1 2 4 tt true "idx" ["a"] ["a"] toy_state
       = Finished s'
       /\ Drop toy_oldest 5 1 2 4 50 "idx" toy_state = Finished s'
       /\ pg_index s' = pg_index toy_state
       /\ heap s' = heap toy_state
       /\ index_building_map_ s' = index_building_map_ toy_state
       /\ next_oid s' = next_oid toy_state
       /\ user_tables s' = user_tables toy_state
       /\ pg_attribute s' = pg_attribute toy_state
       /\ history s' = history toy_state ++ [BeginEv (mkTxn (time_ toy_state));
                                              AbortEv (mkTxn (time_ toy_state))].
Proof.
  split; [reflexivity|].
  apply (missing_user_table_aborts toy_oldest 5 1%N 2%N 4%N tt true 50%N "idx"
           ["a"] ["a"] toy_state).
  reflexivity.
Defined.

End IndexManagerFacts.

Module CoordinatorFacts.
Import IndexManager IndexManagerFacts.

Section Runs.
Context `{StorageEngine Value SqlTable Container} {IndexType : Type}.
Context (oldest : nat -> timestamp_t).
Implicit Types (s : State SqlTable Container).
Implicit Types (db_oid ns_oid table_oid index_oid : N) (unique_index : bool).

(** A key attribute without a catalog entry stops the loop of
    [GetEmptyIndex]. *)
Lemma fill_key_schema_None txn db_oid table_oid key_attrs s : forall acc,
  Exists (fun a => pg_attribute s !! (db_oid, table_oid, a) = None) key_attrs ->
  fill_key_schema txn db_oid table_oid key_attrs acc s = None.
Proof.
  induction key_attrs as [|a key_attrs IH]; intros acc Hex; [by inversion Hex|].
  cbn. unfold GetAttributeEntry.
  destruct (pg_attribute s !! (db_oid, table_oid, a)) as [e|] eqn:He; [|done].
  apply IH. inversion Hex; subst; [congruence|done].
Qed.

(** The column [GetEmptyIndex] makes of one attribute entry. *)
Definition key_column (entry : AttributeEntry) : IndexKeyColumn :=
  if bool_decide (GetTypeSize (atttypid entry) = VARLEN_COLUMN) then
    mkIndexKeyColumn (att_oid entry) (atttypid entry) (ColumnIsNull entry) None
  else
    mkIndexKeyColumn (att_oid entry) (atttypid entry) (ColumnIsNull entry)
      (Some (attlen entry)).

Lemma fill_key_schema_columns txn db_oid table_oid key_attrs s : forall acc key_schema,
  fill_key_schema txn db_oid table_oid key_attrs acc s = Some key_schema ->
  exists entries,
    Forall2 (fun a e => pg_attribute s !! (db_oid, table_oid, a) = Some e)
      key_attrs entries
    /\ key_schema = acc ++ (key_column <$> entries).
Proof.
  induction key_attrs as [|a key_attrs IH]; intros acc key_schema; cbn.
  - intros [= <-]. exists []. split; [constructor|by rewrite app_nil_r].
  - unfold GetAttributeEntry.
    destruct (pg_attribute s !! (db_oid, table_oid, a)) as [e|] eqn:He; [|done].
    intros Hfill. destruct (IH _ _ Hfill) as (entries & Hall & ->).
    exists (e :: entries). split; [by constructor|].
    rewrite <- app_assoc. reflexivity.
Qed.


(** X1.  [GetEmptyIndex] answers [nullptr] exactly when a key attribute has no
    entry in the attribute catalog, and then allocates nothing.  Otherwise
    it allocates one fresh, empty index object whose key schema has one
    column per key attribute, in order, built from the catalog entry of that
    attribute, and whose constraint is UNIQUE exactly for a unique index. *)
Theorem GetEmptyIndex_spec txn db_oid table_oid index_oid unique_index
    (key_attrs : list string) s :
  match GetEmptyIndex txn db_oid table_oid index_oid unique_index key_attrs s with
  | None =>
      Exists (fun a => pg_attribute s !! (db_oid, table_oid, a) = None) key_attrs
  | Some (a, s') =>
      heap s !! a = None
      /\ exists entries,
           Forall2 (fun k e => pg_attribute s !! (db_oid, table_oid, k) = Some e)
             key_attrs entries
           /\ heap s' = <[a := {| index_oid_ := index_oid;
                                  constraint_ := if unique_index then UNIQUE else DEFAULT;
                                  GetKeySchema := key_column <$> entries;
                                  container := empty_container |}]> (heap s)
           /\ pg_index s' = pg_index s
           /\ next_oid s' = next_oid s
           /\ history s' = history s
  end.
Proof.
  unfold GetEmptyIndex.
  destruct (fill_key_schema txn db_oid table_oid key_attrs [] s) as [key_schema|] eqn:Hfill.
  - split; [apply not_elem_of_dom, is_fresh|].
    destruct (fill_key_schema_columns _ _ _ _ _ _ _ Hfill) as (entries & Hall & ->).
    exists entries. by repeat split.
  - destruct (decide (Exists (fun a => pg_attribute s !! (db_oid, table_oid, a) = None)
                        key_attrs)) as [Hex|Hnex]; [done|].
    apply not_Exists_Forall in Hnex; [|solve_decision].
    assert (Forall (fun a => is_Some (pg_attribute s !! (db_oid, table_oid, a)))
              key_attrs) as Hall.
    { eapply Forall_impl; [exact Hnex|]. intros a Ha. cbn in Ha.
      destruct (pg_attribute s !! (db_oid, table_oid, a)); [by eexists|done]. }
    destruct (fill_key_schema_Some txn db_oid table_oid key_attrs s [] Hall) as [? Hs].
    congruence.
Qed.

(** X2.  When the table exists but a key attribute is not catalogued,
    [CreateConcurrently] aborts its first transaction and returns: no entry,
    no index object and no building flag is added, and the only trace left
    is the oid that [GetNextOid] had already handed out. *)
Theorem CreateConcurrently_missing_key_attribute
    fuel db_oid ns_oid table_oid (index_type : IndexType) unique_index name
    index_attrs key_attrs s sql_table :
  user_tables s !! (db_oid, ns_oid, table_oid) = Some sql_table ->
  Exists (fun a => pg_attribute s !! (db_oid, table_oid, a) = None) key_attrs ->
  exists s',
    CreateConcurrently oldest fuel db_oid ns_oid table_oid index_type unique_index
      name index_attrs key_attrs s = Finished s'
    /\ pg_index s' = pg_index s
    /\ heap s' = heap s
    /\ index_building_map_ s' = index_building_map_ s
    /\ next_oid s' = (next_oid s + 1)%N
    /\ history s' = history s ++ [BeginEv (mkTxn (time_ s)); AbortEv (mkTxn (time_ s))].
Proof.
  intros Htbl Hex.
  unfold CreateConcurrently, BeginTransaction, GetUserTable, GetNextOid, GetEmptyIndex.
  cbn. rewrite Htbl.
  erewrite fill_key_schema_ext; [rewrite (fill_key_schema_None _ _ _ _ s [] Hex)|reflexivity].
  eexists. split; [reflexivity|]. unfold Abort, record; cbn.
  rewrite <- !app_assoc. by repeat split.
Qed.

(** The state [CreateConcurrently] returns in after both transactions,
    [m] being the number of polls that kept it waiting. *)
Definition built db_oid ns_oid table_oid unique_index
    (index_attrs key_attrs : list string) (key_schema : list IndexKeyColumn)
    (sql_table : SqlTable) (m : nat) s : State SqlTable Container :=
  let result := PopulateIndex (mkTxn (time_ s + 1 + 1)) sql_table
                  (first_index unique_index key_schema s) unique_index in
  {| user_tables := user_tables s;
     pg_attribute := pg_attribute s;
     pg_index :=
       <[(db_oid, next_oid s) :=
           set_column "indisvalid" result.1.2
             (set_column "indisready" false
                (first_entry table_oid unique_index index_attrs key_attrs s))]>
         (pg_index s);
     next_oid := (next_oid s + 1)%N;
     heap := <[fresh (dom (heap s)) := result.1.1]> (heap s);
     index_building_map_ :=
       <[make_index_id db_oid ns_oid (next_oid s) := true]> (index_building_map_ s);
     time_ := (time_ s + 1 + 1 + 1 + 1)%N;
     polls := polls s + S m;
     history := history (polled oldest (S m)
                  (after_first_transaction db_oid ns_oid table_oid unique_index
                     index_attrs key_attrs key_schema s)) ++
       [BeginWithActionEv (mkTxn (time_ s + 1 + 1));
        SetIndexBuildingFlagEv (make_index_id db_oid ns_oid (next_oid s)) true;
        SetEntryColumnEv db_oid (next_oid s) "indisready" false;
        SetEntryColumnEv db_oid (next_oid s) "indisvalid" result.1.2;
        CommitEv (mkTxn (time_ s + 1 + 1)) (time_ s + 1 + 1 + 1)%N] |}.

Lemma CreateConcurrently_Finished_built fuel db_oid ns_oid table_oid
    (index_type : IndexType) unique_index name index_attrs key_attrs s s'
    sql_table key_schema :
  user_tables s !! (db_oid, ns_oid, table_oid) = Some sql_table ->
  fill_key_schema (mkTxn (time_ s)) db_oid table_oid key_attrs [] s = Some key_schema ->
  CreateConcurrently oldest fuel db_oid ns_oid table_oid index_type unique_index
    name index_attrs key_attrs s = Finished s' ->
  exists m, s' = built db_oid ns_oid table_oid unique_index index_attrs key_attrs
                   key_schema sql_table m s.
Proof.
  intros Htbl Hfill.
  rewrite (CreateConcurrently_unfold oldest fuel db_oid ns_oid table_oid index_type
             unique_index name index_attrs key_attrs s sql_table key_schema
             Htbl Hfill).
  pose proof (wait_for_oldest_spec oldest fuel (time_ s + 1)
                (after_first_transaction db_oid ns_oid table_oid unique_index
                   index_attrs key_attrs key_schema s)) as Hspec.
  destruct (wait_for_oldest _ _ _ _) as [s0|s0]; [|discriminate].
  destruct Hspec as (m & _ & -> & _).
  erewrite second_transaction_spec; [|by apply lookup_insert_eq].
  intros [= <-]. exists m. unfold built. cbn -[set_column polled].
  f_equal.
  - apply map_eq. intros k. destruct (decide (k = (db_oid, next_oid s))) as [->|Hk].
    + by rewrite !lookup_alter_eq, !lookup_insert_eq.
    + by rewrite !lookup_alter_ne, !lookup_insert_ne.
  - by rewrite insert_insert_eq.
  - by rewrite insert_insert_eq.
Qed.


(** [PopulateIndex] keeps the metadata of the index; its insertions were
    really made on the container; a true result covers every visible row. *)
Lemma PopulateIndex_inv txn (sql_table : SqlTable) (index : Index Container) unique_index :
  let result := PopulateIndex txn sql_table index unique_index in
  index_oid_ result.1.1 = index_oid_ index
  /\ constraint_ result.1.1 = constraint_ index
  /\ GetKeySchema result.1.1 = GetKeySchema index
  /\ performed unique_index txn (container index) result.2 (container result.1.1)
  /\ (result.1.2 = true ->
        target <$> result.2 = visible_keys txn sql_table index
        /\ Forall (fun call => succeeded call = true) result.2).
Proof.
  unfold PopulateIndex.
  destruct (scan _ _ _ _ _ _ _ _) as [[c success] calls] eqn:Hscan. cbn.
  destruct (scan_spec _ _ _ _ _ _ _ _ _ _ _ eq_refl Hscan) as (Hperf & Htrue & _).
  by repeat split; try apply Htrue.
Qed.

(** X3.  [CreateConcurrently] touches one key of each map.  When it returns
    after both transactions, every other entry of the index catalog, every
    other index object and every other building flag is what it was; the
    address of the new index object was not in use; the user tables and the
    attribute catalog are unchanged; exactly one oid and four timestamps
    were consumed. *)
Theorem CreateConcurrently_frame
    fuel db_oid ns_oid table_oid (index_type : IndexType) unique_index name
    index_attrs key_attrs s s' sql_table :
  user_tables s !! (db_oid, ns_oid, table_oid) = Some sql_table ->
  Forall (fun a => is_Some (pg_attribute s !! (db_oid, table_oid, a))) key_attrs ->
  CreateConcurrently oldest fuel db_oid ns_oid table_oid index_type unique_index
    name index_attrs key_attrs s = Finished s' ->
  (forall k, k <> (db_oid, next_oid s) -> pg_index s' !! k = pg_index s !! k)
  /\ (exists a, heap s !! a = None
                /\ forall a', a' <> a -> heap s' !! a' = heap s !! a')
  /\ (forall id, id <> make_index_id db_oid ns_oid (next_oid s) ->
        index_building_map_ s' !! id = index_building_map_ s !! id)
  /\ user_tables s' = user_tables s
  /\ pg_attribute s' = pg_attribute s
  /\ next_oid s' = (next_oid s + 1)%N
  /\ time_ s' = (time_ s + 4)%N.
Proof.
  intros Htbl Hattrs Hrun.
  destruct (fill_key_schema_Some (mkTxn (time_ s)) db_oid table_oid key_attrs s []
              Hattrs) as [key_schema Hfill].
  destruct (CreateConcurrently_Finished_built fuel db_oid ns_oid table_oid index_type
              unique_index name index_attrs key_attrs s s' sql_table key_schema
              Htbl Hfill Hrun) as [m ->].
  unfold built. cbn -[set_column polled PopulateIndex].
  split; [intros k Hk; by rewrite lookup_insert_ne|].
  split.
  { exists (fresh (dom (heap s))). split; [apply not_elem_of_dom, is_fresh|].
    intros a' Ha'. by rewrite lookup_insert_ne. }
  split; [intros id Hid; by rewrite lookup_insert_ne|].
  repeat split. lia.
Qed.

(** X4.  The entry [CreateConcurrently] leaves points at the index it built:
    [indexptr] is the address of an index object on the heap that carries
    the oid of the entry, is UNIQUE exactly when the entry says so and has
    one key column per key attribute.  If the entry is marked valid, the
    container of that object was filled, from empty, by exactly one
    successful insertion per row of the table visible to the second
    transaction. *)
Theorem CreateConcurrently_entry_points_to_index
    fuel db_oid ns_oid table_oid (index_type : IndexType) unique_index name
    index_attrs key_attrs s s' sql_table :
  user_tables s !! (db_oid, ns_oid, table_oid) = Some sql_table ->
  Forall (fun a => is_Some (pg_attribute s !! (db_oid, table_oid, a))) key_attrs ->
  CreateConcurrently oldest fuel db_oid ns_oid table_oid index_type unique_index
    name index_attrs key_attrs s = Finished s' ->
  exists entry index,
    pg_index s' !! (db_oid, next_oid s) = Some entry
    /\ heap s' !! indexptr entry = Some index
    /\ indexrelid entry = next_oid s
    /\ indrelid entry = table_oid
    /\ index_oid_ index = indexrelid entry
    /\ (constraint_ index = UNIQUE <-> indisunique entry = true)
    /\ length (GetKeySchema index) = length key_attrs
    /\ (indisvalid entry = true ->
          exists calls,
            performed unique_index (mkTxn (time_ s + 2)) empty_container calls
              (container index)
            /\ Forall (fun call => succeeded call = true) calls
            /\ target <$> calls
               = visible_keys (mkTxn (time_ s + 2)) sql_table
                   (mkIndex (next_oid s) (if unique_index then UNIQUE else DEFAULT)
                      (GetKeySchema index) empty_container)).
Proof.
  intros Htbl Hattrs Hrun.
  destruct (fill_key_schema_Some (mkTxn (time_ s)) db_oid table_oid key_attrs s []
              Hattrs) as [key_schema Hfill].
  destruct (CreateConcurrently_Finished_built fuel db_oid ns_oid table_oid index_type
              unique_index name index_attrs key_attrs s s' sql_table key_schema
              Htbl Hfill Hrun) as [m ->].
  destruct (fill_key_schema_columns _ _ _ _ _ _ _ Hfill) as (entries & Hall & Hks).
  pose proof (PopulateIndex_inv (mkTxn (time_ s + 1 + 1)) sql_table
                (first_index unique_index key_schema s) unique_index) as Hinv.
  cbn zeta in Hinv. destruct Hinv as (Hoid & Hcon & Hschema & Hperf & Hvalid).
  eexists _, _. unfold built. cbn -[set_column polled PopulateIndex].
  rewrite !lookup_insert_eq. split; [reflexivity|].
  rewrite set_column_indisvalid, set_column_indisready.
  cbn -[PopulateIndex]. rewrite lookup_insert_eq. split; [reflexivity|].
  split; [reflexivity|]. split; [reflexivity|].
  split; [by rewrite Hoid|]. split.
  { rewrite Hcon. cbn. by destruct unique_index. }
  split.
  { rewrite Hschema. cbn. rewrite Hks. cbn. rewrite length_fmap.
    symmetry. by eapply Forall2_length. }
  intros Hv. destruct (Hvalid Hv) as [Hkeys Hsucc].
  replace (time_ s + 2)%N with (time_ s + 1 + 1)%N by lia.
  eexists. split; [exact Hperf|]. split; [exact Hsucc|].
  rewrite Hkeys, Hschema. reflexivity.
Qed.

(** The state [Drop] commits: the entry is gone, the clock has ticked
    twice. *)
Definition after_delete db_oid (entry : IndexEntry) s : State SqlTable Container :=
  {| user_tables := user_tables s;
     pg_attribute := pg_attribute s;
     pg_index := delete (db_oid, indexrelid entry) (pg_index s);
     next_oid := next_oid s;
     heap := heap s;
     index_building_map_ := index_building_map_ s;
     time_ := (time_ s + 1 + 1)%N;
     polls := polls s;
     history := history s ++
       [BeginEv (mkTxn (time_ s)); DeleteEntryEv db_oid (indexrelid entry);
        CommitEv (mkTxn (time_ s)) (time_ s + 1)%N] |}.

Lemma Drop_unfold fuel db_oid ns_oid table_oid index_oid name s sql_table entry :
  user_tables s !! (db_oid, ns_oid, table_oid) = Some sql_table ->
  pg_index s !! (db_oid, index_oid) = Some entry ->
  Drop oldest fuel db_oid ns_oid table_oid index_oid name s
  = match wait_for_oldest oldest fuel (time_ s + 1) (after_delete db_oid entry s) with
    | inl s' => Finished (set_heap (delete (indexptr entry) (heap s')) s')
    | inr s' => Spinning s'
    end.
Proof.
  intros Htbl Hentry.
  unfold Drop, BeginTransaction, GetUserTable, GetIndexEntry. cbn.
  rewrite Htbl, Hentry. cbn.
  unfold after_delete, record. cbn. rewrite <- !app_assoc. reflexivity.
Qed.



(** X6.  Creating an index and dropping it again restores the index catalog
    and the heap of index objects, provided the oid handed out was not
    already a key of the index catalog.  What stays behind is the oid
    consumed and the building flag of the index, still true. *)
Theorem CreateConcurrently_then_Drop
    fuel fuel' db_oid ns_oid table_oid (index_type : IndexType) unique_index name
    index_attrs key_attrs s s1 s2 sql_table :
  user_tables s !! (db_oid, ns_oid, table_oid) = Some sql_table ->
  Forall (fun a => is_Some (pg_attribute s !! (db_oid, table_oid, a))) key_attrs ->
  pg_index s !! (db_oid, next_oid s) = None ->
  CreateConcurrently oldest fuel db_oid ns_oid table_oid index_type unique_index
    name index_attrs key_attrs s = Finished s1 ->
  Drop oldest fuel' db_oid ns_oid table_oid (next_oid s) name s1 = Finished s2 ->
  pg_index s2 = pg_index s
  /\ heap s2 = heap s
  /\ user_tables s2 = user_tables s
  /\ next_oid s2 = (next_oid s + 1)%N
  /\ index_building_map_ s2 !! make_index_id db_oid ns_oid (next_oid s) = Some true.
Proof.
  intros Htbl Hattrs Hfresh Hcreate.
  destruct (fill_key_schema_Some (mkTxn (time_ s)) db_oid table_oid key_attrs s []
              Hattrs) as [key_schema Hfill].
  destruct (CreateConcurrently_Finished_built fuel db_oid ns_oid table_oid index_type
              unique_index name index_attrs key_attrs s s1 sql_table key_schema
              Htbl Hfill Hcreate) as [m ->].
  erewrite Drop_unfold; [|exact Htbl|unfold built; cbn -[set_column PopulateIndex polled];
                                      apply lookup_insert_eq].
  pose proof (wait_for_oldest_spec oldest fuel'
                (time_ (built db_oid ns_oid table_oid unique_index index_attrs
                          key_attrs key_schema sql_table m s) + 1)
                (after_delete db_oid
                   (set_column "indisvalid"
                      (PopulateIndex (mkTxn (time_ s + 1 + 1)) sql_table
                         (first_index unique_index key_schema s) unique_index).1.2
                      (set_column "indisready" false
                         (first_entry table_oid unique_index index_attrs key_attrs s)))
                   (built db_oid ns_oid table_oid unique_index index_attrs
                      key_attrs key_schema sql_table m s))) as Hw.
  destruct (wait_for_oldest _ _ _ _) as [s'|s']; [|discriminate].
  destruct Hw as (n & _ & -> & _). intros [= <-].
  rewrite set_column_indisvalid, set_column_indisready.
  unfold polled, after_delete, built. cbn -[PopulateIndex].
  split; [by rewrite delete_insert_eq, delete_id|].
  split.
  { rewrite delete_insert_eq, delete_id; [done|]. apply not_elem_of_dom, is_fresh. }
  split; [done|]. split; [done|]. apply lookup_insert_eq.
Qed.

End Runs.

(** ** The runs on the toy catalog *)

(** A workload whose oldest start time rises by three per poll. *)
Definition rising_oldest (k : nat) : timestamp_t := N.of_nat (9 + 3 * k).

(** The toy catalog after CREATE UNIQUE INDEX on column "a" ... *)
Definition toy_created : State (list Tuple) (list (list Z * TupleSlot)) :=
  Eval vm_compute in
    match CreateConcurrently rising_oldest 5 1 2 3 tt true "idx" ["a"] ["a"] toy_state with
    | Finished s => s
    | _ => toy_state
    end.

(** ... and after DROP INDEX of that index. *)
Definition toy_dropped : State (list Tuple) (list (list Z * TupleSlot)) :=
  Eval vm_compute in
    match Drop rising_oldest 5 1 2 3 50 "idx" toy_created with
    | Finished s => s
    | _ => toy_state
    end.

(** The same for a plain (non-unique) index. *)
Definition toy_created_plain : State (list Tuple) (list (list Z * TupleSlot)) :=
  Eval vm_compute in
    match CreateConcurrently rising_oldest 5 1 2 3 tt false "idx" ["a"] ["a"] toy_state with
    | Finished s => s
    | _ => toy_state
    end.

Lemma toy_created_plain_run :
  CreateConcurrently rising_oldest 5 1 2 3 tt false "idx" ["a"] ["a"] toy_state
  = Finished toy_created_plain.
Proof. vm_compute. reflexivity. Qed.

Lemma toy_created_run :
  CreateConcurrently rising_oldest 5 1 2 3 tt true "idx" ["a"] ["a"] toy_state
  = Finished toy_created.
Proof. vm_compute. reflexivity. Qed.

Lemma toy_dropped_run :
  Drop rising_oldest 5 1 2 3 50 "idx" toy_created = Finished toy_dropped.
Proof. vm_compute. reflexivity. Qed.

Lemma toy_missing_attribute :
  Exists (fun a => pg_attribute toy_state !! (1%N, 3%N, a) = None) ["zz"].
Proof. constructor. reflexivity. Qed.

Lemma CreateConcurrently_missing_key_attribute_witness :
  user_tables toy_state !! (1, 2, 3)%N = Some toy_table
  /\ Exists (fun a => pg_attribute toy_state !! (1%N, 3%N, a) = None) ["zz"]
  /\ exists s',
       CreateConcurrently rising_oldest 5 1 2 3 tt true "idx" ["a"] ["zz"] toy_state
       = Finished s'
       /\ pg_index s' = pg_index toy_state
       /\ heap s' = heap toy_state
       /\ index_building_map_ s' = index_building_map_ toy_state
       /\ next_oid s' = (next_oid toy_state + 1)%N
       /\ history s' = history toy_state ++ [BeginEv (mkTxn (time_ toy_state));
                                              AbortEv (mkTxn (time_ toy_state))].
Proof.
  split; [exact toy_table_present|]. split; [exact toy_missing_attribute|].
  pose proof (CreateConcurrently_missing_key_attribute rising_oldest 5 1%N 2%N 3%N
                tt true "idx" ["a"] ["zz"] toy_state toy_table toy_table_present
                toy_missing_attribute) as Hrun.
  exact Hrun.
Defined.

Lemma CreateConcurrently_frame_witness :
  user_tables toy_state !! (1, 2, 3)%N = Some toy_table
  /\ Forall (fun a => is_Some (pg_attribute toy_state !! (1%N, 3%N, a))) ["a"]
  /\ CreateConcurrently rising_oldest 5 1 2 3 tt true "idx" ["a"] ["a"] toy_state
     = Finished toy_created
  /\ (forall k, k <> (1%N, next_oid toy_state) ->
        pg_index toy_created !! k = pg_index toy_state !! k)
  /\ (exists a, heap toy_state !! a = None
                /\ forall a', a' <> a -> heap toy_created !! a' = heap toy_state !! a')
  /\ (forall id, id <> make_index_id 1 2 (next_oid toy_state) ->
        index_building_map_ toy_created !! id = index_building_map_ toy_state !! id)
  /\ user_tables toy_created = user_tables toy_state
  /\ pg_attribute toy_created = pg_attribute toy_state
  /\ next_oid toy_created = (next_oid toy_state + 1)%N
  /\ time_ toy_created = (time_ toy_state + 4)%N.
Proof.
  split; [exact toy_table_present|]. split; [exact toy_attribute_present|].
  split; [exact toy_created_run|].
  pose proof (CreateConcurrently_frame rising_oldest 5 1%N 2%N 3%N tt true "idx"
                ["a"] ["a"] toy_state toy_created toy_table toy_table_present
                toy_attribute_present toy_created_run) as Hframe.
  exact Hframe.
Defined.

Lemma CreateConcurrently_entry_points_to_index_witness :
  user_tables toy_state !! (1, 2, 3)%N = Some toy_table
  /\ Forall (fun a => is_Some (pg_attribute toy_state !! (1%N, 3%N, a))) ["a"]
  /\ CreateConcurrently rising_oldest 5 1 2 3 tt false "idx" ["a"] ["a"] toy_state
     = Finished toy_created_plain
  /\ exists entry index,
       pg_index toy_created_plain !! (1%N, next_oid toy_state) = Some entry
       /\ heap toy_created_plain !! indexptr entry = Some index
       /\ indexrelid entry = next_oid toy_state
       /\ indrelid entry = 3%N
       /\ index_oid_ index = indexrelid entry
       /\ (constraint_ index = UNIQUE <-> indisunique entry = true)
       /\ length (GetKeySchema index) = length ["a"]
       /\ (indisvalid entry = true ->
             exists calls,
               performed false (mkTxn (time_ toy_state + 2)) empty_container calls
                 (container index)
               /\ Forall (fun call => succeeded call = true) calls
               /\ target <$> calls
                  = visible_keys (mkTxn (time_ toy_state + 2)) toy_table
                      (mkIndex (next_oid toy_state) (if false then UNIQUE else DEFAULT)
                         (GetKeySchema index) empty_container)).
Proof.
  split; [exact toy_table_present|]. split; [exact toy_attribute_present|].
  split; [exact toy_created_plain_run|].
  pose proof (CreateConcurrently_entry_points_to_index rising_oldest 5 1%N 2%N 3%N
                tt false "idx" ["a"] ["a"] toy_state toy_created_plain toy_table
                toy_table_present toy_attribute_present toy_created_plain_run) as Hlink.
  exact Hlink.
Defined.

(** The plain index of that run is valid and holds the three rows. *)
Example toy_created_plain_valid :
  (indisvalid <$> pg_index toy_created_plain !! (1, 50)%N) = Some true
  /\ (container <$> heap toy_created_plain !! 0%N)
     = Some [([5%Z], 100%N); ([6%Z], 101%N); ([5%Z], 102%N)].
Proof. vm_compute. done. Qed.




Lemma toy_oid_fresh : pg_index toy_state !! (1%N, next_oid toy_state) = None.
Proof. reflexivity. Qed.

Lemma CreateConcurrently_then_Drop_witness :
  user_tables toy_state !! (1, 2, 3)%N = Some toy_table
  /\ Forall (fun a => is_Some (pg_attribute toy_state !! (1%N, 3%N, a))) ["a"]
  /\ pg_index toy_state !! (1%N, next_oid toy_state) = None
  /\ CreateConcurrently rising_oldest 5 1 2 3 tt true "idx" ["a"] ["a"] toy_state
     = Finished toy_created
  /\ Drop rising_oldest 5 1 2 3 (next_oid toy_state) "idx" toy_created
     = Finished toy_dropped
  /\ pg_index toy_dropped = pg_index toy_state
  /\ heap toy_dropped = heap toy_state
  /\ user_tables toy_dropped = user_tables toy_state
  /\ next_oid toy_dropped = (next_oid toy_state + 1)%N
  /\ index_building_map_ toy_dropped !! make_index_id 1 2 (next_oid toy_state)
     = Some true.
Proof.
  split; [exact toy_table_present|]. split; [exact toy_attribute_present|].
  split; [exact toy_oid_fresh|]. split; [exact toy_created_run|].
  split; [exact toy_dropped_run|].
  pose proof (CreateConcurrently_then_Drop rising_oldest 5 5 1%N 2%N 3%N tt true
                "idx" ["a"] ["a"] toy_state toy_created toy_dropped toy_table
                toy_table_present toy_attribute_present toy_oid_fresh
                toy_created_run toy_dropped_run) as Hround.
  exact Hround.
Defined.

End CoordinatorFacts.

(* ===================================================================== *)
(** * The other output checkers (output_checker.h)                        *)
(* ===================================================================== *)

Module Checkers.
Import OutputChecker.

(** [i64] arithmetic.  Converting an out-of-range integer to [i64] wraps;
    signed addition that overflows is undefined. *)
Definition wrap_i64 (z : Z) : Z := ((z + 2 ^ 63) mod 2 ^ 64 - 2 ^ 63)%Z.

Definition in_i64 (z : Z) : bool :=
  bool_decide (- 2 ^ 63 <= z)%Z && bool_decide (z < 2 ^ 63)%Z.

Definition add_i64 (a b : Z) : option Z :=
  if in_i64 (a + b) then Some (a + b)%Z else None.

(** [NumChecker]: its members and the failed expectations so far. *)
Record NumChecker : Set := mkNumChecker {
  curr_count_ : Z;
  expected_count_ : Z;
  num_failures : nat
}.

(** [SingleIntSumChecker] *)
Record SingleIntSumChecker : Set := mkSumChecker {
  sum_col_idx_ : nat;
  curr_sum_ : Z;
  expected_ : Z;
  sum_failures : nat
}.

(** [SingleIntComparisonChecker] *)
Record SingleIntComparisonChecker : Type := mkComparisonChecker {
  comp_fn_ : Z -> Z -> bool;
  cmp_col_idx_ : nat;
  rhs_ : Z;
  cmp_failures : nat
}.

(** [SingleIntJoinChecker] *)
Record SingleIntJoinChecker : Set := mkJoinChecker {
  col1_ : nat;
  col2_ : nat;
  join_failures : nat
}.

(** The implementations of [OutputChecker] that hold no user closure;
    [MultiChecker] owns a vector of them. *)
#[warnings="-register-all"]
Inductive checker : Type :=
  | Num (c : NumChecker)
  | Sum (c : SingleIntSumChecker)
  | Sort (c : SingleIntSortChecker)
  | Comparison (c : SingleIntComparisonChecker)
  | Join (c : SingleIntJoinChecker)
  | Multi (checkers_ : list checker).

(** The constructors. *)
Definition NumChecker_make (expected_count : Z) : NumChecker :=
  {| curr_count_ := 0; expected_count_ := expected_count; num_failures := 0 |}.

Definition SingleIntSumChecker_make (col_idx : nat) (expected : Z)
    : SingleIntSumChecker :=
  {| sum_col_idx_ := col_idx; curr_sum_ := 0; expected_ := expected;
     sum_failures := 0 |}.

Definition SingleIntComparisonChecker_make (fn : Z -> Z -> bool) (col_idx : nat)
    (rhs : Z) : SingleIntComparisonChecker :=
  {| comp_fn_ := fn; cmp_col_idx_ := col_idx; rhs_ := rhs; cmp_failures := 0 |}.

Definition SingleIntJoinChecker_make (col1 col2 : nat) : SingleIntJoinChecker :=
  {| col1_ := col1; col2_ := col2; join_failures := 0 |}.

(** [NumChecker::ProcessBatch]: [curr_count_ += output.size()]. *)
Definition Num_ProcessBatch (c : NumChecker) (output : list (list Integer))
    : NumChecker :=
  {| curr_count_ := wrap_i64 (curr_count_ c + Z.of_nat (length output));
     expected_count_ := expected_count_ c;
     num_failures := num_failures c |}.

(** [NumChecker::CheckCorrectness]: [EXPECT_EQ(curr_count_, expected_count_)]. *)
Definition Num_CheckCorrectness (c : NumChecker) : NumChecker :=
  {| curr_count_ := curr_count_ c;
     expected_count_ := expected_count_ c;
     num_failures := if bool_decide (curr_count_ c = expected_count_ c)
                     then num_failures c else S (num_failures c) |}.

(** [SingleIntSumChecker::ProcessBatch]; [None] when a row is too short
    or the running sum overflows. *)
Fixpoint Sum_ProcessBatch (c : SingleIntSumChecker) (output : list (list Integer))
    : option SingleIntSumChecker :=
  match output with
  | [] => Some c
  | vals :: output' =>
      int_val ← vals !! sum_col_idx_ c;
      c' ← (if is_null int_val then Some c
            else s ← add_i64 (curr_sum_ c) (val int_val);
                 Some {| sum_col_idx_ := sum_col_idx_ c; curr_sum_ := s;
                         expected_ := expected_ c; sum_failures := sum_failures c |});
      Sum_ProcessBatch c' output'
  end.

(** [SingleIntSumChecker::CheckCorrectness]: [EXPECT_EQ(curr_sum_, expected_)]. *)
Definition Sum_CheckCorrectness (c : SingleIntSumChecker) : SingleIntSumChecker :=
  {| sum_col_idx_ := sum_col_idx_ c; curr_sum_ := curr_sum_ c;
     expected_ := expected_ c;
     sum_failures := if bool_decide (curr_sum_ c = expected_ c)
                     then sum_failures c else S (sum_failures c) |}.

(** [SingleIntComparisonChecker::ProcessBatch]:
    [EXPECT_TRUE(comp_fn_(int_val->val, rhs_))] for every row. *)
Fixpoint Comparison_ProcessBatch (c : SingleIntComparisonChecker)
    (output : list (list Integer)) : option SingleIntComparisonChecker :=
  match output with
  | [] => Some c
  | vals :: output' =>
      int_val ← vals !! cmp_col_idx_ c;
      Comparison_ProcessBatch
        {| comp_fn_ := comp_fn_ c; cmp_col_idx_ := cmp_col_idx_ c; rhs_ := rhs_ c;
           cmp_failures := if comp_fn_ c (val int_val) (rhs_ c)
                           then cmp_failures c else S (cmp_failures c) |}
        output'
  end.

(** [SingleIntJoinChecker::ProcessBatch]: [EXPECT_EQ(val1->val, val2->val)]. *)
Fixpoint Join_ProcessBatch (c : SingleIntJoinChecker) (output : list (list Integer))
    : option SingleIntJoinChecker :=
  match output with
  | [] => Some c
  | vals :: output' =>
      val1 ← vals !! col1_ c;
      val2 ← vals !! col2_ c;
      Join_ProcessBatch
        {| col1_ := col1_ c; col2_ := col2_ c;
           join_failures := if bool_decide (val val1 = val val2)
                            then join_failures c else S (join_failures c) |}
        output'
  end.

(** The virtual [ProcessBatch]; for [MultiChecker], every child in turn. *)
Fixpoint ProcessBatch (c : checker) (output : list (list Integer)) : option checker :=
  match c with
  | Num c => Some (Num (Num_ProcessBatch c output))
  | Sum c => Sum <$> Sum_ProcessBatch c output
  | Sort c => Sort <$> OutputChecker.ProcessBatch c output
  | Comparison c => Comparison <$> Comparison_ProcessBatch c output
  | Join c => Join <$> Join_ProcessBatch c output
  | Multi checkers => Multi <$> mapM (fun child => ProcessBatch child output) checkers
  end.

(** The virtual [CheckCorrectness]. *)
Fixpoint CheckCorrectness (c : checker) : checker :=
  match c with
  | Num c => Num (Num_CheckCorrectness c)
  | Sum c => Sum (Sum_CheckCorrectness c)
  | Sort c => Sort c
  | Comparison c => Comparison c
  | Join c => Join c
  | Multi checkers => Multi (CheckCorrectness <$> checkers)
  end.

(** The failed expectations a checker has recorded. *)
Fixpoint failed (c : checker) : nat :=
  match c with
  | Num c => num_failures c
  | Sum c => sum_failures c
  | Sort c => failures c
  | Comparison c => cmp_failures c
  | Join c => join_failures c
  | Multi checkers => sum_list (failed <$> checkers)
  end.

(** A run: the batches in arrival order. *)
Fixpoint ProcessBatches (c : checker) (batches : list (list (list Integer)))
    : option checker :=
  match batches with
  | [] => Some c
  | output :: batches' => c' ← ProcessBatch c output; ProcessBatches c' batches'
  end.

(** The sum of the non-null values of a column. *)
Definition sum_non_null (column : list Integer) : Z :=
  foldr (fun v acc => if is_null v then acc else (val v + acc)%Z) 0%Z column.

End Checkers.

Module CheckersFacts.
Import OutputChecker Checkers.

Implicit Types (rows output : list (list Integer)).
Implicit Types (batches : list (list (list Integer))).

(** Induction over checkers, children of a [MultiChecker] included. *)
Lemma checker_rect' (P : checker -> Prop) :
  (forall c, P (Num c)) -> (forall c, P (Sum c)) -> (forall c, P (Sort c)) ->
  (forall c, P (Comparison c)) -> (forall c, P (Join c)) ->
  (forall cs, Forall P cs -> P (Multi cs)) ->
  forall c, P c.
Proof.
  intros HNum HSum HSort HCmp HJoin HMulti. fix IH 1.
  intros [c|c|c|c|c|cs];
    [apply HNum|apply HSum|apply HSort|apply HCmp|apply HJoin|].
  apply HMulti. induction cs as [|c cs IHcs]; constructor; [apply IH|exact IHcs].
Qed.

Lemma wrap_i64_add_l (a b : Z) : wrap_i64 (wrap_i64 a + b) = wrap_i64 (a + b).
Proof.
  unfold wrap_i64. f_equal.
  replace ((a + 2 ^ 63) mod 2 ^ 64 - 2 ^ 63 + b + 2 ^ 63)%Z
    with ((a + 2 ^ 63) mod 2 ^ 64 + b)%Z by lia.
  rewrite Zplus_mod_idemp_l. f_equal. lia.
Qed.

Lemma wrap_i64_id (z : Z) : (- 2 ^ 63 <= z < 2 ^ 63)%Z -> wrap_i64 z = z.
Proof. intros Hz. unfold wrap_i64. rewrite Z.mod_small; lia. Qed.

Lemma Num_ProcessBatch_app c rows1 rows2 :
  Num_ProcessBatch c (rows1 ++ rows2) = Num_ProcessBatch (Num_ProcessBatch c rows1) rows2.
Proof.
  unfold Num_ProcessBatch; cbn. f_equal.
  rewrite wrap_i64_add_l, length_app. f_equal. lia.
Qed.

Lemma Sum_ProcessBatch_app rows1 rows2 : forall c,
  Sum_ProcessBatch c (rows1 ++ rows2)
  = Sum_ProcessBatch c rows1 ≫= fun c' => Sum_ProcessBatch c' rows2.
Proof.
  induction rows1 as [|vals rows1 IH]; intros c; cbn; [done|].
  destruct (vals !! sum_col_idx_ c) as [v|]; cbn; [|done].
  destruct (is_null v); cbn; [apply IH|].
  destruct (add_i64 (curr_sum_ c) (val v)); cbn; [apply IH|done].
Qed.

Lemma Sort_ProcessBatch_app rows1 rows2 : forall c,
  OutputChecker.ProcessBatch c (rows1 ++ rows2)
  = OutputChecker.ProcessBatch c rows1 ≫= fun c' => OutputChecker.ProcessBatch c' rows2.
Proof.
  induction rows1 as [|vals rows1 IH]; intros c; cbn; [done|].
  destruct (process_row c vals); cbn; [apply IH|done].
Qed.

Lemma Comparison_ProcessBatch_app rows1 rows2 : forall c,
  Comparison_ProcessBatch c (rows1 ++ rows2)
  = Comparison_ProcessBatch c rows1 ≫= fun c' => Comparison_ProcessBatch c' rows2.
Proof.
  induction rows1 as [|vals rows1 IH]; intros c; cbn; [done|].
  destruct (vals !! cmp_col_idx_ c); cbn; [apply IH|done].
Qed.

Lemma Join_ProcessBatch_app rows1 rows2 : forall c,
  Join_ProcessBatch c (rows1 ++ rows2)
  = Join_ProcessBatch c rows1 ≫= fun c' => Join_ProcessBatch c' rows2.
Proof.
  induction rows1 as [|vals rows1 IH]; intros c; cbn; [done|].
  destruct (vals !! col1_ c); cbn; [|done].
  destruct (vals !! col2_ c); cbn; [apply IH|done].
Qed.

(** Running every element through [f] and then through [g] is running
    every element through both. *)
Lemma mapM_bind {A B C} (f : A -> option B) (g : B -> option C) (l : list A) :
  mapM f l ≫= mapM g = mapM (fun x => f x ≫= g) l.
Proof.
  induction l as [|x l IH]; cbn; [done|].
  destruct (f x) as [y|]; cbn; [|done].
  rewrite <- IH. destruct (mapM f l) as [k|]; cbn; [done|].
  by destruct (g y).
Qed.

Lemma mapM_ext_Forall {A B} (f g : A -> option B) (l : list A) :
  Forall (fun x => f x = g x) l -> mapM f l = mapM g l.
Proof. induction 1 as [|x l Hx _ IH]; cbn; [done|]. by rewrite Hx, IH. Qed.

(** Any checker fed two lists of rows in a row is in the state it reaches
    on their concatenation. *)
Lemma checker_ProcessBatch_app rows1 rows2 : forall c,
  ProcessBatch c (rows1 ++ rows2)
  = ProcessBatch c rows1 ≫= fun c' => ProcessBatch c' rows2.
Proof.
  induction c as [c|c|c|c|c|cs IH] using checker_rect'; cbn.
  - by rewrite Num_ProcessBatch_app.
  - rewrite Sum_ProcessBatch_app. by destruct (Sum_ProcessBatch c rows1).
  - rewrite Sort_ProcessBatch_app. by destruct (OutputChecker.ProcessBatch c rows1).
  - rewrite Comparison_ProcessBatch_app. by destruct (Comparison_ProcessBatch c rows1).
  - rewrite Join_ProcessBatch_app. by destruct (Join_ProcessBatch c rows1).
  - rewrite (mapM_ext_Forall _ _ _ IH), <- mapM_bind.
    destruct (mapM (fun child => ProcessBatch child rows1) cs); done.
Qed.

Lemma ProcessBatches_cons (c : checker) output batches :
  ProcessBatches c (output :: batches) = ProcessBatch c (output ++ concat batches).
Proof.
  revert c output. induction batches as [|b batches IH]; intros c output.
  - cbn. rewrite app_nil_r. by destruct (ProcessBatch c output).
  - cbn [concat]. rewrite app_assoc, <- IH. cbn.
    rewrite checker_ProcessBatch_app. by destruct (ProcessBatch c output).
Qed.

(** X7.  How the output is cut into batches does not matter: two runs of a
    checker, a [MultiChecker] with all its children included, that receive
    the same rows in the same order, each in at least one batch, end in the
    same state (and one has undefined behaviour exactly when the other
    has). *)
Theorem ProcessBatches_batching_irrelevant (c : checker)
    output1 batches1 output2 batches2 :
  concat (output1 :: batches1) = concat (output2 :: batches2) ->
  ProcessBatches c (output1 :: batches1) = ProcessBatches c (output2 :: batches2).
Proof. intros Hrows. rewrite !ProcessBatches_cons. cbn in Hrows. by rewrite Hrows. Qed.

Lemma ProcessBatches_Multi cs batches :
  ProcessBatches (Multi cs) batches
  = Multi <$> mapM (fun child => ProcessBatches child batches) cs.
Proof.
  revert cs. induction batches as [|b batches IH]; intros cs.
  - assert (mapM (fun child => ProcessBatches child []) cs = Some cs) as ->; [|done].
    induction cs as [|c cs IHcs]; cbn; [done|]. cbn in IHcs. by rewrite IHcs.
  - cbn. destruct (mapM (fun child => ProcessBatch child b) cs) as [cs'|] eqn:Hb; cbn.
    + rewrite IH. f_equal. rewrite <- mapM_bind, Hb. done.
    + rewrite <- mapM_bind, Hb. done.
Qed.

(** X8.  A [MultiChecker] is its children side by side: after a run and the
    final check, each child is in the state it reaches when it is run alone
    on the same batches, and the failures of the [MultiChecker] are the sum
    of theirs. *)
Theorem MultiChecker_runs_children cs batches :
  CheckCorrectness <$> ProcessBatches (Multi cs) batches
  = Multi <$> mapM (fun child => CheckCorrectness <$> ProcessBatches child batches) cs
  /\ forall final,
       CheckCorrectness <$> ProcessBatches (Multi cs) batches = Some final ->
       exists children,
         final = Multi children
         /\ Forall2 (fun child child' =>
                       CheckCorrectness <$> ProcessBatches child batches = Some child')
              cs children
         /\ (failed final = 0 <-> Forall (fun child' => failed child' = 0) children).
Proof.
  assert (CheckCorrectness <$> ProcessBatches (Multi cs) batches
          = Multi <$> mapM (fun child => CheckCorrectness <$> ProcessBatches child batches)
                        cs) as Heq.
  { rewrite ProcessBatches_Multi.
    assert (forall l, mapM (fun child => CheckCorrectness <$> ProcessBatches child batches) l
                      = fmap CheckCorrectness <$> mapM (fun child => ProcessBatches child batches) l)
      as Hl.
    { induction l as [|c l IHl]; cbn; [done|].
      destruct (ProcessBatches c batches); cbn; [|done]. cbn in IHl. rewrite IHl.
      by destruct (mapM (fun child => ProcessBatches child batches) l). }
    rewrite Hl. by destruct (mapM (fun child => ProcessBatches child batches) cs). }
  split; [exact Heq|]. intros final. rewrite Heq.
  destruct (mapM _ cs) as [children|] eqn:Hm; [|discriminate]. cbn.
  intros [= <-]. exists children. split; [done|]. split.
  - clear Heq. revert children Hm. induction cs as [|c cs IH]; intros children; cbn.
    + intros [= <-]. constructor.
    + destruct (CheckCorrectness <$> ProcessBatches c batches) as [c'|] eqn:Hc;
        cbn; [|done].
      destruct (mapM _ cs) as [k|] eqn:Hk; cbn; [|done].
      intros [= <-]. constructor; [done|]. by apply IH.
  - cbn. clear. induction children as [|c l IH]; cbn; [by split; [constructor|]|].
    rewrite Forall_cons. rewrite <- IH. lia.
Qed.

Lemma Num_run_counts batches : forall c0,
  (0 <= curr_count_ c0)%Z ->
  (curr_count_ c0 + Z.of_nat (length (concat batches)) < 2 ^ 63)%Z ->
  exists c, ProcessBatches (Num c0) batches = Some (Num c)
            /\ curr_count_ c = (curr_count_ c0 + Z.of_nat (length (concat batches)))%Z
            /\ expected_count_ c = expected_count_ c0
            /\ num_failures c = num_failures c0.
Proof.
  induction batches as [|b bs IH]; intros c0 H0 Hlt.
  - exists c0. cbn [concat length ProcessBatches]. repeat split; lia.
  - cbn [concat] in Hlt. rewrite length_app in Hlt.
    assert (curr_count_ (Num_ProcessBatch c0 b)
            = (curr_count_ c0 + Z.of_nat (length b))%Z) as Hb.
    { unfold Num_ProcessBatch; cbn [curr_count_]. apply wrap_i64_id. lia. }
    destruct (IH (Num_ProcessBatch c0 b)) as (c & Hrun & Hc & He & Hf);
      [rewrite Hb; lia|rewrite Hb; lia|].
    exists c. cbn [ProcessBatches ProcessBatch mbind option_bind].
    split; [exact Hrun|]. cbn [concat]. rewrite length_app.
    split; [rewrite Hc, Hb; lia|]. by split.
Qed.

(** X9.  [NumChecker] over a run whose rows still fit a 64-bit count: the
    count it ends with is the number of rows of all batches together, and
    the final check passes exactly when that number is the expected one. *)
Theorem NumChecker_counts_rows (expected_count : Z) batches :
  (Z.of_nat (length (concat batches)) < 2 ^ 63)%Z ->
  exists c,
    ProcessBatches (Num (NumChecker_make expected_count)) batches = Some (Num c)
    /\ curr_count_ c = Z.of_nat (length (concat batches))
    /\ (failed (CheckCorrectness (Num c)) = 0
        <-> expected_count = Z.of_nat (length (concat batches))).
Proof.
  intros Hfit.
  destruct (Num_run_counts batches (NumChecker_make expected_count))
    as (c & Hrun & Hc & He & Hf).
  { cbn [curr_count_ NumChecker_make]. lia. }
  { cbn [curr_count_ NumChecker_make]. lia. }
  exists c. split; [exact Hrun|].
  cbn [curr_count_ expected_count_ num_failures NumChecker_make] in Hc, He, Hf.
  split; [lia|].
  cbn [failed CheckCorrectness Num_CheckCorrectness num_failures].
  rewrite Hf, He, Hc. case_bool_decide; split; intros; lia || congruence.
Qed.

Lemma Sum_ProcessBatch_spec rows : forall c c',
  Sum_ProcessBatch c rows = Some c' ->
  exists col, column (sum_col_idx_ c) rows = Some col
    /\ curr_sum_ c' = (curr_sum_ c + sum_non_null col)%Z
    /\ sum_col_idx_ c' = sum_col_idx_ c
    /\ expected_ c' = expected_ c
    /\ sum_failures c' = sum_failures c.
Proof.
  induction rows as [|vals rows IH]; intros c c'; cbn.
  - intros [= <-]. exists []. cbn. repeat split; lia.
  - unfold column; cbn. destruct (vals !! sum_col_idx_ c) as [v|]; cbn; [|done].
    destruct (is_null v) eqn:Hnull; cbn.
    + intros Hrest. destruct (IH _ _ Hrest) as (col & Hcol & Hs & Hi & He & Hf).
      unfold column in Hcol. rewrite Hcol. exists (v :: col). cbn. rewrite Hnull.
      by repeat split.
    + unfold add_i64. destruct (in_i64 _); cbn; [|done].
      intros Hrest. destruct (IH _ _ Hrest) as (col & Hcol & Hs & Hi & He & Hf).
      cbn in *. unfold column in Hcol. rewrite Hcol. exists (v :: col). cbn.
      rewrite Hnull. fold (sum_non_null col).
      split; [done|]. split; [lia|]. by repeat split.
Qed.

(** X10.  [SingleIntSumChecker] constructed for column [col_idx] adds up the
    non-null values of that column over the rows of all batches; when the
    run is defined, the final check passes exactly when that sum is the
    expected one. *)
Theorem SingleIntSumChecker_sums_column (col_idx : nat) (expected : Z) batches final :
  ProcessBatches (Sum (SingleIntSumChecker_make col_idx expected)) batches = Some final ->
  exists c col,
    final = Sum c
    /\ column col_idx (concat batches) = Some col
    /\ curr_sum_ c = sum_non_null col
    /\ (failed (CheckCorrectness final) = 0 <-> sum_non_null col = expected).
Proof.
  destruct batches as [|b batches].
  - cbn. intros [= <-]. eexists _, []. repeat split; cbn; case_bool_decide; done.
  - rewrite ProcessBatches_cons. cbn.
    destruct (Sum_ProcessBatch _ _) as [c|] eqn:Hrun; [|discriminate].
    intros [= <-]. destruct (Sum_ProcessBatch_spec _ _ _ Hrun) as (col & Hcol & Hs & _ & He & Hf).
    cbn in *. exists c, col. split; [done|]. split; [done|]. split; [lia|].
    rewrite Hf, He, Hs. case_bool_decide; split; intros; lia || congruence.
Qed.


Lemma same_payloads_lookup (vals vals' : list Integer) (i : nat) :
  Forall2 (fun v v' => val v = val v') vals vals' ->
  (val <$> vals !! i) = (val <$> vals' !! i).
Proof.
  intros Hvals. revert i. induction Hvals as [|v v' l l' Hv _ IH]; intros [|i]; cbn;
    [done|done|by rewrite Hv|apply IH].
Qed.

(** X11.  [SingleIntComparisonChecker] and [SingleIntJoinChecker] never look at
    the null flag: on two outputs that carry the same payloads, whatever the
    null flags say, they end in the same state. *)
Theorem payload_checkers_ignore_null_flags
    (cmp : SingleIntComparisonChecker) (join : SingleIntJoinChecker) rows rows' :
  Forall2 (Forall2 (fun v v' => val v = val v')) rows rows' ->
  Comparison_ProcessBatch cmp rows = Comparison_ProcessBatch cmp rows'
  /\ Join_ProcessBatch join rows = Join_ProcessBatch join rows'.
Proof.
  intros Hrows. split.
  - revert cmp. induction Hrows as [|vals vals' l l' Hvals _ IH]; intros cmp; cbn; [done|].
    pose proof (same_payloads_lookup _ _ (cmp_col_idx_ cmp) Hvals) as Hv.
    destruct (vals !! cmp_col_idx_ cmp) as [v|], (vals' !! cmp_col_idx_ cmp) as [v'|];
      cbn in *; try done.
    injection Hv as ->. apply IH.
  - revert join. induction Hrows as [|vals vals' l l' Hvals _ IH]; intros join; cbn; [done|].
    pose proof (same_payloads_lookup _ _ (col1_ join) Hvals) as H1.
    pose proof (same_payloads_lookup _ _ (col2_ join) Hvals) as H2.
    destruct (vals !! col1_ join) as [v1|], (vals' !! col1_ join) as [v1'|];
      cbn in *; try done.
    destruct (vals !! col2_ join) as [v2|], (vals' !! col2_ join) as [v2'|];
      cbn in *; try done.
    injection H1 as ->. injection H2 as ->. apply IH.
Qed.

(** ** The checkers on small outputs *)

Definition int (z : Z) : Integer := {| is_null := false; val := z |}.
Definition null (z : Z) : Integer := {| is_null := true; val := z |}.

(** Two rows of two columns, in one batch or in two. *)
Definition two_rows : list (list Integer) := [[int 5; int 5]; [int 6; null 7]].

Definition three_checkers : checker :=
  Multi [Num (NumChecker_make 2); Sum (SingleIntSumChecker_make 1 5);
         Sort (OutputChecker.make 0)].

Lemma ProcessBatches_batching_irrelevant_witness :
  concat ([[int 5; int 5]] :: [[[int 6; null 7]]]) = concat (two_rows :: [])
  /\ ProcessBatches three_checkers ([[int 5; int 5]] :: [[[int 6; null 7]]])
     = ProcessBatches three_checkers (two_rows :: []).
Proof.
  split; [reflexivity|].
  apply (ProcessBatches_batching_irrelevant three_checkers
           [[int 5; int 5]] [[[int 6; null 7]]] two_rows []).
  reflexivity.
Defined.

Lemma NumChecker_counts_rows_witness :
  (Z.of_nat (length (concat [two_rows; two_rows])) < 2 ^ 63)%Z
  /\ exists c,
       ProcessBatches (Num (NumChecker_make 4)) [two_rows; two_rows] = Some (Num c)
       /\ curr_count_ c = Z.of_nat (length (concat [two_rows; two_rows]))
       /\ (failed (CheckCorrectness (Num c)) = 0
           <-> 4%Z = Z.of_nat (length (concat [two_rows; two_rows]))).
Proof.
  split; [vm_compute; reflexivity|].
  apply (NumChecker_counts_rows 4 [two_rows; two_rows]).
  vm_compute; reflexivity.
Defined.

Lemma SingleIntSumChecker_sums_column_witness :
  ProcessBatches (Sum (SingleIntSumChecker_make 1 5)) [two_rows]
  = Some (Sum {| sum_col_idx_ := 1; curr_sum_ := 5; expected_ := 5; sum_failures := 0 |})
  /\ exists c col,
       Sum {| sum_col_idx_ := 1; curr_sum_ := 5; expected_ := 5; sum_failures := 0 |}
       = Sum c
       /\ column 1 (concat [two_rows]) = Some col
       /\ curr_sum_ c = sum_non_null col
       /\ (failed (CheckCorrectness
                     (Sum {| sum_col_idx_ := 1; curr_sum_ := 5; expected_ := 5;
                             sum_failures := 0 |})) = 0
           <-> sum_non_null col = 5%Z).
Proof.
  split; [vm_compute; reflexivity|].
  apply (SingleIntSumChecker_sums_column 1 5 [two_rows]).
  vm_compute; reflexivity.
Defined.

Lemma payload_checkers_ignore_null_flags_witness :
  Forall2 (Forall2 (fun v v' => val v = val v')) [[int 6; null 7]] [[null 6; int 7]]
  /\ Comparison_ProcessBatch (SingleIntComparisonChecker_make Z.eqb 1 7) [[int 6; null 7]]
     = Comparison_ProcessBatch (SingleIntComparisonChecker_make Z.eqb 1 7) [[null 6; int 7]]
  /\ Join_ProcessBatch (SingleIntJoinChecker_make 0 1) [[int 6; null 7]]
     = Join_ProcessBatch (SingleIntJoinChecker_make 0 1) [[null 6; int 7]].
Proof.
  assert (Forall2 (Forall2 (fun v v' => val v = val v'))
            [[int 6; null 7]] [[null 6; int 7]]) as Hsame.
  { repeat constructor. }
  split; [exact Hsame|].
  apply (payload_checkers_ignore_null_flags
           (SingleIntComparisonChecker_make Z.eqb 1 7) (SingleIntJoinChecker_make 0 1)
           [[int 6; null 7]] [[null 6; int 7]] Hsame).
Defined.

(** An overflowing sum has no defined result. *)
Example SingleIntSumChecker_overflow :
  ProcessBatches (Sum (SingleIntSumChecker_make 0 0))
    [[[int (2 ^ 63 - 1)]; [int 1]]] = None.
Proof. vm_compute. reflexivity. Qed.

End CheckersFacts.

Module PipelineWalk.
Import Pipeline PipelineFacts.

Section Walk.
Context {OperatorTranslator : Type}.
Implicit Types (ts : list OperatorTranslator).

(** What the [k]-th call of [NextStep] (counting from zero) answers on a
    pipeline whose cursor is [i]. *)
Definition answer ts (i k : nat) : step OperatorTranslator :=
  if decide (k < i) then
    match ts !! (i - 1 - k) with
    | Some t => translator t
    | None => out_of_range
    end
  else nullptr.

Lemma steps_answers ts n : forall i,
  steps n {| pipeline_ := ts; pipeline_index_ := i |} = answer ts i <$> seq 0 n.
Proof.
  induction n as [|n IH]; intros i; [done|].
  cbn [steps seq]. rewrite <- fmap_S_seq, fmap_cons, <- list_fmap_compose.
  destruct i as [|i].
  - rewrite NextStep_zero, IH. reflexivity.
  - rewrite NextStep_succ, IH. f_equal.
    + unfold answer. destruct (decide (0 < S i)); [|lia].
      by replace (S i - 1 - 0) with i by lia.
    + apply list_fmap_ext. intros _ k _. unfold answer, compose.
      replace (S i - 1 - S k) with (i - 1 - k) by lia.
      destruct (decide (k < i)), (decide (S k < S i)); try lia; done.
Qed.

(** X12.  [NextStep], call after call, for any chain and any cursor: the cursor
    counts down to zero, the [k]-th call hands out [pipeline_[i - 1 - k]]
    (an out-of-range read while that index is past the end of the chain),
    and from the [i]-th call on the answer is [nullptr] for good.  The chain
    itself is never changed. *)
Theorem NextStep_walks_back ts (i n : nat) :
  steps n {| pipeline_ := ts; pipeline_index_ := i |} = answer ts i <$> seq 0 n
  /\ (forall k, i <= k -> answer ts i k = nullptr)
  /\ (forall k, k < i -> i <= length ts ->
        exists t, ts !! (i - 1 - k) = Some t /\ answer ts i k = translator t)
  /\ (forall k, k < i -> length ts <= i - 1 - k -> answer ts i k = out_of_range)
  /\ pipeline_ (NextStep {| pipeline_ := ts; pipeline_index_ := i |}).2 = ts
  /\ pipeline_index_ (NextStep {| pipeline_ := ts; pipeline_index_ := i |}).2 = i - 1.
Proof.
  split; [apply steps_answers|]. split; [|split; [|split; [|split]]].
  - intros k Hk. unfold answer. destruct (decide (k < i)); [lia|done].
  - intros k Hk Hi. unfold answer. destruct (decide (k < i)); [|lia].
    destruct (lookup_lt_is_Some_2 ts (i - 1 - k)) as [t Ht]; [lia|].
    exists t. by rewrite Ht.
  - intros k Hk Hlen. unfold answer. destruct (decide (k < i)); [|lia].
    by rewrite lookup_ge_None_2.
  - destruct i; [done|]. by rewrite NextStep_succ.
  - destruct i; [done|]. rewrite NextStep_succ. cbn. lia.
Qed.

End Walk.

(** A chain of three with the cursor past its end: two out-of-range reads
    come before the chain is walked. *)
Example NextStep_cursor_past_end :
  steps 7 {| pipeline_ := [7; 8; 9]; pipeline_index_ := 5 |}
  = [out_of_range; out_of_range; translator 9; translator 8; translator 7;
     nullptr; nullptr].
Proof. reflexivity. Qed.

End PipelineWalk.

(* ===================================================================== *)
(** * The remaining intrinsic checkers (execution/sema/sema_builtin.cpp)  *)
(* ===================================================================== *)

Module Analyzer.
Import Ast.

(** Modelled from the spec: what the checkers use of the headers
    execution/ast/type.h and execution/sema/sema.h, which are not among the
    sources: the classification every type knows about itself (section 3),
    left open here, and the cast node the analyzer inserts to coerce an
    argument, of which only the type matters. *)
Inductive CastKind : Set := SqlBoolToBool.

Class AstContext := {
  IsIntegerType : Type_ -> bool;
  IsFloatType : Type_ -> bool;
  IsSqlValueType : Type_ -> bool;
  IsSqlAggregatorType : Type_ -> bool;
  ImplCastExprToType : Expr -> Type_ -> CastKind -> Expr;
  ImplCastExprToType_type expr t kind : type (ImplCastExprToType expr t kind) = t
}.

(** [ast::Builtin]: every intrinsic [CheckBuiltinCall] knows.  (The three
    checkers of the earlier sections switch on the part of it named
    [Ast.Builtin].) *)
Inductive Builtin : Set :=
  | BoolToSql | IntToSql | FloatToSql | SqlToBool
  | FilterEq | FilterGe | FilterGt | FilterLt | FilterNe | FilterLe
  | ExecutionContextGetMemoryPool
  | ThreadStateContainerInit | ThreadStateContainerReset
  | ThreadStateContainerIterate | ThreadStateContainerFree
  | TableIterInit | TableIterAdvance | TableIterGetPCI | TableIterClose
  | TableIterParallel
  | PCIIsFiltered | PCIHasNext | PCIHasNextFiltered | PCIAdvance
  | PCIAdvanceFiltered | PCIMatch | PCIReset | PCIResetFiltered
  | PCIGetSmallInt | PCIGetInt | PCIGetBigInt | PCIGetReal | PCIGetDouble
  | Hash
  | FilterManagerInit | FilterManagerInsertFilter | FilterManagerFinalize
  | FilterManagerRunFilters | FilterManagerFree
  | AggHashTableInit | AggHashTableInsert | AggHashTableLookup
  | AggHashTableProcessBatch | AggHashTableMovePartitions
  | AggHashTableParallelPartitionedScan | AggHashTableFree
  | AggHashTableIterInit | AggHashTableIterHasNext | AggHashTableIterNext
  | AggHashTableIterGetRow | AggHashTableIterClose
  | AggPartIterHasNext | AggPartIterNext | AggPartIterGetRow | AggPartIterGetHash
  | AggInit | AggAdvance | AggMerge | AggReset | AggResult
  | JoinHashTableInit | JoinHashTableInsert | JoinHashTableIterInit
  | JoinHashTableIterHasNext | JoinHashTableIterGetRow | JoinHashTableIterClose
  | JoinHashTableBuild | JoinHashTableBuildParallel | JoinHashTableFree
  | SorterInit | SorterInsert | SorterSort | SorterSortParallel
  | SorterSortTopKParallel | SorterFree
  | SorterIterInit | SorterIterHasNext | SorterIterNext | SorterIterGetRow
  | SorterIterClose
  | SizeOf
  | OutputAlloc | OutputAdvance | OutputSetNull | OutputFinalize
  | Insert
  | IndexIteratorInit | IndexIteratorScanKey | IndexIteratorFree
  | ACos | ASin | ATan | ATan2 | Cos | Cot | Sin | Tan
  | PtrCast.

(** What the checkers hand to the error reporter: the [ErrorMessages] of
    sema_builtin.cpp with the arguments passed to [Report].  [Core] wraps
    the two kinds of the earlier sections.  [kBadHashArg] is reported at
    the position of the offending argument, kept here as its index. *)
Inductive Message : Set :=
  | Core (d : Sema.Diagnostic)
  | InvalidSqlCastToBool (input : Type_)
  | NotASQLAggregate (actual : Type_)
  | BadEqualityFunctionForJHTGetNext (actual : Type_) (index : nat)
  | BadPointerForJHTGetNext (actual : Type_) (index : nat)
  | BadParallelScanFunction (actual : Type_)
  | BadHashArg (position : nat) (actual : Type_)
  | BadComparisonFunctionForSorter (actual : Type_)
  | BadArgToIndexIteratorScanKey (actual : Type_) (index : nat)
  | BadArgToIndexIteratorFree (actual : Type_) (index : nat).

(** The analyzer at work on one call: the shared error reporter, and the
    call expression, which a checker may rewrite ([set_argument]) and whose
    type it resolves ([set_type]). *)
Record SemaState : Set := mkSema {
  error_reporter : list Message;
  call : CallExpr;
  call_type : option Type_
}.

Inductive step (A : Type) : Type :=
  | Next (a : A) (s : SemaState)
  | Return (s : SemaState)
  | Undefined.
Arguments Next {A} a s.
Arguments Return {A} s.
Arguments Undefined {A}.

Definition check (A : Type) : Type := SemaState -> step A.

#[global] Instance check_ret : MRet check := fun A a s => Next a s.
#[global] Instance check_bind : MBind check := fun A B k m s =>
  match m s with
  | Next a s' => k a s'
  | Return s' => Return s'
  | Undefined => Undefined
  end.

(** [return;] *)
Definition return_ {A} : check A := fun s => Return s.
(** [UNREACHABLE(...)] and out-of-range reads. *)
Definition undefined {A} : check A := fun _ => Undefined.

(** [error_reporter()->Report(...)] *)
Definition Report (m : Message) : check unit := fun s =>
  Next tt {| error_reporter := error_reporter s ++ [m]; call := call s;
             call_type := call_type s |}.

(** [call->set_type(t)] *)
Definition set_type (t : Type_) : check unit := fun s =>
  Next tt {| error_reporter := error_reporter s; call := call s;
             call_type := Some t |}.

(** [call->set_argument(i, e)] *)
Definition set_argument (i : nat) (e : Expr) : check unit := fun s =>
  Next tt {| error_reporter := error_reporter s;
             call := mkCall (GetFuncName (call s)) (<[i := e]> (arguments (call s)));
             call_type := call_type s |}.

(** [call->num_args()] and [call->GetFuncName()] *)
Definition get_num_args : check nat := fun s => Next (num_args (call s)) s.
Definition get_name : check string := fun s => Next (GetFuncName (call s)) s.
(** [call->arguments()], the whole vector. *)
Definition get_arguments : check (list Expr) := fun s => Next (arguments (call s)) s.

(** [call->arguments()[i]]: reading past the end is undefined. *)
Definition args (i : nat) : check Expr := fun s =>
  match arguments (call s) !! i with
  | Some e => Next e s
  | None => Undefined
  end.

(** [if (cond) { body; return; }] *)
Definition bail_if (cond : bool) (body : check unit) : check unit :=
  if cond then body ;; return_ else mret tt.

(** Modelled from the spec: [Sema::CheckArgCount], as in the earlier
    sections. *)
Definition CheckArgCount (expected : nat) : check bool :=
  n ← get_num_args; name ← get_name;
  if bool_decide (n = expected) then mret true
  else Report (Core (Sema.MismatchedCallArgs name expected n)) ;; mret false.

(** Modelled from the spec: [Sema::CheckArgCountAtLeast]. *)
Definition CheckArgCountAtLeast (expected : nat) : check bool :=
  n ← get_num_args; name ← get_name;
  if bool_decide (expected <= n) then mret true
  else Report (Core (Sema.MismatchedCallArgs name expected n)) ;; mret false.

(** Modelled from the spec: [Sema::ReportIncorrectCallArg]. *)
Definition ReportIncorrectCallArg (index : nat) (expected : Sema.Expected)
    : check unit :=
  a ← args index; name ← get_name;
  Report (Core (Sema.IncorrectCallArgType name expected index (type a))).

(** The type a diagnostic expects. *)
Definition expect (t : Type_) : Sema.Expected := Sema.ExpectedType t.
Definition pointer_to (kind : Kind) : Type_ := PointerTo (GetBuiltinType kind).

#[local] Abbreviation IsPointerToSpecificBuiltin := Sema.IsPointerToSpecificBuiltin.

Section Checkers.
Context `{AstContext}.

Definition IsPointerToSQLValue (t : Type_) : bool :=
  match GetPointeeType t with
  | Some pointee_type => IsSqlValueType pointee_type
  | None => false
  end.

Definition IsPointerToAggregatorValue (t : Type_) : bool :=
  match GetPointeeType t with
  | Some pointee_type => IsSqlAggregatorType pointee_type
  | None => false
  end.

(** Runs one of the checkers of the earlier sections on the call at hand
    and files its diagnostics with the shared reporter. *)
Definition earlier (checker : CallExpr -> Sema.sema unit) : check unit := fun s =>
  let file (s0 : Sema.SemaState) : SemaState :=
    {| error_reporter := error_reporter s ++ (Core <$> Sema.error_reporter s0);
       call := call s;
       call_type := Sema.call_type s0 |} in
  match checker (call s) {| Sema.error_reporter := []; Sema.call_type := call_type s |} with
  | Sema.Next _ s0 => Next tt (file s0)
  | Sema.Return s0 => Return (file s0)
  | Sema.Undefined => Undefined
  end.

(** ** The checkers *)

(** [Sema::CheckBuiltinSqlConversionCall], sema_builtin.cpp:41. *)
Definition CheckBuiltinSqlConversionCall (builtin : Builtin) : check unit :=
  ok ← CheckArgCount 1;
  bail_if (negb ok) (mret tt) ;;
  a0 ← args 0;
  let input_type := type a0 in
  match builtin with
  | BoolToSql =>
      bail_if (negb (IsSpecificBuiltin input_type Bool))
        (Report (InvalidSqlCastToBool input_type)) ;;
      set_type (GetBuiltinType Boolean)
  | IntToSql =>
      bail_if (negb (IsIntegerType input_type))
        (Report (InvalidSqlCastToBool input_type)) ;;
      set_type (GetBuiltinType Integer)
  | FloatToSql =>
      bail_if (negb (IsFloatType input_type))
        (Report (InvalidSqlCastToBool input_type)) ;;
      set_type (GetBuiltinType Real)
  | SqlToBool =>
      bail_if (negb (IsSpecificBuiltin input_type Boolean))
        (Report (InvalidSqlCastToBool input_type)) ;;
      set_type (GetBuiltinType Bool)
  | _ => undefined (* UNREACHABLE("Impossible SQL conversion call") *)
  end.

(** [Sema::CheckBuiltinFilterCall], sema_builtin.cpp:88. *)
Definition CheckBuiltinFilterCall : check unit :=
  ok ← CheckArgCount 3;
  bail_if (negb ok) (mret tt) ;;
  (* The first call argument must be a pointer to a ProjectedColumnsIterator *)
  let pci_kind := ProjectedColumnsIterator in
  a0 ← args 0;
  bail_if (negb (IsPointerToSpecificBuiltin (type a0) pci_kind))
    (ReportIncorrectCallArg 0 (expect (pointer_to pci_kind))) ;;
  (* The second call argument must an integer for the column index *)
  let int32_kind := Int32 in
  a1 ← args 1;
  bail_if (negb (IsSpecificBuiltin (type a1) int32_kind))
    (ReportIncorrectCallArg 1 (expect (GetBuiltinType int32_kind))) ;;
  (* Set return type *)
  set_type (GetBuiltinType Int32).

(** [Sema::CheckBuiltinAggHashTableIterCall], sema_builtin.cpp:265. *)
Definition CheckBuiltinAggHashTableIterCall (builtin : Builtin) : check unit :=
  ok ← CheckArgCountAtLeast 1;
  bail_if (negb ok) (mret tt) ;;
  let agg_ht_iter_kind := AggregationHashTableIterator in
  a0 ← args 0;
  bail_if (negb (IsPointerToSpecificBuiltin (type a0) agg_ht_iter_kind))
    (ReportIncorrectCallArg 0 (expect (pointer_to agg_ht_iter_kind))) ;;
  match builtin with
  | AggHashTableIterInit =>
      ok ← CheckArgCount 2;
      bail_if (negb ok) (mret tt) ;;
      let agg_ht_kind := AggregationHashTable in
      a1 ← args 1;
      bail_if (negb (IsPointerToSpecificBuiltin (type a1) agg_ht_kind))
        (ReportIncorrectCallArg 1 (expect (pointer_to agg_ht_kind))) ;;
      set_type (GetBuiltinType Nil)
  | AggHashTableIterHasNext =>
      ok ← CheckArgCount 1;
      bail_if (negb ok) (mret tt) ;;
      set_type (GetBuiltinType Bool)
  | AggHashTableIterNext =>
      ok ← CheckArgCount 1;
      bail_if (negb ok) (mret tt) ;;
      set_type (GetBuiltinType Nil)
  | AggHashTableIterGetRow =>
      ok ← CheckArgCount 1;
      bail_if (negb ok) (mret tt) ;;
      let byte_kind := Uint8 in
      set_type (pointer_to byte_kind)
  | AggHashTableIterClose =>
      ok ← CheckArgCount 1;
      bail_if (negb ok) (mret tt) ;;
      set_type (GetBuiltinType Nil)
  | _ => undefined (* UNREACHABLE("Impossible aggregation hash table iterator call") *)
  end.

(** [Sema::CheckBuiltinAggPartIterCall], sema_builtin.cpp:327. *)
Definition CheckBuiltinAggPartIterCall (builtin : Builtin) : check unit :=
  ok ← CheckArgCount 1;
  bail_if (negb ok) (mret tt) ;;
  let part_iter_kind := AggOverflowPartIter in
  a0 ← args 0;
  bail_if (negb (IsPointerToSpecificBuiltin (type a0) part_iter_kind))
    (ReportIncorrectCallArg 0 (expect (pointer_to part_iter_kind))) ;;
  match builtin with
  | AggPartIterHasNext => set_type (GetBuiltinType Bool)
  | AggPartIterNext => set_type (GetBuiltinType Nil)
  | AggPartIterGetRow =>
      let byte_kind := Uint8 in
      set_type (pointer_to byte_kind)
  | AggPartIterGetHash =>
      let hash_val_kind := Uint64 in
      set_type (GetBuiltinType hash_val_kind)
  | _ => undefined (* UNREACHABLE("Impossible aggregation partition iterator call") *)
  end.

(** A loop over the arguments from position [idx] on,
    [for (...) { body }]; a [return] in the body leaves the checker. *)
Fixpoint for_each (body : nat -> Expr -> check unit) (idx : nat)
    (arguments : list Expr) : check unit :=
  match arguments with
  | [] => mret tt
  | arg :: arguments' => body idx arg ;; for_each body (S idx) arguments'
  end.

(** [Sema::CheckBuiltinAggregatorCall], sema_builtin.cpp:365. *)
Definition CheckBuiltinAggregatorCall (builtin : Builtin) : check unit :=
  match builtin with
  | AggInit | AggReset =>
      (* All arguments to @aggInit() or @aggReset() must be SQL aggregators *)
      arguments ← get_arguments;
      for_each (fun idx arg =>
        bail_if (negb (IsPointerToAggregatorValue (type arg)))
          (Report (NotASQLAggregate (type arg)))) 0 arguments ;;
      (* Init returns nil *)
      set_type (GetBuiltinType Nil)
  | AggAdvance =>
      ok ← CheckArgCount 2;
      bail_if (negb ok) (mret tt) ;;
      (* First argument to @aggAdvance() must be a SQL aggregator, second must
         be a SQL value *)
      a0 ← args 0;
      bail_if (negb (IsPointerToAggregatorValue (type a0)))
        (Report (NotASQLAggregate (type a0))) ;;
      a1 ← args 1;
      bail_if (negb (IsPointerToSQLValue (type a1)))
        (Report (NotASQLAggregate (type a1))) ;;
      (* Advance returns nil *)
      set_type (GetBuiltinType Nil)
  | AggMerge =>
      ok ← CheckArgCount 2;
      bail_if (negb ok) (mret tt) ;;
      (* Both arguments must be SQL aggregators *)
      a0 ← args 0; a1 ← args 1;
      let arg0_is_agg := IsPointerToAggregatorValue (type a0) in
      let arg1_is_agg := IsPointerToAggregatorValue (type a1) in
      bail_if (negb arg0_is_agg || negb arg1_is_agg)
        (Report (NotASQLAggregate (if negb arg0_is_agg then type a0 else type a1))) ;;
      (* Merge returns nil *)
      set_type (GetBuiltinType Nil)
  | AggResult =>
      ok ← CheckArgCount 1;
      bail_if (negb ok) (mret tt) ;;
      (* Argument must be a SQL aggregator *)
      a0 ← args 0;
      bail_if (negb (IsPointerToAggregatorValue (type a0)))
        (Report (NotASQLAggregate (type a0))) ;;
      (* TODO(pmenon): Fix me! *)
      set_type (GetBuiltinType Integer)
  | _ => undefined (* UNREACHABLE("Impossible aggregator call") *)
  end.

(** [Sema::CheckBuiltinJoinHashTableInit], sema_builtin.cpp:442. *)
Definition CheckBuiltinJoinHashTableInit : check unit :=
  ok ← CheckArgCount 3;
  bail_if (negb ok) (mret tt) ;;
  (* First argument must be a pointer to a JoinHashTable *)
  let jht_kind := JoinHashTable in
  a0 ← args 0;
  bail_if (negb (IsPointerToSpecificBuiltin (type a0) jht_kind))
    (ReportIncorrectCallArg 0 (expect (pointer_to jht_kind))) ;;
  (* Second argument must be a pointer to a MemoryPool *)
  let region_kind := MemoryPool in
  a1 ← args 1;
  bail_if (negb (IsPointerToSpecificBuiltin (type a1) region_kind))
    (ReportIncorrectCallArg 1 (expect (pointer_to region_kind))) ;;
  (* Third and last argument must be a 32-bit number representing the tuple size *)
  a2 ← args 2;
  bail_if (negb (IsIntegerType (type a2)))
    (ReportIncorrectCallArg 2 (expect (GetBuiltinType Uint32))) ;;
  (* This call returns nothing *)
  set_type (GetBuiltinType Nil).

(** [Sema::CheckBuiltinJoinHashTableInsert], sema_builtin.cpp:473. *)
Definition CheckBuiltinJoinHashTableInsert : check unit :=
  ok ← CheckArgCount 2;
  bail_if (negb ok) (mret tt) ;;
  (* First argument is a pointer to a JoinHashTable *)
  let jht_kind := JoinHashTable in
  a0 ← args 0;
  bail_if (negb (IsPointerToSpecificBuiltin (type a0) jht_kind))
    (ReportIncorrectCallArg 0 (expect (pointer_to jht_kind))) ;;
  (* Second argument is a 64-bit unsigned hash value *)
  a1 ← args 1;
  bail_if (negb (IsSpecificBuiltin (type a1) Uint64))
    (ReportIncorrectCallArg 1 (expect (GetBuiltinType Uint64))) ;;
  (* This call returns a byte pointer *)
  let byte_kind := Uint8 in
  set_type (pointer_to byte_kind).

(** [Sema::CheckBuiltinJoinHashTableBuild], sema_builtin.cpp:498. *)
Definition CheckBuiltinJoinHashTableBuild (builtin : Builtin) : check unit :=
  ok ← CheckArgCountAtLeast 1;
  bail_if (negb ok) (mret tt) ;;
  (* The first and only argument must be a pointer to a JoinHashTable *)
  let jht_kind := JoinHashTable in
  a0 ← args 0;
  bail_if (negb (IsPointerToSpecificBuiltin (type a0) jht_kind))
    (ReportIncorrectCallArg 0 (expect (pointer_to jht_kind))) ;;
  match builtin with
  | JoinHashTableBuild => mret tt
  | JoinHashTableBuildParallel =>
      ok ← CheckArgCount 3;
      bail_if (negb ok) (mret tt) ;;
      (* Second argument must be a thread state container pointer *)
      let tls_kind := ThreadStateContainer in
      a1 ← args 1;
      bail_if (negb (IsPointerToSpecificBuiltin (type a1) tls_kind))
        (ReportIncorrectCallArg 1 (expect (pointer_to tls_kind))) ;;
      (* Third argument must be a 32-bit integer representing the offset *)
      let uint32_kind := Uint32 in
      a2 ← args 2;
      bail_if (negb (IsSpecificBuiltin (type a2) uint32_kind))
        (ReportIncorrectCallArg 2 (expect (GetBuiltinType uint32_kind)))
  | _ => undefined (* UNREACHABLE("Impossible join hash table build call") *)
  end ;;
  (* This call returns nothing *)
  set_type (GetBuiltinType Nil).

(** [Sema::CheckBuiltinJoinHashTableFree], sema_builtin.cpp:542. *)
Definition CheckBuiltinJoinHashTableFree : check unit :=
  ok ← CheckArgCount 1;
  bail_if (negb ok) (mret tt) ;;
  (* The first and only argument must be a pointer to a JoinHashTable *)
  let jht_kind := JoinHashTable in
  a0 ← args 0;
  bail_if (negb (IsPointerToSpecificBuiltin (type a0) jht_kind))
    (ReportIncorrectCallArg 0 (expect (pointer_to jht_kind))) ;;
  (* This call returns nothing *)
  set_type (GetBuiltinType Nil).

(** [Sema::CheckBuiltinJoinHashTableIterInit], sema_builtin.cpp:560. *)
Definition CheckBuiltinJoinHashTableIterInit : check unit :=
  ok ← CheckArgCount 3;
  bail_if (negb ok) (mret tt) ;;
  (* First argument is a pointer to a JoinHashTableIterator *)
  let jht_iterator_kind := JoinHashTableIterator in
  a0 ← args 0;
  bail_if (negb (IsPointerToSpecificBuiltin (type a0) jht_iterator_kind))
    (ReportIncorrectCallArg 0 (expect (pointer_to jht_iterator_kind))) ;;
  (* Second argument is a pointer to a JoinHashTable *)
  let jht_kind := JoinHashTable in
  a1 ← args 1;
  bail_if (negb (IsPointerToSpecificBuiltin (type a1) jht_kind))
    (ReportIncorrectCallArg 1 (expect (pointer_to jht_kind))) ;;
  (* Third argument is a 64-bit unsigned hash value *)
  a2 ← args 2;
  bail_if (negb (IsSpecificBuiltin (type a2) Uint64))
    (ReportIncorrectCallArg 2 (expect (GetBuiltinType Uint64))) ;;
  (* This call returns nothing *)
  set_type (GetBuiltinType Nil).

(** The test on the key equality function of [JoinHashTableIterHasNext]:
    a function of three pointer parameters returning [Bool]. *)
Definition is_key_equality_function (t : Type_) : bool :=
  match t with
  | FunctionType [p0; p1; p2] ret =>
      IsSpecificBuiltin ret Bool && IsPointerType p0 && IsPointerType p1
      && IsPointerType p2
  | _ => false
  end.

(** [Sema::CheckBuiltinJoinHashTableIterHasNext], sema_builtin.cpp:591. *)
Definition CheckBuiltinJoinHashTableIterHasNext : check unit :=
  ok ← CheckArgCount 4;
  bail_if (negb ok) (mret tt) ;;
  (* First argument is a pointer to a JoinHashTableIterator *)
  let jht_iterator_kind := JoinHashTableIterator in
  a0 ← args 0;
  bail_if (negb (IsPointerToSpecificBuiltin (type a0) jht_iterator_kind))
    (ReportIncorrectCallArg 0 (expect (pointer_to jht_iterator_kind))) ;;
  (* Second argument is a key equality function *)
  a1 ← args 1;
  bail_if (negb (is_key_equality_function (type a1)))
    (Report (BadEqualityFunctionForJHTGetNext (type a1) 1)) ;;
  (* Third argument is an arbitrary pointer *)
  a2 ← args 2;
  bail_if (negb (IsPointerType (type a2)))
    (Report (BadPointerForJHTGetNext (type a2) 2)) ;;
  (* Fourth argument is an arbitrary pointer *)
  a3 ← args 3;
  bail_if (negb (IsPointerType (type a3)))
    (Report (BadPointerForJHTGetNext (type a3) 3)) ;;
  (* This call returns a bool *)
  set_type (GetBuiltinType Bool).

(** [Sema::CheckBuiltinJoinHashTableIterGetRow], sema_builtin.cpp:631. *)
Definition CheckBuiltinJoinHashTableIterGetRow : check unit :=
  ok ← CheckArgCount 1;
  bail_if (negb ok) (mret tt) ;;
  (* The first argument is a pointer to a JoinHashTableIterator *)
  let jht_iterator_kind := JoinHashTableIterator in
  a0 ← args 0;
  bail_if (negb (IsPointerToSpecificBuiltin (type a0) jht_iterator_kind))
    (ReportIncorrectCallArg 0 (expect (pointer_to jht_iterator_kind))) ;;
  (* This call returns a byte pointer *)
  let byte_kind := Uint8 in
  set_type (pointer_to byte_kind).

(** [Sema::CheckBuiltinJoinHashTableIterClose], sema_builtin.cpp:650. *)
Definition CheckBuiltinJoinHashTableIterClose : check unit :=
  ok ← CheckArgCount 1;
  bail_if (negb ok) (mret tt) ;;
  (* The first argument is a pointer to a JoinHashTableIterator *)
  let jht_iterator_kind := JoinHashTableIterator in
  a0 ← args 0;
  bail_if (negb (IsPointerToSpecificBuiltin (type a0) jht_iterator_kind))
    (ReportIncorrectCallArg 0 (expect (pointer_to jht_iterator_kind))) ;;
  (* This call returns nothing *)
  set_type (GetBuiltinType Nil).

(** [Sema::CheckBuiltinExecutionContextCall], sema_builtin.cpp:668. *)
Definition CheckBuiltinExecutionContextCall (builtin : Builtin) : check unit :=
  ok ← CheckArgCount 1;
  bail_if (negb ok) (mret tt) ;;
  let exec_ctx_kind := ExecutionContext in
  a0 ← args 0;
  bail_if (negb (IsPointerToSpecificBuiltin (type a0) exec_ctx_kind))
    (ReportIncorrectCallArg 0 (expect (pointer_to exec_ctx_kind))) ;;
  let mem_pool_kind := MemoryPool in
  set_type (pointer_to mem_pool_kind).

(** [Sema::CheckBuiltinThreadStateContainerCall], sema_builtin.cpp:686. *)
Definition CheckBuiltinThreadStateContainerCall (builtin : Builtin) : check unit :=
  ok ← CheckArgCountAtLeast 1;
  bail_if (negb ok) (mret tt) ;;
  (* First argument must be thread state container pointer *)
  let tls_kind := ThreadStateContainer in
  a0 ← args 0;
  bail_if (negb (IsPointerToSpecificBuiltin (type a0) tls_kind))
    (ReportIncorrectCallArg 0 (expect (pointer_to tls_kind))) ;;
  match builtin with
  | ThreadStateContainerInit =>
      ok ← CheckArgCount 2;
      bail_if (negb ok) (mret tt) ;;
      (* Second argument is a MemoryPool *)
      let mem_pool_kind := MemoryPool in
      a1 ← args 1;
      bail_if (negb (IsPointerToSpecificBuiltin (type a1) mem_pool_kind))
        (ReportIncorrectCallArg 1 (expect (pointer_to mem_pool_kind)))
  | ThreadStateContainerFree => mret tt
  | ThreadStateContainerReset =>
      ok ← CheckArgCount 5;
      bail_if (negb ok) (mret tt) ;;
      (* Second argument must be an integer size of the state *)
      let uint_kind := Uint32 in
      a1 ← args 1;
      bail_if (negb (IsSpecificBuiltin (type a1) uint_kind))
        (ReportIncorrectCallArg 1 (expect (GetBuiltinType uint_kind))) ;;
      (* Third and fourth arguments must be functions *)
      a2 ← args 2; a3 ← args 3;
      bail_if (negb (IsFunctionType (type a2)) || negb (IsFunctionType (type a3)))
        (ReportIncorrectCallArg 2 (expect (GetBuiltinType Uint32))) ;;
      (* Fifth argument must be a pointer to something or nil *)
      a4 ← args 4;
      bail_if (negb (IsPointerType (type a4)) && negb (IsNilType (type a4)))
        (ReportIncorrectCallArg 4 (expect (GetBuiltinType Uint32)))
  | ThreadStateContainerIterate =>
      ok ← CheckArgCount 3;
      bail_if (negb ok) (mret tt) ;;
      (* Second argument is a pointer to some context *)
      a1 ← args 1;
      bail_if (negb (IsPointerType (type a1)))
        (ReportIncorrectCallArg 1 (expect (GetBuiltinType Uint32))) ;;
      (* Third argument is the iteration function callback *)
      a2 ← args 2;
      bail_if (negb (IsFunctionType (type a2)))
        (ReportIncorrectCallArg 2 (expect (GetBuiltinType Uint32)))
  | _ => undefined (* UNREACHABLE("Impossible table iteration call") *)
  end ;;
  (* All these calls return nil *)
  set_type (GetBuiltinType Nil).

(** [Sema::CheckBuiltinTableIterParCall], sema_builtin.cpp:819. *)
Definition CheckBuiltinTableIterParCall : check unit :=
  ok ← CheckArgCount 4;
  bail_if (negb ok) (mret tt) ;;
  (* First argument is table name as a string literal *)
  a0 ← args 0;
  bail_if (negb (IsStringLiteral a0))
    (ReportIncorrectCallArg 0 (expect StringType)) ;;
  (* Second argument is an opaque query state. For now, check it's a pointer. *)
  let void_kind := Nil in
  a1 ← args 1;
  bail_if (negb (IsPointerType (type a1)))
    (ReportIncorrectCallArg 1 (expect (pointer_to void_kind))) ;;
  (* Third argument is the thread state container *)
  let tls_kind := ThreadStateContainer in
  a2 ← args 2;
  bail_if (negb (IsPointerToSpecificBuiltin (type a2) tls_kind))
    (ReportIncorrectCallArg 2 (expect (pointer_to tls_kind))) ;;
  (* Third argument is scanner function *)
  a3 ← args 3;
  match type a3 with
  | FunctionType params _ =>
      (* Check type *)
      let tvi_kind := TableVectorIterator in
      bail_if
        match params with
        | [p0; p1; p2] =>
            negb (IsPointerType p0) || negb (IsPointerType p1)
            || negb (IsPointerToSpecificBuiltin p2 tvi_kind)
        | _ => true (* params.size() != 3 *)
        end
        (Report (BadParallelScanFunction (type a3)))
  | _ => Report (BadParallelScanFunction (type a3)) ;; return_
  end ;;
  (* Nil *)
  set_type (GetBuiltinType Nil).

(** [Sema::CheckBuiltinPCICall], sema_builtin.cpp:865. *)
Definition CheckBuiltinPCICall (builtin : Builtin) : check unit :=
  ok ← CheckArgCountAtLeast 1;
  bail_if (negb ok) (mret tt) ;;
  (* The first argument must be a *PCI *)
  let pci_kind := ProjectedColumnsIterator in
  a0 ← args 0;
  bail_if (negb (IsPointerToSpecificBuiltin (type a0) pci_kind))
    (ReportIncorrectCallArg 0 (expect (pointer_to pci_kind))) ;;
  match builtin with
  | PCIIsFiltered | PCIHasNext | PCIHasNextFiltered | PCIAdvance
  | PCIAdvanceFiltered | PCIReset | PCIResetFiltered =>
      set_type (GetBuiltinType Bool)
  | PCIMatch =>
      ok ← CheckArgCount 2;
      bail_if (negb ok) (mret tt) ;;
      (* If the match argument is a SQL boolean, implicitly cast to native *)
      a1 ← args 1;
      match_arg ←
        (if IsSpecificBuiltin (type a1) Boolean
         then let match_arg :=
                ImplCastExprToType a1 (GetBuiltinType Bool) SqlBoolToBool in
              set_argument 1 match_arg ;; mret match_arg
         else mret a1);
      (* If the match argument isn't a native boolean , error *)
      bail_if (negb (IsBoolType (type match_arg)))
        (ReportIncorrectCallArg 1 (expect (GetBuiltinType Bool))) ;;
      set_type (GetBuiltinType Nil)
  | PCIGetSmallInt | PCIGetInt | PCIGetBigInt =>
      set_type (GetBuiltinType Integer)
  | PCIGetReal | PCIGetDouble =>
      set_type (GetBuiltinType Real)
  | _ => undefined (* UNREACHABLE("Impossible PCI call") *)
  end.

(** [Sema::CheckBuiltinHashCall], sema_builtin.cpp:923. *)
Definition CheckBuiltinHashCall (builtin : Builtin) : check unit :=
  ok ← CheckArgCountAtLeast 1;
  bail_if (negb ok) (mret tt) ;;
  (* All arguments must be SQL types *)
  arguments ← get_arguments;
  for_each (fun position arg =>
    bail_if (negb (IsSqlValueType (type arg)))
      (Report (BadHashArg position (type arg)))) 0 arguments ;;
  (* Result is a hash value *)
  set_type (GetBuiltinType Uint64).

(** The test of [FilterManagerInsertFilter] on each further argument: a
    function of one pointer-to-PCI parameter returning an integer. *)
Definition is_filter_function (t : Type_) : bool :=
  match t with
  | FunctionType params ret =>
      IsIntegerType ret &&
      match params with
      | [p0] => IsPointerToSpecificBuiltin p0 ProjectedColumnsIterator
      | _ => false
      end
  | _ => false
  end.

(** [Sema::CheckBuiltinFilterManagerCall], sema_builtin.cpp:940. *)
Definition CheckBuiltinFilterManagerCall (builtin : Builtin) : check unit :=
  ok ← CheckArgCountAtLeast 1;
  bail_if (negb ok) (mret tt) ;;
  (* The first argument must be a *FilterManagerBuilder *)
  let fm_kind := FilterManager in
  a0 ← args 0;
  bail_if (negb (IsPointerToSpecificBuiltin (type a0) fm_kind))
    (ReportIncorrectCallArg 0 (expect (pointer_to fm_kind))) ;;
  match builtin with
  | FilterManagerInit | FilterManagerFinalize | FilterManagerFree =>
      set_type (GetBuiltinType Nil)
  | FilterManagerInsertFilter =>
      arguments ← get_arguments;
      for_each (fun arg_idx arg =>
        bail_if (negb (is_filter_function (type arg)))
          (name ← get_name;
           Report (Core (Sema.IncorrectCallArgType name
                           (expect (pointer_to fm_kind)) arg_idx (type arg)))))
        1 (drop 1 arguments) ;;
      set_type (GetBuiltinType Nil)
  | FilterManagerRunFilters =>
      let pci_kind := ProjectedColumnsIterator in
      a1 ← args 1;
      bail_if (negb (IsPointerToSpecificBuiltin (type a1) pci_kind))
        (ReportIncorrectCallArg 1 (expect (pointer_to pci_kind))) ;;
      set_type (GetBuiltinType Nil)
  | _ => undefined (* UNREACHABLE("Impossible FilterManager call") *)
  end.

(** [Sema::CheckMathTrigCall], sema_builtin.cpp:995. *)
Definition CheckMathTrigCall (builtin : Builtin) : check unit :=
  let real_kind := Real in
  match builtin with
  | ATan2 =>
      ok ← CheckArgCount 2;
      bail_if (negb ok) (mret tt) ;;
      a0 ← args 0; a1 ← args 1;
      bail_if (negb (IsSpecificBuiltin (type a0) real_kind)
               || negb (IsSpecificBuiltin (type a1) real_kind))
        (ReportIncorrectCallArg 1 (expect (GetBuiltinType real_kind)))
  | Cos | Cot | Sin | Tan | ACos | ASin | ATan =>
      ok ← CheckArgCount 1;
      bail_if (negb ok) (mret tt) ;;
      a0 ← args 0;
      bail_if (negb (IsSpecificBuiltin (type a0) real_kind))
        (ReportIncorrectCallArg 0 (expect (GetBuiltinType real_kind)))
  | _ => undefined (* UNREACHABLE("Impossible math trig function call") *)
  end ;;
  (* Trig functions return real values *)
  set_type (GetBuiltinType real_kind).

(** [Sema::CheckBuiltinSizeOfCall], sema_builtin.cpp:1034. *)
Definition CheckBuiltinSizeOfCall : check unit :=
  ok ← CheckArgCount 1;
  bail_if (negb ok) (mret tt) ;;
  (* This call returns an unsigned 32-bit value for the size of the type *)
  set_type (GetBuiltinType Uint32).

(** The test of [SorterInit] on the comparison function: two pointer
    parameters, returning [Int32]. *)
Definition is_comparison_function (t : Type_) : bool :=
  match t with
  | FunctionType [p0; p1] ret =>
      IsSpecificBuiltin ret Int32 && IsPointerType p0 && IsPointerType p1
  | _ => false
  end.

(** [Sema::CheckBuiltinSorterInit], sema_builtin.cpp:1080. *)
Definition CheckBuiltinSorterInit : check unit :=
  ok ← CheckArgCount 4;
  bail_if (negb ok) (mret tt) ;;
  (* First argument must be a pointer to a Sorter *)
  let sorter_kind := Sorter in
  a0 ← args 0;
  bail_if (negb (IsPointerToSpecificBuiltin (type a0) sorter_kind))
    (ReportIncorrectCallArg 0 (expect (pointer_to sorter_kind))) ;;
  (* Second argument must be a pointer to a MemoryPool *)
  let mem_kind := MemoryPool in
  a1 ← args 1;
  bail_if (negb (IsPointerToSpecificBuiltin (type a1) mem_kind))
    (ReportIncorrectCallArg 1 (expect (pointer_to mem_kind))) ;;
  (* Second argument must be a function *)
  a2 ← args 2;
  bail_if (negb (is_comparison_function (type a2)))
    (Report (BadComparisonFunctionForSorter (type a2))) ;;
  (* Third and last argument must be a 32-bit number representing the tuple size *)
  let uint_kind := Uint32 in
  a3 ← args 3;
  bail_if (negb (IsSpecificBuiltin (type a3) uint_kind))
    (ReportIncorrectCallArg 3 (expect (GetBuiltinType uint_kind))) ;;
  (* This call returns nothing *)
  set_type (GetBuiltinType Nil).

(** [Sema::CheckBuiltinSorterInsert], sema_builtin.cpp:1121. *)
Definition CheckBuiltinSorterInsert : check unit :=
  ok ← CheckArgCount 1;
  bail_if (negb ok) (mret tt) ;;
  (* First argument must be a pointer to a Sorter *)
  let sorter_kind := Sorter in
  a0 ← args 0;
  bail_if (negb (IsPointerToSpecificBuiltin (type a0) sorter_kind))
    (ReportIncorrectCallArg 0 (expect (pointer_to sorter_kind))) ;;
  (* This call returns nothing *)
  set_type (pointer_to Uint8).

(** [Sema::CheckBuiltinSorterSort], sema_builtin.cpp:1137. *)
Definition CheckBuiltinSorterSort (builtin : Builtin) : check unit :=
  ok ← CheckArgCountAtLeast 1;
  bail_if (negb ok) (mret tt) ;;
  (* First argument must be a pointer to a Sorter *)
  let sorter_kind := Sorter in
  a0 ← args 0;
  bail_if (negb (IsPointerToSpecificBuiltin (type a0) sorter_kind))
    (ReportIncorrectCallArg 0 (expect (pointer_to sorter_kind))) ;;
  match builtin with
  | SorterSort =>
      ok ← CheckArgCount 1;
      bail_if (negb ok) (mret tt)
  | SorterSortParallel | SorterSortTopKParallel =>
      let tls_kind := ThreadStateContainer in
      a1 ← args 1;
      bail_if (negb (IsPointerToSpecificBuiltin (type a1) tls_kind))
        (ReportIncorrectCallArg 1 (expect (pointer_to tls_kind))) ;;
      (* Third argument must be a 32-bit integer representing the offset *)
      let uint32_kind := Uint32 in
      a2 ← args 2;
      bail_if (negb (IsSpecificBuiltin (type a2) uint32_kind))
        (ReportIncorrectCallArg 2 (expect (GetBuiltinType uint32_kind))) ;;
      match builtin with
      | SorterSortTopKParallel =>
          ok ← CheckArgCount 4;
          bail_if (negb ok) (mret tt) ;;
          (* Last argument must be the TopK value *)
          let uint64_kind := Uint64 in
          a3 ← args 3;
          bail_if (negb (IsSpecificBuiltin (type a3) uint64_kind))
            (ReportIncorrectCallArg 3 (expect (GetBuiltinType uint64_kind)))
      | _ => mret tt
      end
  | _ => undefined (* UNREACHABLE("Impossible sorter sort call") *)
  end ;;
  (* This call returns nothing *)
  set_type (GetBuiltinType Nil).

(** [Sema::CheckBuiltinSorterFree], sema_builtin.cpp:1193. *)
Definition CheckBuiltinSorterFree : check unit :=
  ok ← CheckArgCount 1;
  bail_if (negb ok) (mret tt) ;;
  (* First argument must be a pointer to a Sorter *)
  let sorter_kind := Sorter in
  a0 ← args 0;
  bail_if (negb (IsPointerToSpecificBuiltin (type a0) sorter_kind))
    (ReportIncorrectCallArg 0 (expect (pointer_to sorter_kind))) ;;
  (* This call returns nothing *)
  set_type (GetBuiltinType Nil).

(** [Sema::CheckBuiltinSorterIterCall], sema_builtin.cpp:1209. *)
Definition CheckBuiltinSorterIterCall (builtin : Builtin) : check unit :=
  ok ← CheckArgCountAtLeast 1;
  bail_if (negb ok) (mret tt) ;;
  let sorter_iter_kind := SorterIterator in
  a0 ← args 0;
  bail_if (negb (IsPointerToSpecificBuiltin (type a0) sorter_iter_kind))
    (ReportIncorrectCallArg 0 (expect (pointer_to sorter_iter_kind))) ;;
  match builtin with
  | SorterIterInit =>
      ok ← CheckArgCount 2;
      bail_if (negb ok) (mret tt) ;;
      (* The second argument is the sorter instance to iterate over *)
      let sorter_kind := Sorter in
      a1 ← args 1;
      bail_if (negb (IsPointerToSpecificBuiltin (type a1) sorter_kind))
        (ReportIncorrectCallArg 1 (expect (pointer_to sorter_kind))) ;;
      set_type (GetBuiltinType Nil)
  | SorterIterHasNext => set_type (GetBuiltinType Bool)
  | SorterIterNext => set_type (GetBuiltinType Nil)
  | SorterIterGetRow => set_type (pointer_to Uint8)
  | SorterIterClose => set_type (GetBuiltinType Nil)
  | _ => undefined (* UNREACHABLE("Impossible table iteration call") *)
  end.

(** [Sema::CheckBuiltinOutputAlloc], sema_builtin.cpp:1257. *)
Definition CheckBuiltinOutputAlloc : check unit :=
  ok ← CheckArgCount 1;
  bail_if (negb ok) (mret tt) ;;
  (* The first call argument must an execution context *)
  let exec_ctx_kind := ExecutionContext in
  a0 ← args 0;
  bail_if (negb (IsPointerToSpecificBuiltin (type a0) exec_ctx_kind))
    (ReportIncorrectCallArg 0 (expect (pointer_to exec_ctx_kind))) ;;
  (* Return a byte* *)
  let ret_type := pointer_to Uint8 in
  set_type ret_type.

(** [Sema::CheckBuiltinOutputAdvance], sema_builtin.cpp:1274. *)
Definition CheckBuiltinOutputAdvance : check unit :=
  ok ← CheckArgCount 1;
  bail_if (negb ok) (mret tt) ;;
  (* The first call argument must an execution context *)
  let exec_ctx_kind := ExecutionContext in
  a0 ← args 0;
  bail_if (negb (IsPointerToSpecificBuiltin (type a0) exec_ctx_kind))
    (ReportIncorrectCallArg 0 (expect (pointer_to exec_ctx_kind))) ;;
  (* Return nothing *)
  set_type (GetBuiltinType Nil).

(** [Sema::CheckBuiltinOutputFinalize], sema_builtin.cpp:1290. *)
Definition CheckBuiltinOutputFinalize : check unit :=
  ok ← CheckArgCount 1;
  bail_if (negb ok) (mret tt) ;;
  (* The first call argument must an execution context *)
  let exec_ctx_kind := ExecutionContext in
  a0 ← args 0;
  bail_if (negb (IsPointerToSpecificBuiltin (type a0) exec_ctx_kind))
    (ReportIncorrectCallArg 0 (expect (pointer_to exec_ctx_kind))) ;;
  (* Return nothing *)
  set_type (GetBuiltinType Nil).

(** [Sema::CheckBuiltinInsert], sema_builtin.cpp:1306. *)
Definition CheckBuiltinInsert : check unit :=
  ok ← CheckArgCount 3;
  bail_if (negb ok) (mret tt) ;;
  (* Return nothing *)
  set_type (GetBuiltinType Nil).

(** [Sema::CheckBuiltinOutputSetNull], sema_builtin.cpp:1314. *)
Definition CheckBuiltinOutputSetNull : check unit :=
  ok ← CheckArgCount 2;
  bail_if (negb ok) (mret tt) ;;
  (* The first call argument must an execution context *)
  let exec_ctx_kind := ExecutionContext in
  a0 ← args 0;
  bail_if (negb (IsPointerToSpecificBuiltin (type a0) exec_ctx_kind))
    (ReportIncorrectCallArg 0 (expect (pointer_to exec_ctx_kind))) ;;
  (* The argument should be an integer *)
  a1 ← args 1;
  let entry_size_type := type a1 in
  bail_if (negb (IsIntegerType entry_size_type))
    (ReportIncorrectCallArg 1 (expect (GetBuiltinType Uint32))) ;;
  (* Return nothing *)
  set_type (GetBuiltinType Nil).

(** [Sema::CheckBuiltinIndexIteratorScanKey], sema_builtin.cpp:1365. *)
Definition CheckBuiltinIndexIteratorScanKey : check unit :=
  n ← get_num_args; name ← get_name;
  bail_if (negb (bool_decide (n = 2)))
    (Report (Core (Sema.MismatchedCallArgs name 2 n))) ;;
  (* First argument must be a pointer to a IndexIterator *)
  a0 ← args 0;
  bail_if (negb (IsPointerToSpecificBuiltin (type a0) IndexIterator))
    (Report (BadArgToIndexIteratorScanKey (type a0) 0)) ;;
  (* Second argument should be a byte array *)
  a1 ← args 1;
  bail_if (negb (IsPointerToSpecificBuiltin (type a1) Int8))
    (Report (BadArgToIndexIteratorScanKey (type a1) 1)) ;;
  (* Return nothing *)
  set_type (GetBuiltinType Nil).

(** [Sema::CheckBuiltinIndexIteratorFree], sema_builtin.cpp:1389. *)
Definition CheckBuiltinIndexIteratorFree : check unit :=
  n ← get_num_args; name ← get_name;
  bail_if (negb (bool_decide (n = 1)))
    (Report (Core (Sema.MismatchedCallArgs name 1 n))) ;;
  (* First argument must be a pointer to a IndexIterator *)
  a0 ← args 0;
  bail_if (negb (IsPointerToSpecificBuiltin (type a0) IndexIterator))
    (Report (BadArgToIndexIteratorFree (type a0) 0)) ;;
  (* Return nothing *)
  set_type (GetBuiltinType Nil).

(** The switch of [Sema::CheckBuiltinCall], sema_builtin.cpp:1426, entered
    once the callee is recognised as [builtin] and every argument is
    resolved.  [PtrCast] is taken before the switch, by a checker that
    resolves its arguments itself and is not embedded; inside the switch
    it falls to the default. *)
Definition CheckBuiltinCall (builtin : Builtin) : check unit :=
  match builtin with
  | BoolToSql | IntToSql | FloatToSql | SqlToBool =>
      CheckBuiltinSqlConversionCall builtin
  | FilterEq | FilterGe | FilterGt | FilterLt | FilterNe | FilterLe =>
      CheckBuiltinFilterCall
  | ExecutionContextGetMemoryPool =>
      CheckBuiltinExecutionContextCall builtin
  | ThreadStateContainerInit | ThreadStateContainerReset
  | ThreadStateContainerIterate | ThreadStateContainerFree =>
      CheckBuiltinThreadStateContainerCall builtin
  | TableIterInit =>
      earlier (fun call => Sema.CheckBuiltinTableIterCall call Ast.TableIterInit)
  | TableIterAdvance =>
      earlier (fun call => Sema.CheckBuiltinTableIterCall call Ast.TableIterAdvance)
  | TableIterGetPCI =>
      earlier (fun call => Sema.CheckBuiltinTableIterCall call Ast.TableIterGetPCI)
  | TableIterClose =>
      earlier (fun call => Sema.CheckBuiltinTableIterCall call Ast.TableIterClose)
  | TableIterParallel =>
      CheckBuiltinTableIterParCall
  | PCIIsFiltered | PCIHasNext | PCIHasNextFiltered | PCIAdvance
  | PCIAdvanceFiltered | PCIMatch | PCIReset | PCIResetFiltered
  | PCIGetSmallInt | PCIGetInt | PCIGetBigInt | PCIGetReal | PCIGetDouble =>
      CheckBuiltinPCICall builtin
  | Hash =>
      CheckBuiltinHashCall builtin
  | FilterManagerInit | FilterManagerInsertFilter | FilterManagerFinalize
  | FilterManagerRunFilters | FilterManagerFree =>
      CheckBuiltinFilterManagerCall builtin
  | AggHashTableInit =>
      earlier (fun call => Sema.CheckBuiltinAggHashTableCall call Ast.AggHashTableInit)
  | AggHashTableInsert =>
      earlier (fun call => Sema.CheckBuiltinAggHashTableCall call Ast.AggHashTableInsert)
  | AggHashTableLookup =>
      earlier (fun call => Sema.CheckBuiltinAggHashTableCall call Ast.AggHashTableLookup)
  | AggHashTableProcessBatch =>
      earlier (fun call =>
        Sema.CheckBuiltinAggHashTableCall call Ast.AggHashTableProcessBatch)
  | AggHashTableMovePartitions =>
      earlier (fun call =>
        Sema.CheckBuiltinAggHashTableCall call Ast.AggHashTableMovePartitions)
  | AggHashTableParallelPartitionedScan =>
      earlier (fun call =>
        Sema.CheckBuiltinAggHashTableCall call
          Ast.AggHashTableParallelPartitionedScan)
  | AggHashTableFree =>
      earlier (fun call => Sema.CheckBuiltinAggHashTableCall call Ast.AggHashTableFree)
  | AggHashTableIterInit | AggHashTableIterHasNext | AggHashTableIterNext
  | AggHashTableIterGetRow | AggHashTableIterClose =>
      CheckBuiltinAggHashTableIterCall builtin
  | AggPartIterHasNext | AggPartIterNext | AggPartIterGetRow
  | AggPartIterGetHash =>
      CheckBuiltinAggPartIterCall builtin
  | AggInit | AggAdvance | AggMerge | AggReset | AggResult =>
      CheckBuiltinAggregatorCall builtin
  | JoinHashTableInit => CheckBuiltinJoinHashTableInit
  | JoinHashTableInsert => CheckBuiltinJoinHashTableInsert
  | JoinHashTableIterInit => CheckBuiltinJoinHashTableIterInit
  | JoinHashTableIterHasNext => CheckBuiltinJoinHashTableIterHasNext
  | JoinHashTableIterGetRow => CheckBuiltinJoinHashTableIterGetRow
  | JoinHashTableIterClose => CheckBuiltinJoinHashTableIterClose
  | JoinHashTableBuild | JoinHashTableBuildParallel =>
      CheckBuiltinJoinHashTableBuild builtin
  | JoinHashTableFree => CheckBuiltinJoinHashTableFree
  | SorterInit => CheckBuiltinSorterInit
  | SorterInsert => CheckBuiltinSorterInsert
  | SorterSort | SorterSortParallel | SorterSortTopKParallel =>
      CheckBuiltinSorterSort builtin
  | SorterFree => CheckBuiltinSorterFree
  | SorterIterInit | SorterIterHasNext | SorterIterNext | SorterIterGetRow
  | SorterIterClose =>
      CheckBuiltinSorterIterCall builtin
  | SizeOf => CheckBuiltinSizeOfCall
  | OutputAlloc => CheckBuiltinOutputAlloc
  | OutputAdvance => CheckBuiltinOutputAdvance
  | OutputSetNull => CheckBuiltinOutputSetNull
  | OutputFinalize => CheckBuiltinOutputFinalize
  | Insert => CheckBuiltinInsert
  | IndexIteratorInit => earlier Sema.CheckBuiltinIndexIteratorInit
  | IndexIteratorScanKey => CheckBuiltinIndexIteratorScanKey
  | IndexIteratorFree => CheckBuiltinIndexIteratorFree
  | ACos | ASin | ATan | ATan2 | Cos | Cot | Sin | Tan =>
      CheckMathTrigCall builtin
  | PtrCast => undefined (* UNREACHABLE("Unhandled builtin!") *)
  end.

(** What a run of a checker leaves behind; [None] stands for undefined
    behaviour. *)
Definition analyze (checker : check unit) (s : SemaState) : option SemaState :=
  match checker s with
  | Next _ s' => Some s'
  | Return s' => Some s'
  | Undefined => None
  end.

(** The analyzer about to check [call]: the reporter as it stands, the
    call's type unset. *)
Definition on_call (reporter : list Message) (call : CallExpr) : SemaState :=
  {| error_reporter := reporter; call := call; call_type := None |}.

End Checkers.

End Analyzer.

Module AnalyzerFacts.
Import Ast Analyzer.

(** ** The reporting discipline *)

(** Between two states of one run: nothing reported, the type untouched. *)
Definition quiet (s s' : SemaState) : Prop :=
  error_reporter s' = error_reporter s /\ call_type s' = call_type s.

(** One diagnostic more, the type untouched. *)
Definition reported (s s' : SemaState) : Prop :=
  (exists m, error_reporter s' = error_reporter s ++ [m]) /\
  call_type s' = call_type s.

(** Nothing reported, the type resolved to [t]. *)
Definition resolved (t : Type_) (s s' : SemaState) : Prop :=
  error_reporter s' = error_reporter s /\ call_type s' = Some t.

(** A piece of a checker that goes on quietly or leaves after a report. *)
Definition guard {A} (m : check A) : Prop :=
  forall s, match m s with
            | Next _ s' => quiet s s'
            | Return s' => reported s s'
            | Undefined => True
            end.

(** The body of a failing test: one report, no [return] of its own. *)
Definition reporting (m : check unit) : Prop :=
  forall s, match m s with
            | Next _ s' => reported s s'
            | Return _ => False
            | Undefined => True
            end.

(** A count check: quiet when it answers [true], one report otherwise. *)
Definition counting (m : check bool) : Prop :=
  forall s, match m s with
            | Next ok s' => if ok then quiet s s' else reported s s'
            | Return _ => False
            | Undefined => True
            end.

(** A whole checker: ends with the type resolved to [t], or leaves after
    one report. *)
Definition checker (t : Type_) (m : check unit) : Prop :=
  forall s, match m s with
            | Next _ s' => resolved t s s'
            | Return s' => reported s s'
            | Undefined => True
            end.

Lemma quiet_refl s : quiet s s.
Proof. by split. Qed.

Lemma quiet_trans s1 s2 s3 : quiet s1 s2 -> quiet s2 s3 -> quiet s1 s3.
Proof. intros [? ?] [? ?]. split; congruence. Qed.

Lemma quiet_reported s1 s2 s3 : quiet s1 s2 -> reported s2 s3 -> reported s1 s3.
Proof.
  intros [Hr Ht] [[m Hm] Ht']. split; [exists m|]; congruence.
Qed.

Lemma quiet_resolved t s1 s2 s3 :
  quiet s1 s2 -> resolved t s2 s3 -> resolved t s1 s3.
Proof. intros [? ?] [? ?]. split; congruence. Qed.

Section Rules.
Context `{AstContext}.

Lemma guard_ret {A} (a : A) : guard (mret a).
Proof. intros s. apply quiet_refl. Qed.

Lemma guard_bind {A B} (m : check A) (k : A -> check B) :
  guard m -> (forall a, guard (k a)) -> guard (m ≫= k).
Proof.
  intros Hm Hk s. unfold mbind, check_bind. specialize (Hm s).
  destruct (m s) as [a s1| |]; [|done..].
  specialize (Hk a s1). destruct (k a s1); [|by eapply quiet_reported|done].
  by eapply quiet_trans.
Qed.

Lemma checker_bind {A} t (m : check A) (k : A -> check unit) :
  guard m -> (forall a, checker t (k a)) -> checker t (m ≫= k).
Proof.
  intros Hm Hk s. unfold mbind, check_bind. specialize (Hm s).
  destruct (m s) as [a s1| |]; [|done..].
  specialize (Hk a s1). destruct (k a s1); [|by eapply quiet_reported|done].
  by eapply quiet_resolved.
Qed.

Lemma guard_count {B} (m : check bool) (k : unit -> check B) :
  counting m -> guard (k tt) ->
  guard (m ≫= fun ok => bail_if (negb ok) (mret tt) ≫= k).
Proof.
  intros Hm Hk s. unfold mbind, check_bind. specialize (Hm s).
  destruct (m s) as [[] s1| |]; cbn; [|done..].
  specialize (Hk s1). destruct (k tt s1); [|by eapply quiet_reported|done].
  by eapply quiet_trans.
Qed.

Lemma checker_count t (m : check bool) (k : unit -> check unit) :
  counting m -> checker t (k tt) ->
  checker t (m ≫= fun ok => bail_if (negb ok) (mret tt) ≫= k).
Proof.
  intros Hm Hk s. unfold mbind, check_bind. specialize (Hm s).
  destruct (m s) as [[] s1| |]; cbn; [|done..].
  specialize (Hk s1). destruct (k tt s1); [|by eapply quiet_reported|done].
  by eapply quiet_resolved.
Qed.

(** A count check that closes a branch of a switch. *)
Lemma guard_count_last (m : check bool) :
  counting m -> guard (m ≫= fun ok => bail_if (negb ok) (mret tt)).
Proof.
  intros Hm s. unfold mbind, check_bind. specialize (Hm s).
  by destruct (m s) as [[] s1| |].
Qed.

Lemma counting_CheckArgCount n : counting (CheckArgCount n).
Proof.
  intros [r c t]. cbv [CheckArgCount get_num_args get_name mbind check_bind].
  cbn. case_bool_decide; cbn; [apply quiet_refl|].
  split; [by eexists|done].
Qed.

Lemma counting_CheckArgCountAtLeast n : counting (CheckArgCountAtLeast n).
Proof.
  intros [r c t]. cbv [CheckArgCountAtLeast get_num_args get_name mbind check_bind].
  cbn. case_bool_decide; cbn; [apply quiet_refl|].
  split; [by eexists|done].
Qed.

Lemma guard_args i : guard (args i).
Proof. intros s. unfold args. destruct (_ !! _); [apply quiet_refl|done]. Qed.

Lemma guard_get_num_args : guard get_num_args.
Proof. intros s. apply quiet_refl. Qed.

Lemma guard_get_name : guard get_name.
Proof. intros s. apply quiet_refl. Qed.

Lemma guard_get_arguments : guard get_arguments.
Proof. intros s. apply quiet_refl. Qed.

Lemma guard_set_argument i e : guard (set_argument i e).
Proof. intros s. by split. Qed.

Lemma guard_undefined {A} : guard (@undefined A).
Proof. by intros s. Qed.

Lemma checker_undefined t : checker t undefined.
Proof. by intros s. Qed.

Lemma checker_set_type t : checker t (set_type t).
Proof. intros s. by split. Qed.

Lemma reporting_Report m : reporting (Report m).
Proof. intros s. split; [by eexists|done]. Qed.

Lemma reporting_ReportIncorrectCallArg i e : reporting (ReportIncorrectCallArg i e).
Proof.
  intros s. cbv [ReportIncorrectCallArg args get_name mbind check_bind].
  destruct (_ !! _); [|done]. split; [by eexists|done].
Qed.

Lemma reporting_named (k : string -> check unit) :
  (forall name, reporting (k name)) -> reporting (get_name ≫= k).
Proof. intros Hk s. apply Hk. Qed.

Lemma guard_bail cond body : reporting body -> guard (bail_if cond body).
Proof.
  intros Hb s. unfold bail_if. destruct cond; [|apply quiet_refl].
  unfold mbind, check_bind. specialize (Hb s). by destruct (body s).
Qed.

Lemma guard_report_return m : guard (Report m ;; @return_ unit).
Proof. intros s. split; [by eexists|done]. Qed.

Lemma guard_for_each body :
  (forall idx arg, guard (body idx arg)) ->
  forall arguments idx, guard (for_each body idx arguments).
Proof.
  intros Hb arguments. induction arguments as [|a l IH]; intros idx; cbn.
  - apply guard_ret.
  - apply guard_bind; [apply Hb|]. intros _. apply IH.
Qed.

(** The same discipline, for a checker of the earlier sections run on its
    own reporter. *)
Definition earlier_checker (t : Type_) (f : CallExpr -> Sema.sema unit) : Prop :=
  forall c ct,
    match f c {| Sema.error_reporter := []; Sema.call_type := ct |} with
    | Sema.Next _ s0 => Sema.error_reporter s0 = [] /\ Sema.call_type s0 = Some t
    | Sema.Return s0 =>
        (exists d, Sema.error_reporter s0 = [d]) /\ Sema.call_type s0 = ct
    | Sema.Undefined => True
    end.

Lemma checker_earlier t f : earlier_checker t f -> checker t (earlier f).
Proof.
  intros Hf [r c ct]. unfold earlier. cbn. specialize (Hf c ct).
  destruct (f c _) as [[] s0|s0|]; [| |done].
  - destruct Hf as [-> ->]. split; [apply app_nil_r|done].
  - destruct Hf as [[d ->] ->]. split; [by eexists|done].
Qed.

Ltac head_scrutinee t :=
  lazymatch t with
  | match ?x with _ => _ end => head_scrutinee x
  | ?f _ => applied_scrutinee f t
  | _ => t
  end
with applied_scrutinee f t :=
  lazymatch f with
  | match ?x with _ => _ end => head_scrutinee x
  | ?g _ => applied_scrutinee g t
  | _ => t
  end.

Ltac earlier_paths :=
  repeat (
    cbv -[bool_decide num_args lookup Sema.IsPointerToSpecificBuiltin
          IsStringType IsPointerType IsFunctionType IsBoolType IsSpecificBuiltin
          GetPointeeType type IsStringLiteral];
    lazymatch goal with
    | |- match ?r with _ => _ end =>
        let x := head_scrutinee r in destruct x eqn:?
    | |- _ => idtac
    end);
  try done; try (split; [by eexists|done]).

Ltac unfold_checkers :=
  cbv beta iota zeta delta
    [CheckBuiltinCall CheckBuiltinSqlConversionCall CheckBuiltinFilterCall
     CheckBuiltinExecutionContextCall CheckBuiltinThreadStateContainerCall
     CheckBuiltinTableIterParCall CheckBuiltinPCICall CheckBuiltinHashCall
     CheckBuiltinFilterManagerCall CheckBuiltinAggHashTableIterCall
     CheckBuiltinAggPartIterCall CheckBuiltinAggregatorCall
     CheckBuiltinJoinHashTableInit CheckBuiltinJoinHashTableInsert
     CheckBuiltinJoinHashTableIterInit CheckBuiltinJoinHashTableIterHasNext
     CheckBuiltinJoinHashTableIterGetRow CheckBuiltinJoinHashTableIterClose
     CheckBuiltinJoinHashTableBuild CheckBuiltinJoinHashTableFree
     CheckBuiltinSorterInit CheckBuiltinSorterInsert CheckBuiltinSorterSort
     CheckBuiltinSorterFree CheckBuiltinSorterIterCall CheckBuiltinSizeOfCall
     CheckBuiltinOutputAlloc CheckBuiltinOutputAdvance CheckBuiltinOutputSetNull
     CheckBuiltinOutputFinalize CheckBuiltinInsert
     CheckBuiltinIndexIteratorScanKey CheckBuiltinIndexIteratorFree
     CheckMathTrigCall].

Ltac discipline :=
  repeat (
    cbv beta zeta;
    first
      [ apply checker_set_type | apply checker_undefined
      | apply guard_undefined | apply guard_ret
      | apply guard_args | apply guard_get_name | apply guard_get_num_args
      | apply guard_get_arguments | apply guard_set_argument
      | apply counting_CheckArgCount | apply counting_CheckArgCountAtLeast
      | apply reporting_Report | apply reporting_ReportIncorrectCallArg
      | apply reporting_named; intros ?
      | apply guard_report_return
      | apply guard_bail
      | apply guard_for_each; intros ? ?
      | apply checker_earlier; intros ? ?; earlier_paths
      | apply checker_count
      | apply guard_count
      | apply guard_count_last
      | apply checker_bind; [|intros ?]
      | apply guard_bind; [|intros ?]
      | lazymatch goal with
        | |- guard (if ?c then _ else _) => destruct c
        | |- guard (match ?t with _ => _ end) => destruct t
        end ]).

(** The type each intrinsic's call resolves to when its checker accepts
    the call. *)
Definition return_type (builtin : Builtin) : option Type_ :=
  match builtin with
  | BoolToSql => Some (GetBuiltinType Boolean)
  | IntToSql | PCIGetSmallInt | PCIGetInt | PCIGetBigInt | AggResult =>
      Some (GetBuiltinType Integer)
  | FloatToSql | PCIGetReal | PCIGetDouble
  | ACos | ASin | ATan | ATan2 | Cos | Cot | Sin | Tan =>
      Some (GetBuiltinType Real)
  | SqlToBool | TableIterAdvance
  | PCIIsFiltered | PCIHasNext | PCIHasNextFiltered | PCIAdvance
  | PCIAdvanceFiltered | PCIReset | PCIResetFiltered
  | AggHashTableIterHasNext | AggPartIterHasNext | JoinHashTableIterHasNext
  | SorterIterHasNext =>
      Some (GetBuiltinType Bool)
  | FilterEq | FilterGe | FilterGt | FilterLt | FilterNe | FilterLe =>
      Some (GetBuiltinType Int32)
  | SizeOf => Some (GetBuiltinType Uint32)
  | Hash | AggPartIterGetHash => Some (GetBuiltinType Uint64)
  | ExecutionContextGetMemoryPool => Some (pointer_to MemoryPool)
  | TableIterGetPCI => Some (pointer_to ProjectedColumnsIterator)
  | AggHashTableInsert | AggHashTableLookup | AggHashTableIterGetRow
  | AggPartIterGetRow | JoinHashTableInsert | JoinHashTableIterGetRow
  | SorterInsert | SorterIterGetRow | OutputAlloc =>
      Some (pointer_to Uint8)
  | PtrCast => None
  | _ => Some (GetBuiltinType Nil)
  end.

Lemma CheckBuiltinCall_checker builtin t :
  return_type builtin = Some t -> checker t (CheckBuiltinCall builtin).
Proof.
  destruct builtin; intros [= <-]; unfold_checkers; discipline.
Qed.

(** ** Reads of the argument vector, and the call expression itself *)

(** A piece of a checker run on a call of at least [n] arguments: it keeps
    the number of arguments, and the call expression itself when [I] is
    set; [U] says whether it may read past the end. *)
Definition keeps (I : bool) (U : Prop) (n : nat) {A} (m : check A) : Prop :=
  forall s, n <= num_args (call s) ->
    match m s with
    | Next _ s' | Return s' =>
        num_args (call s') = num_args (call s) /\ (I -> call s' = call s)
    | Undefined => U
    end.

Section Keeps.
Context (I : bool) (U : Prop).

Lemma keeps_same {A} n (m : check A) :
  (forall s, match m s with
             | Next _ s' | Return s' => call s' = call s
             | Undefined => False
             end) ->
  keeps I U n m.
Proof.
  intros Hm s _. specialize (Hm s).
  destruct (m s) as [? s'|s'|]; [| |done]; by rewrite Hm.
Qed.

Lemma keeps_ret {A} n (a : A) : keeps I U n (mret a).
Proof. by apply keeps_same. Qed.

Lemma keeps_bind {A B} n (m : check A) (k : A -> check B) :
  keeps I U n m -> (forall a, keeps I U n (k a)) -> keeps I U n (m ≫= k).
Proof.
  intros Hm Hk s Hn. unfold mbind, check_bind. specialize (Hm s Hn).
  destruct (m s) as [a s1| |]; [|done..]. destruct Hm as [Hlen HI].
  specialize (Hk a s1). rewrite Hlen in Hk. specialize (Hk Hn).
  destruct (k a s1) as [? s2|s2|]; [| |done];
    (split; [lia|intros HI'; etrans; [by apply Hk|by apply HI]]).
Qed.

Lemma keeps_CheckArgCount {B} n expected (k : unit -> check B) :
  keeps I U expected (k tt) ->
  keeps I U n (CheckArgCount expected ≫= fun ok =>
               bail_if (negb ok) (mret tt) ≫= k).
Proof.
  intros Hk [r c t] _.
  cbv [CheckArgCount get_num_args get_name mbind check_bind Analyzer.call].
  case_bool_decide as Hc; cbn; [|done].
  specialize (Hk {| error_reporter := r; call := c; call_type := t |}).
  cbn in Hk. apply Hk. lia.
Qed.

Lemma keeps_CheckArgCountAtLeast {B} n expected (k : unit -> check B) :
  keeps I U expected (k tt) ->
  keeps I U n (CheckArgCountAtLeast expected ≫= fun ok =>
               bail_if (negb ok) (mret tt) ≫= k).
Proof.
  intros Hk [r c t] _.
  cbv [CheckArgCountAtLeast get_num_args get_name mbind check_bind Analyzer.call].
  case_bool_decide as Hc; cbn; [|done].
  specialize (Hk {| error_reporter := r; call := c; call_type := t |}).
  cbn in Hk. by apply Hk.
Qed.

Lemma keeps_count_last n expected :
  keeps I U n (CheckArgCount expected ≫= fun ok => bail_if (negb ok) (mret tt)).
Proof.
  apply keeps_same. intros [r c t].
  cbv [CheckArgCount get_num_args get_name mbind check_bind Analyzer.call].
  by case_bool_decide.
Qed.

(** The count check [IndexIteratorScanKey] and [IndexIteratorFree] write
    out themselves. *)
Lemma keeps_own_count {B} n expected (d : nat -> string -> Message)
    (k : unit -> check B) :
  keeps I U expected (k tt) ->
  keeps I U n (get_num_args ≫= fun n => get_name ≫= fun name =>
               bail_if (negb (bool_decide (n = expected))) (Report (d n name))
               ≫= k).
Proof.
  intros Hk [r c t] _.
  cbv [get_num_args get_name mbind check_bind Analyzer.call].
  case_bool_decide as Hc; cbn; [|done].
  specialize (Hk {| error_reporter := r; call := c; call_type := t |}).
  cbn in Hk. apply Hk. lia.
Qed.

Lemma keeps_args n i : U \/ i < n -> keeps I U n (args i).
Proof.
  intros Hi s Hn. unfold args.
  destruct (_ !! i) eqn:Hl; [done|]. destruct Hi as [|Hi]; [done|].
  apply lookup_ge_None in Hl. unfold num_args in Hn. lia.
Qed.

Lemma keeps_ReportIncorrectCallArg n i e :
  U \/ i < n -> keeps I U n (ReportIncorrectCallArg i e).
Proof.
  intros Hi s Hn. cbv [ReportIncorrectCallArg args get_name mbind check_bind].
  destruct (_ !! i) eqn:Hl; [done|]. destruct Hi as [|Hi]; [done|].
  apply lookup_ge_None in Hl. unfold num_args in Hn. lia.
Qed.

Lemma keeps_Report n m : keeps I U n (Report m).
Proof. by apply keeps_same. Qed.

Lemma keeps_set_type n t : keeps I U n (set_type t).
Proof. by apply keeps_same. Qed.

Lemma keeps_get_name n : keeps I U n get_name.
Proof. by apply keeps_same. Qed.

Lemma keeps_get_num_args n : keeps I U n get_num_args.
Proof. by apply keeps_same. Qed.

Lemma keeps_get_arguments n : keeps I U n get_arguments.
Proof. by apply keeps_same. Qed.

Lemma keeps_return n : keeps I U n (@return_ unit).
Proof. by apply keeps_same. Qed.

Lemma keeps_undefined {A} n : U -> keeps I U n (@undefined A).
Proof. by intros HU s _. Qed.

Lemma keeps_bail n cond body : keeps I U n body -> keeps I U n (bail_if cond body).
Proof.
  intros Hb. unfold bail_if. destruct cond; [|apply keeps_ret].
  apply keeps_bind; [done|]. intros _. apply keeps_return.
Qed.

Lemma keeps_for_each n body :
  (forall idx arg, keeps I U n (body idx arg)) ->
  forall arguments idx, keeps I U n (for_each body idx arguments).
Proof.
  intros Hb arguments. induction arguments as [|a l IH]; intros idx; cbn.
  - apply keeps_ret.
  - apply keeps_bind; [apply Hb|]. intros _. apply IH.
Qed.

Lemma keeps_earlier n f :
  (forall c s0, n <= num_args c -> f c s0 = Sema.Undefined -> U) ->
  keeps I U n (earlier f).
Proof.
  intros Hf [r c t] Hn. unfold earlier. cbn in *.
  specialize (Hf c {| Sema.error_reporter := []; Sema.call_type := t |} Hn).
  destruct (f c _); cbn; [done|done|by apply Hf].
Qed.

End Keeps.

Lemma keeps_set_argument U n i e : keeps false U n (set_argument i e).
Proof. intros s _. cbn. unfold num_args. cbn. by rewrite length_insert. Qed.

Ltac earlier_reads :=
  repeat (
    cbv -[bool_decide num_args lookup Sema.IsPointerToSpecificBuiltin
          IsStringType IsPointerType IsFunctionType IsBoolType IsSpecificBuiltin
          GetPointeeType type IsStringLiteral];
    lazymatch goal with
    | |- ?r = Sema.Undefined -> False =>
        let x := head_scrutinee r in
        lazymatch x with
        | Sema.Next _ _ => fail
        | Sema.Return _ => fail
        | Sema.Undefined => fail
        | _ => destruct x eqn:?
        end
    end);
  try done;
  intros _;
  repeat match goal with
         | Hc : bool_decide _ = true |- _ => apply bool_decide_eq_true in Hc
         | Hl : _ !! _ = None |- _ => apply lookup_ge_None in Hl
         end;
  unfold num_args in *; cbn in *; lia.

Lemma AggHashTableCall_defined b c s0 :
  b <> Ast.TableIterInit -> b <> Ast.TableIterAdvance ->
  b <> Ast.TableIterGetPCI -> b <> Ast.TableIterClose ->
  b <> Ast.IndexIteratorInit ->
  Sema.CheckBuiltinAggHashTableCall c b s0 <> Sema.Undefined.
Proof.
  destruct c as [name arguments].
  destruct b; intros ? ? ? ? ?; try done; earlier_reads.
Qed.

Ltac side := first [left; exact Logic.I | right; lia].

Ltac keeping :=
  repeat (
    cbv beta zeta;
    first
      [ apply keeps_ret | apply keeps_set_type | apply keeps_Report
      | apply keeps_get_name | apply keeps_get_num_args
      | apply keeps_get_arguments | apply keeps_return
      | apply keeps_args; side
      | apply keeps_ReportIncorrectCallArg; side
      | apply keeps_undefined; exact Logic.I
      | apply keeps_bail
      | apply keeps_for_each; intros ? ?
      | apply keeps_set_argument
      | apply keeps_earlier; intros ? ? ? ?; exact Logic.I
      | apply keeps_earlier; intros ? ? ? Hu;
        by eapply AggHashTableCall_defined, Hu
      | apply keeps_CheckArgCount | apply keeps_CheckArgCountAtLeast
      | apply keeps_own_count | apply keeps_count_last
      | apply keeps_bind; [|intros ?]
      | lazymatch goal with
        | |- keeps _ _ _ (if ?c then _ else _) => destruct c
        | |- keeps _ _ _ (match ?t with _ => _ end) => destruct t
        end ]).

(** The intrinsics whose checker indexes the argument vector at a position
    no count check has covered ([PtrCast], whose checker is not embedded,
    is listed with them). *)
Definition reads_unchecked (builtin : Builtin) : bool :=
  match builtin with
  | TableIterInit | TableIterAdvance | TableIterGetPCI | TableIterClose
  | IndexIteratorInit
  | SorterSortParallel | SorterSortTopKParallel
  | FilterManagerRunFilters
  | PtrCast => true
  | _ => false
  end.


Lemma CheckBuiltinCall_defined builtin :
  reads_unchecked builtin = false ->
  keeps false False 0 (CheckBuiltinCall builtin).
Proof.
  destruct builtin; intros [=]; unfold_checkers; keeping.
Qed.

(** A call is accepted when its checker runs to the end and files no
    diagnostic. *)
Definition accepts (builtin : Builtin) (call : CallExpr) : Prop :=
  exists s', analyze (CheckBuiltinCall builtin) (on_call [] call) = Some s' /\
             error_reporter s' = [].

(** X13.  The reporting discipline of the checkers: whatever the intrinsic
    and the call, a checker that runs to its end has either filed nothing
    and resolved the call's type, to the type that belongs to the
    intrinsic, or filed exactly one diagnostic after those already there
    and left the type unset. *)
Theorem CheckBuiltinCall_reports_once_or_resolves builtin reporter call s' :
  analyze (CheckBuiltinCall builtin) (on_call reporter call) = Some s' ->
  (error_reporter s' = reporter /\ is_Some (call_type s') /\
   call_type s' = return_type builtin) \/
  ((exists m, error_reporter s' = reporter ++ [m]) /\ call_type s' = None).
Proof.
  unfold analyze. intros Hrun.
  destruct (return_type builtin) as [t|] eqn:Ht;
    [|by destruct builtin].
  pose proof (CheckBuiltinCall_checker builtin t Ht (on_call reporter call)) as Hc.
  destruct (CheckBuiltinCall builtin _) as [[] s1|s1|]; simplify_eq.
  - left. destruct Hc as [? ->]. by eauto.
  - by right.
Qed.


(** X15.  Apart from the listed intrinsics, no checker reads the argument
    vector out of range or reaches an [UNREACHABLE] default: on every call,
    of any number of arguments, it runs to its end. *)
Theorem CheckBuiltinCall_reads_in_range builtin s :
  reads_unchecked builtin = false ->
  is_Some (analyze (CheckBuiltinCall builtin) s).
Proof.
  unfold analyze. intros Hb.
  pose proof (CheckBuiltinCall_defined builtin Hb s (Nat.le_0_l _)) as Hk.
  by destruct (CheckBuiltinCall builtin s) as [[] s1|s1|].
Qed.

Ltac evaluate :=
  repeat (
    cbv -[Sema.IsPointerToSpecificBuiltin IsStringType IsPointerType
          IsFunctionType IsBoolType IsNilType IsSpecificBuiltin GetPointeeType
          IsIntegerType IsFloatType IsSqlValueType IsSqlAggregatorType
          ImplCastExprToType is_filter_function is_key_equality_function
          is_comparison_function IsPointerToAggregatorValue IsPointerToSQLValue
          type IsStringLiteral for_each];
    repeat match goal with
           | Hp : ?p = _ |- context [?p] => rewrite Hp
           end).

Ltac evaluate_in Hrun :=
  repeat (
    cbv -[Sema.IsPointerToSpecificBuiltin IsStringType IsPointerType
          IsFunctionType IsBoolType IsNilType IsSpecificBuiltin GetPointeeType
          IsIntegerType IsFloatType IsSqlValueType IsSqlAggregatorType
          ImplCastExprToType is_filter_function is_key_equality_function
          is_comparison_function IsPointerToAggregatorValue IsPointerToSQLValue
          type IsStringLiteral for_each] in Hrun;
    repeat match goal with
           | Hp : ?p = _, Hr : context [?p] |- _ =>
               lazymatch Hr with Hrun => rewrite Hp in Hrun end
           end).



(** The intrinsics whose checker examines the first argument and nothing
    else, with the kind that argument must point to. *)
Definition receiver_only (builtin : Builtin) : option Kind :=
  match builtin with
  | ThreadStateContainerFree => Some ThreadStateContainer
  | TableIterAdvance | TableIterGetPCI | TableIterClose =>
      Some TableVectorIterator
  | PCIIsFiltered | PCIHasNext | PCIHasNextFiltered | PCIAdvance
  | PCIAdvanceFiltered | PCIReset | PCIResetFiltered
  | PCIGetSmallInt | PCIGetInt | PCIGetBigInt | PCIGetReal | PCIGetDouble =>
      Some ProjectedColumnsIterator
  | FilterManagerInit | FilterManagerFinalize | FilterManagerFree =>
      Some FilterManager
  | AggHashTableFree => Some AggregationHashTable
  | JoinHashTableBuild => Some JoinHashTable
  | SorterIterHasNext | SorterIterNext | SorterIterGetRow | SorterIterClose =>
      Some SorterIterator
  | _ => None
  end.

(** X17.  For the intrinsics of [receiver_only], a call is accepted
    exactly when it has a first argument and that argument is a pointer to
    the intrinsic's kind: how many arguments follow, and of which types, is
    never looked at. *)
Theorem receiver_only_ignores_further_arguments builtin kind call :
  receiver_only builtin = Some kind ->
  accepts builtin call <->
  exists a0 rest,
    arguments call = a0 :: rest /\
    Sema.IsPointerToSpecificBuiltin (type a0) kind = true.
Proof.
  intros Hk. destruct call as [name [|a0 rest]]; cbn [arguments]; split.
  - intros (s' & Hrun & Hr). exfalso.
    destruct builtin; simplify_eq/=; evaluate_in Hrun; by simplify_eq.
  - by intros (a0 & rest & ? & _).
  - intros (s' & Hrun & Hr). exists a0, rest. split; [done|].
    destruct (Sema.IsPointerToSpecificBuiltin (type a0) kind) eqn:Hp; [done|].
    exfalso.
    destruct builtin; simplify_eq/=; evaluate_in Hrun; by simplify_eq.
  - intros (? & ? & [= <- <-] & Hp). unfold accepts.
    destruct builtin; simplify_eq/=; evaluate; by eexists.
Qed.

(** ** The checkers that loop over the arguments *)

Lemma for_each_passes (test : Expr -> bool) (report : nat -> Expr -> check unit)
    arguments idx s :
  Forall (fun arg => test arg = true) arguments ->
  for_each (fun i arg => bail_if (negb (test arg)) (report i arg))
    idx arguments s = Next tt s.
Proof.
  intros Hall. revert idx. induction Hall as [|a l Ha _ IH]; intros idx; [done|].
  cbn [for_each]. unfold mbind, check_bind at 1. rewrite Ha. cbn. apply IH.
Qed.

Lemma for_each_stops (test : Expr -> bool) (report : nat -> Expr -> check unit)
    good bad rest idx s s1 :
  Forall (fun arg => test arg = true) good ->
  test bad = false ->
  report (idx + length good) bad s = Next tt s1 ->
  for_each (fun i arg => bail_if (negb (test arg)) (report i arg))
    idx (good ++ bad :: rest) s = Return s1.
Proof.
  intros Hall Hbad Hrep. revert idx Hrep.
  induction Hall as [|a l Ha _ IH]; intros idx Hrep.
  - cbn in *. rewrite Nat.add_0_r in Hrep.
    unfold mbind, check_bind at 1. rewrite Hbad. cbn.
    unfold mbind, check_bind. by rewrite Hrep.
  - cbn [app for_each]. unfold mbind, check_bind at 1. rewrite Ha. cbn.
    apply IH. by rewrite <- Hrep, length_cons, Nat.add_succ_r.
Qed.

Lemma first_offender (test : Expr -> bool) arguments :
  Forall (fun arg => test arg = true) arguments \/
  exists good bad rest,
    arguments = good ++ bad :: rest /\
    Forall (fun arg => test arg = true) good /\ test bad = false.
Proof.
  induction arguments as [|a l IH]; [by left|].
  destruct (test a) eqn:Ha; [|right; by exists [], a, l].
  destruct IH as [IH|(good & bad & rest & -> & Hgood & Hbad)].
  - left. by constructor.
  - right. exists (a :: good), bad, rest. by repeat constructor.
Qed.

Definition is_sql_value (arg : Expr) : bool := IsSqlValueType (type arg).
Definition is_aggregator (arg : Expr) : bool := IsPointerToAggregatorValue (type arg).
Definition is_filter (arg : Expr) : bool := is_filter_function (type arg).

Lemma bind_Next {A B} (m : check A) (k : A -> check B) s a s1 :
  m s = Next a s1 -> (m ≫= k) s = k a s1.
Proof. unfold mbind, check_bind. by intros ->. Qed.

Lemma bind_Return {A B} (m : check A) (k : A -> check B) s s1 :
  m s = Return s1 -> (m ≫= k) s = Return s1.
Proof. unfold mbind, check_bind. by intros ->. Qed.

Lemma CheckArgCountAtLeast_ok expected s :
  expected <= num_args (call s) -> CheckArgCountAtLeast expected s = Next true s.
Proof.
  intros Hn. cbv [CheckArgCountAtLeast get_num_args get_name mbind check_bind].
  by rewrite bool_decide_true.
Qed.

Lemma CheckBuiltinHashCall_accepted reporter call :
  arguments call <> [] ->
  Forall (fun arg => is_sql_value arg = true) (arguments call) ->
  CheckBuiltinCall Hash (on_call reporter call) =
  Next tt {| error_reporter := reporter; call := call;
             call_type := Some (GetBuiltinType Uint64) |}.
Proof.
  intros Hne Hall. unfold CheckBuiltinCall, CheckBuiltinHashCall.
  erewrite bind_Next
    by (apply CheckArgCountAtLeast_ok; cbn; unfold num_args;
        destruct (arguments call); [done|cbn; lia]).
  cbn [negb bail_if]. erewrite bind_Next by reflexivity.
  erewrite bind_Next by reflexivity.
  erewrite bind_Next by (apply (for_each_passes is_sql_value); exact Hall).
  reflexivity.
Qed.

Lemma CheckBuiltinHashCall_rejected reporter call good bad rest :
  arguments call = good ++ bad :: rest ->
  Forall (fun arg => is_sql_value arg = true) good ->
  is_sql_value bad = false ->
  CheckBuiltinCall Hash (on_call reporter call) =
  Return {| error_reporter := reporter ++ [BadHashArg (length good) (type bad)];
            call := call; call_type := None |}.
Proof.
  intros Hl Hgood Hbad. unfold CheckBuiltinCall, CheckBuiltinHashCall.
  erewrite bind_Next
    by (apply CheckArgCountAtLeast_ok; cbn; unfold num_args;
        rewrite Hl, length_app; cbn; lia).
  cbn [negb bail_if]. erewrite bind_Next by reflexivity.
  erewrite bind_Next by reflexivity.
  unfold on_call. cbn [Analyzer.call]. rewrite Hl.
  erewrite bind_Return; [reflexivity|].
  by apply (for_each_stops is_sql_value).
Qed.

(** X18.  [Hash] takes any number of arguments from one on and accepts the
    call exactly when all of them are SQL values; otherwise the only
    diagnostic is filed at the position of the first argument that is not,
    and no argument after it is examined. *)
Theorem CheckBuiltinHashCall_blames_first_offender call :
  (accepts Hash call <->
   arguments call <> [] /\
   Forall (fun arg => is_sql_value arg = true) (arguments call)) /\
  (forall reporter good bad rest,
     arguments call = good ++ bad :: rest ->
     Forall (fun arg => is_sql_value arg = true) good ->
     is_sql_value bad = false ->
     CheckBuiltinCall Hash (on_call reporter call) =
     Return {| error_reporter := reporter ++ [BadHashArg (length good) (type bad)];
               call := call; call_type := None |}).
Proof.
  split; [|intros; by eapply CheckBuiltinHashCall_rejected]. split.
  - intros (s' & Hrun & Hr). unfold analyze in Hrun.
    destruct (arguments call) as [|a l] eqn:Hargs.
    { destruct call as [name l']. cbn in Hargs. subst l'.
      evaluate_in Hrun. by simplify_eq. }
    split; [done|]. rewrite <- Hargs.
    destruct (first_offender is_sql_value (arguments call))
      as [|(good & bad & rest & Hl & Hgood & Hbad)]; [done|].
    rewrite (CheckBuiltinHashCall_rejected [] call good bad rest) in Hrun by done.
    by simplify_eq.
  - intros [Hne Hall]. eexists. unfold analyze.
    by rewrite CheckBuiltinHashCall_accepted.
Qed.

Lemma aggregator_init_accepted builtin reporter call :
  builtin = AggInit \/ builtin = AggReset ->
  Forall (fun arg => is_aggregator arg = true) (arguments call) ->
  CheckBuiltinCall builtin (on_call reporter call) =
  Next tt {| error_reporter := reporter; call := call;
             call_type := Some (GetBuiltinType Nil) |}.
Proof.
  intros [-> | ->] Hall;
    cbv beta iota delta [CheckBuiltinCall CheckBuiltinAggregatorCall];
    (erewrite bind_Next by reflexivity);
    (erewrite bind_Next by (apply (for_each_passes is_aggregator); exact Hall));
    reflexivity.
Qed.

Lemma aggregator_init_rejected builtin reporter call good bad rest :
  builtin = AggInit \/ builtin = AggReset ->
  arguments call = good ++ bad :: rest ->
  Forall (fun arg => is_aggregator arg = true) good ->
  is_aggregator bad = false ->
  CheckBuiltinCall builtin (on_call reporter call) =
  Return {| error_reporter := reporter ++ [NotASQLAggregate (type bad)];
            call := call; call_type := None |}.
Proof.
  intros [-> | ->] Hl Hgood Hbad;
    cbv beta iota delta [CheckBuiltinCall CheckBuiltinAggregatorCall];
    (erewrite bind_Next by reflexivity);
    unfold on_call; cbn [Analyzer.call]; rewrite Hl;
    (erewrite bind_Return; [reflexivity|]);
    by apply (for_each_stops is_aggregator
                (fun _ arg => Report (NotASQLAggregate (type arg)))).
Qed.

(** X19.  [AggInit] and [AggReset] take any number of arguments, none
    included: the call is accepted exactly when every argument is a pointer
    to an aggregator, and is otherwise rejected with the type of the first
    argument that is not. *)
Theorem CheckBuiltinAggregatorCall_init_any_arity builtin call :
  builtin = AggInit \/ builtin = AggReset ->
  (accepts builtin call <->
   Forall (fun arg => is_aggregator arg = true) (arguments call)) /\
  (forall reporter good bad rest,
     arguments call = good ++ bad :: rest ->
     Forall (fun arg => is_aggregator arg = true) good ->
     is_aggregator bad = false ->
     CheckBuiltinCall builtin (on_call reporter call) =
     Return {| error_reporter := reporter ++ [NotASQLAggregate (type bad)];
               call := call; call_type := None |}).
Proof.
  intros Hb. split; [|intros; by eapply aggregator_init_rejected]. split.
  - intros (s' & Hrun & Hr). unfold analyze in Hrun.
    destruct (first_offender is_aggregator (arguments call))
      as [|(good & bad & rest & Hl & Hgood & Hbad)]; [done|].
    rewrite (aggregator_init_rejected builtin [] call good bad rest) in Hrun
      by done.
    by simplify_eq.
  - intros Hall. eexists. unfold analyze.
    by rewrite aggregator_init_accepted.
Qed.

Lemma insert_filter_receiver reporter call a0 filters :
  arguments call = a0 :: filters ->
  Sema.IsPointerToSpecificBuiltin (type a0) FilterManager = true ->
  CheckBuiltinCall FilterManagerInsertFilter (on_call reporter call) =
  (for_each (fun arg_idx arg =>
     bail_if (negb (is_filter arg))
       (name ← get_name;
        Report (Core (Sema.IncorrectCallArgType name
                        (expect (pointer_to FilterManager)) arg_idx (type arg)))))
     1 filters ;;
   set_type (GetBuiltinType Nil)) (on_call reporter call).
Proof.
  intros Hl Hp.
  cbv beta iota zeta delta [CheckBuiltinCall CheckBuiltinFilterManagerCall].
  erewrite bind_Next
    by (apply CheckArgCountAtLeast_ok; cbn; unfold num_args; rewrite Hl; cbn; lia).
  cbn [negb bail_if]. erewrite bind_Next by reflexivity.
  erewrite bind_Next by (unfold args, on_call; cbn; by rewrite Hl).
  rewrite Hp. cbn [negb bail_if]. erewrite bind_Next by reflexivity.
  erewrite bind_Next by reflexivity.
  unfold on_call. cbn [Analyzer.call]. by rewrite Hl.
Qed.

(** X20.  [FilterManagerInsertFilter] takes any number of filters after
    the filter manager: the call is accepted exactly when each is a
    function of one pointer-to-PCI parameter returning an integer, and is
    otherwise rejected at the index of the first that is not, an index that
    counts the filter manager itself. *)
Theorem FilterManagerInsertFilter_blames_first_offender call a0 filters :
  arguments call = a0 :: filters ->
  Sema.IsPointerToSpecificBuiltin (type a0) FilterManager = true ->
  (accepts FilterManagerInsertFilter call <->
   Forall (fun arg => is_filter arg = true) filters) /\
  (forall reporter good bad rest,
     filters = good ++ bad :: rest ->
     Forall (fun arg => is_filter arg = true) good ->
     is_filter bad = false ->
     CheckBuiltinCall FilterManagerInsertFilter (on_call reporter call) =
     Return {| error_reporter :=
                 reporter ++
                 [Core (Sema.IncorrectCallArgType (GetFuncName call)
                          (expect (pointer_to FilterManager))
                          (S (length good)) (type bad))];
               call := call; call_type := None |}).
Proof.
  intros Hl Hp.
  assert (forall reporter good bad rest,
     filters = good ++ bad :: rest ->
     Forall (fun arg => is_filter arg = true) good ->
     is_filter bad = false ->
     CheckBuiltinCall FilterManagerInsertFilter (on_call reporter call) =
     Return {| error_reporter :=
                 reporter ++
                 [Core (Sema.IncorrectCallArgType (GetFuncName call)
                          (expect (pointer_to FilterManager))
                          (S (length good)) (type bad))];
               call := call; call_type := None |}) as Hrej.
  { intros reporter good bad rest -> Hgood Hbad.
    rewrite (insert_filter_receiver _ _ _ _ Hl Hp).
    erewrite bind_Return; [reflexivity|].
    by apply (for_each_stops is_filter). }
  split; [|exact Hrej]. split.
  - intros (s' & Hrun & Hr). unfold analyze in Hrun.
    destruct (first_offender is_filter filters)
      as [|(good & bad & rest & Hf & Hgood & Hbad)]; [done|].
    rewrite (Hrej [] good bad rest) in Hrun by done. by simplify_eq.
  - intros Hall. eexists. unfold analyze.
    rewrite (insert_filter_receiver _ _ _ _ Hl Hp).
    erewrite bind_Next by (apply (for_each_passes is_filter); exact Hall).
    by cbn.
Qed.

(** X21.  [PCIMatch] on a PCI pointer and a second argument: a SQL
    [Boolean] is replaced in the call by the inserted cast to the native
    [Bool] and the call accepted; a native [Bool] is accepted as it is;
    anything else is rejected at index 1, the call left as it was. *)
Theorem PCIMatch_casts_sql_boolean reporter name a0 a1 :
  Sema.IsPointerToSpecificBuiltin (type a0) ProjectedColumnsIterator = true ->
  CheckBuiltinCall PCIMatch (on_call reporter (mkCall name [a0; a1])) =
  if IsSpecificBuiltin (type a1) Boolean then
    Next tt {| error_reporter := reporter;
               call := mkCall name
                         [a0; ImplCastExprToType a1 (GetBuiltinType Bool)
                                SqlBoolToBool];
               call_type := Some (GetBuiltinType Nil) |}
  else if IsBoolType (type a1) then
    Next tt {| error_reporter := reporter; call := mkCall name [a0; a1];
               call_type := Some (GetBuiltinType Nil) |}
  else
    Return {| error_reporter :=
                reporter ++
                [Core (Sema.IncorrectCallArgType name
                         (expect (GetBuiltinType Bool)) 1 (type a1))];
              call := mkCall name [a0; a1]; call_type := None |}.
Proof.
  intros Hp0.
  destruct (IsSpecificBuiltin (type a1) Boolean) eqn:Hsql.
  - evaluate. by rewrite ImplCastExprToType_type.
  - destruct (IsBoolType (type a1)) eqn:Hbool; by evaluate.
Qed.

End Rules.

(** ** Examples *)

(** A classification for the examples: the kinds by their names, and a
    cast node that carries its target type. *)
#[local] Instance kinds : AstContext := {|
  IsIntegerType t :=
    match t with
    | BuiltinType (Int8 | Int16 | Int32 | Int64 | Uint8 | Uint16 | Uint32
                   | Uint64) => true
    | _ => false
    end;
  IsFloatType t :=
    match t with BuiltinType (Float32 | Float64) => true | _ => false end;
  IsSqlValueType t :=
    match t with
    | BuiltinType (Boolean | Integer | Real | StringVal | Date) => true
    | _ => false
    end;
  IsSqlAggregatorType t :=
    match t with
    | BuiltinType (CountAggregate | CountStarAggregate | IntegerSumAggregate
                   | IntegerMinAggregate | IntegerMaxAggregate
                   | IntegerAvgAggregate) => true
    | _ => false
    end;
  ImplCastExprToType _ t _ := {| type := t; IsStringLiteral := false |};
  ImplCastExprToType_type _ _ _ := eq_refl
|}.

Definition of_type (t : Type_) : Expr := {| type := t; IsStringLiteral := false |}.
Definition of_kind (kind : Kind) : Expr := of_type (GetBuiltinType kind).
Definition pointing_to (kind : Kind) : Expr := of_type (pointer_to kind).

Definition sql_to_bool : CallExpr := mkCall "sqlToBool" [of_kind Boolean].
Definition hash_call : CallExpr :=
  mkCall "hash" [of_kind Integer; of_kind Int32; of_kind Boolean].
Definition pci_has_next : CallExpr :=
  mkCall "pciHasNext" [pointing_to ProjectedColumnsIterator; of_kind Int32;
                       of_type StringType].
Definition filter_function : Expr :=
  of_type (FunctionType [pointer_to ProjectedColumnsIterator]
             (GetBuiltinType Int32)).
Definition insert_filter : CallExpr :=
  mkCall "filterManagerInsertFilter"
    [pointing_to FilterManager; filter_function; of_kind Int32; filter_function].

Lemma CheckBuiltinCall_reports_once_or_resolves_witness :
  let s' := {| error_reporter := []; call := sql_to_bool;
               call_type := Some (GetBuiltinType Bool) |} in
  analyze (CheckBuiltinCall SqlToBool) (on_call [] sql_to_bool) = Some s' /\
  ((error_reporter s' = [] /\ is_Some (call_type s') /\
    call_type s' = return_type SqlToBool) \/
   ((exists m, error_reporter s' = [] ++ [m]) /\ call_type s' = None)).
Proof.
  split; [reflexivity|].
  apply (CheckBuiltinCall_reports_once_or_resolves SqlToBool [] sql_to_bool).
  reflexivity.
Defined.


Lemma CheckBuiltinCall_reads_in_range_witness :
  reads_unchecked AggHashTableProcessBatch = false /\
  is_Some (analyze (CheckBuiltinCall AggHashTableProcessBatch)
             (on_call [] hash_call)).
Proof.
  split; [reflexivity|].
  apply (CheckBuiltinCall_reads_in_range AggHashTableProcessBatch). reflexivity.
Defined.


Lemma receiver_only_ignores_further_arguments_witness :
  receiver_only PCIHasNext = Some ProjectedColumnsIterator /\
  (accepts PCIHasNext pci_has_next <->
   exists a0 rest,
     arguments pci_has_next = a0 :: rest /\
     Sema.IsPointerToSpecificBuiltin (type a0) ProjectedColumnsIterator = true).
Proof.
  split; [reflexivity|].
  apply (receiver_only_ignores_further_arguments PCIHasNext). reflexivity.
Defined.

Lemma CheckBuiltinHashCall_blames_first_offender_witness :
  CheckBuiltinCall Hash (on_call [] hash_call) =
  Return {| error_reporter := [] ++ [BadHashArg (length [of_kind Integer])
                                       (type (of_kind Int32))];
            call := hash_call; call_type := None |}.
Proof.
  apply (proj2 (CheckBuiltinHashCall_blames_first_offender hash_call) []
           [of_kind Integer] (of_kind Int32) [of_kind Boolean]).
  - reflexivity.
  - repeat constructor.
  - reflexivity.
Defined.

Lemma CheckBuiltinAggregatorCall_init_any_arity_witness :
  (AggInit = AggInit \/ AggInit = AggReset) /\
  (accepts AggInit (mkCall "aggInit" []) <->
   Forall (fun arg => is_aggregator arg = true) []).
Proof.
  split; [by left|].
  apply (CheckBuiltinAggregatorCall_init_any_arity AggInit (mkCall "aggInit" [])).
  by left.
Defined.

Lemma FilterManagerInsertFilter_blames_first_offender_witness :
  CheckBuiltinCall FilterManagerInsertFilter (on_call [] insert_filter) =
  Return {| error_reporter :=
              [] ++
              [Core (Sema.IncorrectCallArgType (GetFuncName insert_filter)
                       (expect (pointer_to FilterManager))
                       (S (length [filter_function])) (type (of_kind Int32)))];
            call := insert_filter; call_type := None |}.
Proof.
  apply (proj2 (FilterManagerInsertFilter_blames_first_offender insert_filter
                  (pointing_to FilterManager)
                  [filter_function; of_kind Int32; filter_function]
                  eq_refl eq_refl)
           [] [filter_function] (of_kind Int32) [filter_function]).
  - reflexivity.
  - repeat constructor.
  - reflexivity.
Defined.

Lemma PCIMatch_casts_sql_boolean_witness :
  analyze (CheckBuiltinCall PCIMatch)
    (on_call [] (mkCall "pciMatch"
                   [pointing_to ProjectedColumnsIterator; of_kind Boolean])) =
  Some {| error_reporter := [];
          call := mkCall "pciMatch"
                    [pointing_to ProjectedColumnsIterator; of_kind Bool];
          call_type := Some (GetBuiltinType Nil) |}.
Proof.
  unfold analyze.
  rewrite (PCIMatch_casts_sql_boolean [] "pciMatch"
             (pointing_to ProjectedColumnsIterator) (of_kind Boolean) eq_refl).
  reflexivity.
Defined.

End AnalyzerFacts.

(* ===================================================================== *)
(** * The index scan plan node (plan_node/index_scan_plan_node.cpp)       *)
(* ===================================================================== *)

Module PlanNode.

(** [common::hash_t] *)
Abbreviation hash_t := N (only parsing).

(** What the node is built from; the headers plan_node/abstract_plan_node.h,
    parser/expression/abstract_expression.h and common/hash_util.h are not
    among the sources, so that the hash functions and the comparisons of
    the parts are left open. *)
Class Parts (PlanNodeType Predicate OutputSchema Base : Type) := {
  (* common::HashUtil *)
  HashUtil_Hash_type : PlanNodeType -> hash_t;
  HashUtil_Hash_bool : bool -> hash_t;
  CombineHashes : hash_t -> hash_t -> hash_t;
  (* PlanNodeType is an enumeration *)
  PlanNodeType_eq_dec :: EqDecision PlanNodeType;
  (* AbstractExpression::Hash and operator!= *)
  Predicate_Hash : Predicate -> hash_t;
  Predicate_ne : Predicate -> Predicate -> bool;
  (* OutputSchema::operator!= *)
  OutputSchema_ne : OutputSchema -> OutputSchema -> bool;
  (* AbstractPlanNode::Hash and AbstractPlanNode::operator== *)
  AbstractPlanNode_Hash : Base -> hash_t;
  AbstractPlanNode_eq : Base -> Base -> bool
}.

Section IndexScan.
Context `{Parts PlanNodeType Predicate OutputSchema Base}.

(** A plan node as [IndexScanPlanNode] sees it: its type tag, the scan
    predicate (a pointer, possibly null), the output schema, the update
    flag and the part the base class answers for. *)
Record IndexScanPlanNode : Type := {
  GetPlanNodeType : PlanNodeType;
  GetPredicate : option Predicate;
  GetOutputSchema : OutputSchema;
  IsForUpdate : bool;
  base : Base
}.

(** [IndexScanPlanNode::Hash], index_scan_plan_node.cpp:6. *)
Definition Hash (node : IndexScanPlanNode) : hash_t :=
  let type := GetPlanNodeType node in
  let hash := HashUtil_Hash_type type in
  (* Hash predicate *)
  let hash :=
    match GetPredicate node with
    | Some predicate => CombineHashes hash (Predicate_Hash predicate)
    | None => hash
    end in
  (* Hash is_for_update *)
  let is_for_update := IsForUpdate node in
  let hash := CombineHashes hash (HashUtil_Hash_bool is_for_update) in
  CombineHashes hash (AbstractPlanNode_Hash (base node)).

(** [p == nullptr] *)
Definition is_nullptr {A} (p : option A) : bool :=
  match p with None => true | Some _ => false end.

(** [IndexScanPlanNode::operator==], index_scan_plan_node.cpp:22. *)
Definition equals (node rhs : IndexScanPlanNode) : bool :=
  if negb (bool_decide (GetPlanNodeType node = GetPlanNodeType rhs)) then false
  else
    let rhs_plan_node := rhs in
    (* Predicate *)
    let pred := GetPredicate node in
    let rhs_plan_node_pred := GetPredicate rhs_plan_node in
    if (is_nullptr pred && negb (is_nullptr rhs_plan_node_pred))
       || (negb (is_nullptr pred) && is_nullptr rhs_plan_node_pred)
    then false
    else if match pred, rhs_plan_node_pred with
            | Some p, Some q => Predicate_ne p q
            | Some _, None => true (* not reached: a null right-hand side
                                      has returned above *)
            | None, _ => false
            end
    then false
    else if OutputSchema_ne (GetOutputSchema node) (GetOutputSchema rhs_plan_node)
    then false
    else if negb (eqb (IsForUpdate node) (IsForUpdate rhs_plan_node)) then false
    else AbstractPlanNode_eq (base node) (base rhs).

End IndexScan.

Arguments IndexScanPlanNode _ _ _ _ : clear implicits.

End PlanNode.

Module PlanNodeFacts.
Import PlanNode.

Section IndexScan.
Context `{Parts PlanNodeType Predicate OutputSchema Base}.

#[local] Abbreviation Node := (IndexScanPlanNode PlanNodeType Predicate OutputSchema Base).

(** What [operator==] has compared when it answers [true]. *)
Lemma equals_true (node rhs : Node) :
  equals node rhs = true ->
  GetPlanNodeType node = GetPlanNodeType rhs /\
  match GetPredicate node, GetPredicate rhs with
  | Some p, Some q => Predicate_ne p q = false
  | None, None => True
  | _, _ => False
  end /\
  OutputSchema_ne (GetOutputSchema node) (GetOutputSchema rhs) = false /\
  IsForUpdate node = IsForUpdate rhs /\
  AbstractPlanNode_eq (base node) (base rhs) = true.
Proof.
  unfold equals. case_bool_decide as Htype; [|done]. cbn.
  destruct (GetPredicate node) as [p|], (GetPredicate rhs) as [q|]; cbn;
    try done.
  - destruct (Predicate_ne p q); [done|].
    destruct (OutputSchema_ne _ _); [done|].
    destruct (IsForUpdate node), (IsForUpdate rhs); cbn; done.
  - destruct (OutputSchema_ne _ _); [done|].
    destruct (IsForUpdate node), (IsForUpdate rhs); cbn; done.
Qed.


(** X23.  [operator==] is an equivalence on index scans whenever the
    comparisons of the parts are: it is reflexive, symmetric and transitive
    if predicate and schema inequality are the negations of equivalences
    and the base comparison is an equivalence. *)
Theorem equals_equivalence :
  (forall p, Predicate_ne p p = false) ->
  (forall p q, Predicate_ne p q = Predicate_ne q p) ->
  (forall p q r, Predicate_ne p q = false -> Predicate_ne q r = false ->
                 Predicate_ne p r = false) ->
  (forall o, OutputSchema_ne o o = false) ->
  (forall o p, OutputSchema_ne o p = OutputSchema_ne p o) ->
  (forall o p q, OutputSchema_ne o p = false -> OutputSchema_ne p q = false ->
                 OutputSchema_ne o q = false) ->
  (forall b, AbstractPlanNode_eq b b = true) ->
  (forall b c, AbstractPlanNode_eq b c = AbstractPlanNode_eq c b) ->
  (forall b c d, AbstractPlanNode_eq b c = true -> AbstractPlanNode_eq c d = true ->
                 AbstractPlanNode_eq b d = true) ->
  (forall node : Node, equals node node = true) /\
  (forall node rhs : Node, equals node rhs = equals rhs node) /\
  (forall n1 n2 n3 : Node, equals n1 n2 = true -> equals n2 n3 = true ->
                           equals n1 n3 = true).
Proof.
  intros Hp1 Hp2 Hp3 Ho1 Ho2 Ho3 Hb1 Hb2 Hb3. split; [|split].
  - intros node. unfold equals. rewrite bool_decide_true by done. cbn.
    destruct (GetPredicate node) as [p|]; cbn;
      rewrite ?Hp1, Ho1, Hb1; by destruct (IsForUpdate node).
  - intros node rhs. unfold equals.
    rewrite (Ho2 (GetOutputSchema node)), (Hb2 (base node)).
    destruct (GetPredicate node) as [p|], (GetPredicate rhs) as [q|];
      cbn; rewrite ?(Hp2 p q);
      repeat case_bool_decide; try congruence; cbn; try done;
      by destruct (IsForUpdate node), (IsForUpdate rhs).
  - intros n1 n2 n3 (Ht & Hp & Ho & Hu & Hb)%equals_true
                    (Ht' & Hp' & Ho' & Hu' & Hb')%equals_true.
    unfold equals. rewrite bool_decide_true by congruence. cbn.
    rewrite (Ho3 _ _ _ Ho Ho'), (Hb3 _ _ _ Hb Hb'), Hu, Hu'.
    destruct (GetPredicate n1) as [p|], (GetPredicate n2) as [q|],
      (GetPredicate n3) as [r|]; cbn; try done.
    + rewrite (Hp3 _ _ _ Hp Hp'). by destruct (IsForUpdate n3).
    + by destruct (IsForUpdate n3).
Qed.

End IndexScan.

(** ** Examples *)

(** Parts for the examples: predicates and schemas are numbers compared by
    value, hashes are the values themselves, combined by a weighted sum. *)
#[local] Instance toy_parts : Parts nat N N N := {|
  HashUtil_Hash_type t := N.of_nat t;
  HashUtil_Hash_bool b := if b then 1%N else 0%N;
  CombineHashes h1 h2 := (31 * h1 + h2)%N;
  Predicate_Hash p := p;
  Predicate_ne p q := negb (p =? q)%N;
  OutputSchema_ne o p := negb (o =? p)%N;
  AbstractPlanNode_Hash b := b;
  AbstractPlanNode_eq b c := (b =? c)%N
|}.

Definition toy_scan (schema : N) : IndexScanPlanNode nat N N N :=
  {| GetPlanNodeType := 4; GetPredicate := Some 7%N; GetOutputSchema := schema;
     IsForUpdate := true; base := 2%N |}.


Lemma equals_equivalence_witness :
  equals (toy_scan 5) (toy_scan 5) = true /\
  equals (toy_scan 5) (toy_scan 6) = equals (toy_scan 6) (toy_scan 5).
Proof.
  pose proof (@equals_equivalence nat N N N toy_parts) as Heq.
  cbn [Predicate_ne OutputSchema_ne AbstractPlanNode_eq toy_parts] in Heq.
  destruct Heq as (Hrefl & Hsym & _).
  - intros p. by rewrite N.eqb_refl.
  - intros p q. by rewrite N.eqb_sym.
  - intros p q r ->%negb_false_iff%N.eqb_eq ->%negb_false_iff%N.eqb_eq.
    by rewrite N.eqb_refl.
  - intros p. by rewrite N.eqb_refl.
  - intros p q. by rewrite N.eqb_sym.
  - intros p q r ->%negb_false_iff%N.eqb_eq ->%negb_false_iff%N.eqb_eq.
    by rewrite N.eqb_refl.
  - intros p. apply N.eqb_refl.
  - intros p q. apply N.eqb_sym.
  - intros p q r ->%N.eqb_eq ->%N.eqb_eq. apply N.eqb_refl.
  - split; [apply Hrefl|apply Hsym].
Defined.

(** The hash does not tell output schemas apart: two scans that differ in
    the schema only are unequal and hash equally. *)
Example schema_not_hashed :
  equals (toy_scan 5) (toy_scan 6) = false /\
  Hash (toy_scan 5) = Hash (toy_scan 6).
Proof. by split. Qed.

End PlanNodeFacts.
